(** * Dynamic reading mode: distance-to-presentation pipeline

    A shallow embedding of the numeric core of [dynamic-reading-mode.user.js]:
    the [MediaPipeDistanceDetector] class (face metrics, temporal smoothing,
    alignment classification with debouncing, calibration, relative distance)
    and the font / contrast mapping of [ReadingModeManager], followed by its
    contrast colours, its [onDistanceUpdate] callback, the reading timer, and
    the path of a calibration through the calibration dialog and
    [CalibrationManager].

    JavaScript numbers are IEEE-754 binary64 values.  Every function below is
    written once, over an abstract carrier of numbers, and is used at two
    instances:
    - [Exact]: rationals [Q] with exact arithmetic, in which the general
      statements are proved (division by a zero denominator does not occur in
      any statement: it is excluded by a hypothesis wherever a variable
      denominator appears);
    - [Binary64]: Rocq's primitive floats, which are binary64 with
      round-to-nearest-even, in which the code is run on concrete inputs the
      way a JavaScript engine runs it.

    [console.log] calls are not modelled.  [Date.now()] is an input [now].
    Callbacks ([onDistanceUpdate], [onCalibrationFrameStatus], [onError]) and
    DOM writes append an event to a trace kept in the state. *)

From Stdlib Require Import QArith Qabs Qminmax Qround Lqa Lia ZArith Bool.
From Stdlib Require Import List.
From Stdlib Require Import String Ascii.
From Stdlib Require Import Floats.PrimFloat Uint63.
Import ListNotations.

Set Implicit Arguments.

(* ================================================================= *)
(** * Numbers *)

Declare Scope js_scope.
Delimit Scope js_scope with js.

Class Number (N : Type) : Type := {
  lit : Q -> N;                 (* a numeric literal, or an integer count *)
  num_add : N -> N -> N;
  num_sub : N -> N -> N;
  num_mul : N -> N -> N;
  num_div : N -> N -> N;
  num_opp : N -> N;
  Math_abs : N -> N;
  Math_max : N -> N -> N;
  Math_min : N -> N -> N;
  num_ltb : N -> N -> bool;     (* a < b *)
  num_leb : N -> N -> bool;     (* a <= b *)
  truthy : N -> bool            (* ToBoolean: neither 0 nor NaN *)
}.

Notation "x + y" := (num_add x y) : js_scope.
Notation "x - y" := (num_sub x y) : js_scope.
Notation "x * y" := (num_mul x y) : js_scope.
Notation "x / y" := (num_div x y) : js_scope.
Notation "- x" := (num_opp x) : js_scope.
Notation "x <? y" := (num_ltb x y) (at level 70) : js_scope.
Notation "x <=? y" := (num_leb x y) (at level 70) : js_scope.
Notation "x >? y" := (num_ltb y x) (at level 70) : js_scope.
Notation "x >=? y" := (num_leb y x) (at level 70) : js_scope.

(** Exact rational arithmetic. *)
#[export] Instance Exact : Number Q := {|
  lit := fun q => q;
  num_add := Qplus;
  num_sub := Qminus;
  num_mul := Qmult;
  num_div := Qdiv;
  num_opp := Qopp;
  Math_abs := Qabs;
  Math_max := Qmax;
  Math_min := Qmin;
  num_ltb := fun a b => negb (Qle_bool b a);
  num_leb := Qle_bool;
  truthy := fun a => negb (Qeq_bool a 0)
|}.

(** Binary64.  A decimal literal [n/d] whose numerator and denominator are
    below 2^53 is the correctly rounded quotient of two exactly represented
    integers, which is the double a JavaScript engine reads the literal as. *)
Definition float_of_Z (z : Z) : float :=
  match z with
  | Z0 => PrimFloat.zero
  | Zpos _ => PrimFloat.of_uint63 (Uint63.of_Z z)
  | Zneg p => PrimFloat.opp (PrimFloat.of_uint63 (Uint63.of_Z (Zpos p)))
  end.

Definition float_lit (q : Q) : float :=
  PrimFloat.div (float_of_Z (Qnum q)) (float_of_Z (Zpos (Qden q))).

Definition float_max (a b : float) : float :=
  if PrimFloat.is_nan a || PrimFloat.is_nan b then PrimFloat.nan
  else if PrimFloat.ltb a b then b
  else if PrimFloat.ltb b a then a
  else if PrimFloat.is_zero a then PrimFloat.add a b
  else a.

Definition float_min (a b : float) : float :=
  if PrimFloat.is_nan a || PrimFloat.is_nan b then PrimFloat.nan
  else if PrimFloat.ltb a b then a
  else if PrimFloat.ltb b a then b
  else if PrimFloat.is_zero a
       then PrimFloat.opp (PrimFloat.add (PrimFloat.opp a) (PrimFloat.opp b))
  else a.

#[export] Instance Binary64 : Number float := {|
  lit := float_lit;
  num_add := PrimFloat.add;
  num_sub := PrimFloat.sub;
  num_mul := PrimFloat.mul;
  num_div := PrimFloat.div;
  num_opp := PrimFloat.opp;
  Math_abs := PrimFloat.abs;
  Math_max := float_max;
  Math_min := float_min;
  num_ltb := PrimFloat.ltb;
  num_leb := PrimFloat.leb;
  truthy := fun a => negb (PrimFloat.eqb a PrimFloat.zero || PrimFloat.is_nan a)
|}.

Definition of_nat {N} `{Number N} (n : nat) : N := lit (inject_Z (Z.of_nat n)).

(* ================================================================= *)
(** * Data model *)

Record Landmark (N : Type) : Type := mkLandmark { x : N; y : N }.

Record FaceMetrics (N : Type) : Type := mkFaceMetrics {
  faceWidth : N;
  faceHeight : N;
  faceWidthToImageRatio : N;
  faceHeightToImageRatio : N;
  faceCenterX : N;
  faceCenterY : N;
  imageWidth : N;
  imageHeight : N;
  timestamp : N
}.

Inductive AlignmentStatus : Type :=
  | no_face | too_far | too_close | too_left | too_right
  | too_high | too_low | good.

Definition AlignmentStatus_eq_dec (a b : AlignmentStatus) : {a = b} + {a <> b}.
Proof. decide equality. Defined.

Definition status_eqb (a b : AlignmentStatus) : bool :=
  if AlignmentStatus_eq_dec a b then true else false.

(** [this.calibration].  [referenceFaceWidth] and [timestamp] start as
    [null] and the initial object has no [referenceFontSize]: [None]. *)
Record Calibration (N : Type) : Type := mkCalibration {
  isCalibrated : bool;
  referenceFaceWidth : option N;
  referenceDistance : N;
  referenceFontSize : option N;
  cal_timestamp : option N
}.

(** [this.config.calibrationFrame] (its [width] and [height] are never read). *)
Record CalibrationFrame (N : Type) : Type := mkCalibrationFrame {
  targetFaceRatio : N;
  positionTolerance : N
}.

(** What [calculateRelativeDistance] returns, and what [onDistanceUpdate]
    receives once [alignmentStatus] and [faceDetected] are added.  [distance],
    [offset] and [distanceRatio] are [null] in the no-face update. *)
Record DistanceData (N : Type) : Type := mkDistanceData {
  distance : option N;
  offset : option N;
  distanceRatio : option N;
  dd_faceWidth : N;
  dd_isCalibrated : bool
}.

Record CalibrationFrameStatus (N : Type) : Type := mkCalibrationFrameStatus {
  cfs_status : AlignmentStatus;
  faceRatio : N;
  idealRatio : N;
  position : N * N
}.

(** The error messages of the detector. *)
Inductive ErrorMessage : Type :=
  | msg_no_face_cannot_calibrate   (* "未检测到人脸，无法校准" *)
  | msg_adjust_position            (* "请调整位置和距离" *)
  | msg_move_closer                (* "请靠近一点" *)
  | msg_move_away                  (* "请远离一点" *)
  | msg_move_right                 (* "请向右移动" *)
  | msg_move_left                  (* "请向左移动" *)
  | msg_move_down                  (* "请向下移动" *)
  | msg_move_up                    (* "请向上移动" *)
  | msg_type_error.                (* the TypeError of a missing landmark *)

(** How a call that may throw completes. *)
Inductive Completion (A : Type) : Type :=
  | returned (a : A)
  | threw (e : ErrorMessage).
Arguments threw {A} e.

Inductive Event (N : Type) : Type :=
  | onDistanceUpdate (data : DistanceData N)
                     (alignmentStatus : AlignmentStatus) (faceDetected : bool)
  | onCalibrationFrameStatus (s : CalibrationFrameStatus N)
  | onError (e : ErrorMessage).
Arguments onError {N} e.

(** The fields of a [MediaPipeDistanceDetector] that the pipeline reads or
    writes.  [localStorage] is the entry under the key
    ["mediapipe-calibration"]; [trace] holds the callbacks made so far, the
    most recent first. *)
(** A calibration record as it comes back from storage: an object whose
    properties, when present, are numbers ([None]: the property is missing
    or [undefined]). *)
Record StoredCalibration (N : Type) : Type := mkStoredCalibration {
  st_referenceFaceWidth : option N;
  st_referenceDistance : option N;
  st_referenceFontSize : option N;
  st_timestamp : option N
}.

(** A value handed to [loadCalibration], after [JSON.parse] when it was a
    string. *)
Inductive Parsed (N : Type) : Type :=
  | parsed_falsy                    (* null, undefined, false, 0, NaN or "" *)
  | parsed_primitive                (* any other value that is not an object *)
  | parsed_object (o : StoredCalibration N).
Arguments parsed_falsy {N}.
Arguments parsed_primitive {N}.

Inductive CalibrationInput (N : Type) : Type :=
  | input_string (s : string)
  | input_value (v : Parsed N).
Arguments input_string {N} s.

(** [results] of the landmark source: [multiFaceLandmarks] and the frame's
    dimensions. *)
Record Results (N : Type) : Type := mkResults {
  multiFaceLandmarks : option (list (list (Landmark N)));
  image_width : N;
  image_height : N
}.

Record Detector (N : Type) : Type := mkDetector {
  distanceScale : N;
  calibrationFrame : CalibrationFrame N;
  isRunning : bool;
  faceHistory : list (FaceMetrics N);
  maxHistorySize : nat;
  calibration : Calibration N;
  lastCalibrationStatus : option AlignmentStatus;
  statusStabilityCounter : nat;
  statusStabilityThreshold : nat;
  localStorage : option (Calibration N);
  trace : list (Event N)
}.

Section Detector.
Context {N : Type} `{Number N}.
Local Open Scope js_scope.

Definition emit (e : Event N) (d : Detector N) : Detector N :=
  mkDetector (distanceScale d) (calibrationFrame d) (isRunning d)
    (faceHistory d) (maxHistorySize d) (calibration d)
    (lastCalibrationStatus d) (statusStabilityCounter d)
    (statusStabilityThreshold d) (localStorage d) (e :: trace d).

Definition set_faceHistory (h : list (FaceMetrics N)) (d : Detector N) :=
  mkDetector (distanceScale d) (calibrationFrame d) (isRunning d)
    h (maxHistorySize d) (calibration d)
    (lastCalibrationStatus d) (statusStabilityCounter d)
    (statusStabilityThreshold d) (localStorage d) (trace d).

Definition set_debounce (s : option AlignmentStatus) (c : nat)
    (d : Detector N) :=
  mkDetector (distanceScale d) (calibrationFrame d) (isRunning d)
    (faceHistory d) (maxHistorySize d) (calibration d)
    s c (statusStabilityThreshold d) (localStorage d) (trace d).

Definition set_calibration (c : Calibration N) (d : Detector N) :=
  mkDetector (distanceScale d) (calibrationFrame d) (isRunning d)
    (faceHistory d) (maxHistorySize d) c
    (lastCalibrationStatus d) (statusStabilityCounter d)
    (statusStabilityThreshold d) (localStorage d) (trace d).

Definition set_localStorage (c : Calibration N) (d : Detector N) :=
  mkDetector (distanceScale d) (calibrationFrame d) (isRunning d)
    (faceHistory d) (maxHistorySize d) (calibration d)
    (lastCalibrationStatus d) (statusStabilityCounter d)
    (statusStabilityThreshold d) (Some c) (trace d).

(** The constructor, for the configuration keys the pipeline uses:
    [smoothingWindow: config.smoothingWindow || 5] and
    [distanceScale: config.distanceScale || 100]. *)
Definition new_MediaPipeDistanceDetector
    (smoothingWindow : option nat) (distanceScale : option N) : Detector N :=
  {| distanceScale :=
       match distanceScale with
       | Some s => if truthy s then s else lit 100
       | None => lit 100
       end;
     calibrationFrame :=
       {| targetFaceRatio := lit 0.5; positionTolerance := lit 0.2 |};
     isRunning := false;
     faceHistory := [];
     maxHistorySize :=
       match smoothingWindow with
       | Some (S n) => S n
       | _ => 5%nat
       end;
     calibration :=
       {| isCalibrated := false; referenceFaceWidth := None;
          referenceDistance := lit 0; referenceFontSize := None;
          cal_timestamp := None |};
     lastCalibrationStatus := None;
     statusStabilityCounter := 0;
     statusStabilityThreshold := 3;
     localStorage := None;
     trace := [] |}.

(** ** Face Metrics Extractor *)

(** [landmarks[i]] is [undefined] past the end of the array, and reading
    [.x] of it throws: [None].  ([nose] is read and never used; it is there
    whenever the right ear, at a higher index, is.) *)
Definition calculateFaceMetrics (landmarks : list (Landmark N))
    (imageWidth imageHeight now : N) : option (FaceMetrics N) :=
  match nth_error landmarks 234, nth_error landmarks 454,
        nth_error landmarks 4, nth_error landmarks 10,
        nth_error landmarks 152 with
  | Some leftEar, Some rightEar, Some nose, Some forehead, Some chin =>
      let faceWidth := Math_abs ((x rightEar - x leftEar) * imageWidth) in
      let faceHeight := Math_abs ((y chin - y forehead) * imageHeight) in
      let faceCenterX := (x rightEar + x leftEar) / lit 2 in
      let faceCenterY := (y chin + y forehead) / lit 2 in
      let normalizedX := (faceCenterX - lit 0.5) * lit 2 in
      let normalizedY := (faceCenterY - lit 0.5) * lit 2 in
      Some {| faceWidth := faceWidth;
              faceHeight := faceHeight;
              faceWidthToImageRatio := faceWidth / imageWidth;
              faceHeightToImageRatio := faceHeight / imageHeight;
              faceCenterX := normalizedX;
              faceCenterY := normalizedY;
              imageWidth := imageWidth;
              imageHeight := imageHeight;
              timestamp := now |}
  | _, _, _, _, _ => None
  end.

(** ** Temporal Smoother *)

(** [while (length > maxHistorySize) shift()]: at most [length] rounds. *)
Fixpoint shift_while (fuel : nat) (maxSize : nat)
    (h : list (FaceMetrics N)) : list (FaceMetrics N) :=
  match fuel with
  | O => h
  | S fuel' =>
      if (maxSize <? List.length h)%nat
      then shift_while fuel' maxSize (List.tl h)
      else h
  end.

Definition addToFaceHistory (metrics : FaceMetrics N) (d : Detector N)
    : Detector N :=
  let h := faceHistory d ++ [metrics] in
  set_faceHistory (shift_while (List.length h) (maxHistorySize d) h) d.

(** One round of the [for ... of] loop. *)
Definition accumulate (smoothed metrics : FaceMetrics N) : FaceMetrics N :=
  {| faceWidth := faceWidth smoothed + faceWidth metrics;
     faceHeight := faceHeight smoothed + faceHeight metrics;
     faceWidthToImageRatio :=
       faceWidthToImageRatio smoothed + faceWidthToImageRatio metrics;
     faceHeightToImageRatio :=
       faceHeightToImageRatio smoothed + faceHeightToImageRatio metrics;
     faceCenterX := faceCenterX smoothed + faceCenterX metrics;
     faceCenterY := faceCenterY smoothed + faceCenterY metrics;
     imageWidth := imageWidth smoothed;
     imageHeight := imageHeight smoothed;
     timestamp := timestamp smoothed |}.

Definition smooth (h : list (FaceMetrics N)) : option (FaceMetrics N) :=
  match h with
  | [] => None
  | m0 :: _ =>
      let count := of_nat (List.length h) in
      let newest := List.last h m0 in
      let smoothed :=
        {| faceWidth := lit 0;
           faceHeight := lit 0;
           faceWidthToImageRatio := lit 0;
           faceHeightToImageRatio := lit 0;
           faceCenterX := lit 0;
           faceCenterY := lit 0;
           imageWidth := imageWidth newest;
           imageHeight := imageHeight newest;
           timestamp := timestamp newest |} in
      let smoothed := fold_left accumulate h smoothed in
      Some {| faceWidth := faceWidth smoothed / count;
              faceHeight := faceHeight smoothed / count;
              faceWidthToImageRatio := faceWidthToImageRatio smoothed / count;
              faceHeightToImageRatio :=
                faceHeightToImageRatio smoothed / count;
              faceCenterX := faceCenterX smoothed / count;
              faceCenterY := faceCenterY smoothed / count;
              imageWidth := imageWidth smoothed;
              imageHeight := imageHeight smoothed;
              timestamp := timestamp smoothed |}
  end.

Definition getSmoothedFaceMetrics (d : Detector N) : option (FaceMetrics N) :=
  smooth (faceHistory d).

(** ** Alignment Classifier *)

(** The decision of [checkCalibrationFrameAlignment] for metrics that are
    present (the six flags, then the [if ... else if] chain). *)
Definition alignment (cf : CalibrationFrame N) (faceMetrics : FaceMetrics N)
    : AlignmentStatus :=
  let idealFaceRatio := targetFaceRatio cf in
  let currentFaceRatio := faceWidthToImageRatio faceMetrics in
  let posTolerance := positionTolerance cf in
  let isTooLeft := faceCenterX faceMetrics <? - posTolerance in
  let isTooRight := faceCenterX faceMetrics >? posTolerance in
  let isTooHigh := faceCenterY faceMetrics <? - posTolerance in
  let isTooLow := faceCenterY faceMetrics >? posTolerance in
  let isTooFar :=
    currentFaceRatio <? idealFaceRatio - idealFaceRatio * lit 0.5 in
  let isTooClose :=
    currentFaceRatio >? idealFaceRatio + idealFaceRatio * lit 0.5 in
  if isTooFar then too_far
  else if isTooClose then too_close
  else if isTooLeft then too_left
  else if isTooRight then too_right
  else if isTooHigh then too_high
  else if isTooLow then too_low
  else good.

Definition same_status (last : option AlignmentStatus)
    (status : AlignmentStatus) : bool :=
  match last with
  | Some s => status_eqb s status
  | None => false
  end.

Definition checkCalibrationFrameAlignment
    (faceMetrics : option (FaceMetrics N)) (d : Detector N)
    : AlignmentStatus * Detector N :=
  match faceMetrics with
  | None => (no_face, d)
  | Some fm =>
      let status := alignment (calibrationFrame d) fm in
      if negb (same_status (lastCalibrationStatus d) status) then
        (status, set_debounce (Some status) 0 d)
      else
        let d := set_debounce (lastCalibrationStatus d)
                   (S (statusStabilityCounter d)) d in
        if (statusStabilityThreshold d <=? statusStabilityCounter d)%nat then
          (status,
           emit (onCalibrationFrameStatus
                   {| cfs_status := status;
                      faceRatio := faceWidthToImageRatio fm;
                      idealRatio := targetFaceRatio (calibrationFrame d);
                      position := (faceCenterX fm, faceCenterY fm) |}) d)
        else (status, d)
  end.

(** ** Calibration *)

Definition calibrate (fontSize : option N) (now : N) (d : Detector N)
    : Completion (Calibration N) * Detector N :=
  let fontSize := match fontSize with Some f => f | None => lit 16 end in
  match getSmoothedFaceMetrics d with
  | None => (threw msg_no_face_cannot_calibrate, d)
  | Some metrics =>
      let (alignmentStatus, d) :=
        checkCalibrationFrameAlignment (Some metrics) d in
      if negb (status_eqb alignmentStatus good) then
        let errorMessage :=
          match alignmentStatus with
          | too_far => msg_move_closer
          | too_close => msg_move_away
          | too_left => msg_move_right
          | too_right => msg_move_left
          | too_high => msg_move_down
          | too_low => msg_move_up
          | _ => msg_adjust_position
          end in
        (threw errorMessage, d)
      else
        let c := {| isCalibrated := true;
                    referenceFaceWidth := Some (faceWidth metrics);
                    referenceDistance := lit 0;
                    referenceFontSize := Some fontSize;
                    cal_timestamp := Some now |} in
        let d := set_calibration c d in
        let d := set_localStorage c d in
        (returned c, d)
  end.

(** ** Relative Distance Calculator *)

(** [null] read as a number is [0]. *)
Definition to_number (v : option N) : N :=
  match v with Some n => n | None => lit 0 end.

Definition calculateRelativeDistance (faceMetrics : option (FaceMetrics N))
    (d : Detector N) : DistanceData N :=
  match isCalibrated (calibration d), faceMetrics with
  | true, Some fm =>
      let ratio :=
        faceWidth fm / to_number (referenceFaceWidth (calibration d)) in
      let relativeDistance := (lit 1 / ratio - lit 1) * distanceScale d in
      {| distance := Some relativeDistance;
         offset := Some relativeDistance;
         distanceRatio := Some ratio;
         dd_faceWidth := faceWidth fm;
         dd_isCalibrated := true |}
  | _, _ =>
      {| distance := Some (lit 0);
         offset := Some (lit 0);
         distanceRatio := Some (lit 1);
         dd_faceWidth :=
           match faceMetrics with
           | Some fm => faceWidth fm
           | None => lit 0
           end;
         dd_isCalibrated := false |}
  end.

Definition handleNoFaceDetected (now : N) (d : Detector N) : Detector N :=
  let lastDetectedFace :=
    match faceHistory d with
    | [] => lit 0
    | m0 :: _ => timestamp (List.last (faceHistory d) m0)
    end in
  if now - lastDetectedFace >? lit 500 then
    let d := set_faceHistory [] d in
    let d := emit (onDistanceUpdate
                     {| distance := None;
                        offset := None;
                        distanceRatio := None;
                        dd_faceWidth := lit 0;
                        dd_isCalibrated := isCalibrated (calibration d) |}
                     no_face false) d in
    emit (onCalibrationFrameStatus
            {| cfs_status := no_face;
               faceRatio := lit 0;
               idealRatio := targetFaceRatio (calibrationFrame d);
               position := (lit 0, lit 0) |}) d
  else d.

(** ** Loading a stored calibration *)

Section LoadCalibration.
(** [JSON.parse]; [None] when it throws. *)
Variable JSON_parse : string -> option (Parsed N).

Definition or_default (v : option N) (default : N) : N :=
  match v with
  | Some n => if truthy n then n else default
  | None => default
  end.

Definition is_truthy (v : option N) : bool :=
  match v with Some n => truthy n | None => false end.

Definition loadCalibration (calibrationData : CalibrationInput N)
    (d : Detector N) : bool * Detector N :=
  let parsedData :=
    match calibrationData with
    | input_string s => JSON_parse s
    | input_value v => Some v
    end in
  match parsedData with
  | None => (false, d)
  | Some parsed_falsy => (false, d)
  | Some parsed_primitive => (false, d)
  | Some (parsed_object o) =>
      match st_referenceFaceWidth o with
      | None => (false, d)
      | Some w =>
          if negb (is_truthy (st_timestamp o)) then (false, d)
          else
            (true,
             set_calibration
               {| isCalibrated := true;
                  referenceFaceWidth := Some w;
                  referenceDistance :=
                    or_default (st_referenceDistance o) (lit 0);
                  referenceFontSize :=
                    Some (or_default (st_referenceFontSize o) (lit 16));
                  cal_timestamp := st_timestamp o |} d)
      end
  end.
End LoadCalibration.

(** ** One frame of the pipeline *)

Definition processFaceMeshResults (results : option (Results N)) (now : N)
    (d : Detector N) : Detector N :=
  if negb (isRunning d) then d
  else
    match results with
    | None => handleNoFaceDetected now d
    | Some r =>
        match multiFaceLandmarks r with
        | None | Some [] => handleNoFaceDetected now d
        | Some (landmarks :: _) =>
            match calculateFaceMetrics landmarks
                    (image_width r) (image_height r) now with
            | None => emit (onError msg_type_error) d
            | Some faceMetrics =>
                let d := addToFaceHistory faceMetrics d in
                let smoothedMetrics := getSmoothedFaceMetrics d in
                let (alignmentStatus, d) :=
                  checkCalibrationFrameAlignment smoothedMetrics d in
                let distanceData :=
                  calculateRelativeDistance smoothedMetrics d in
                emit (onDistanceUpdate distanceData alignmentStatus true) d
            end
        end
    end.

(** [startDetectionLoop], once the model and the camera are ready. *)
Definition startDetectionLoop (d : Detector N) : Detector N :=
  mkDetector (distanceScale d) (calibrationFrame d) true
    (faceHistory d) (maxHistorySize d) (calibration d)
    (lastCalibrationStatus d) (statusStabilityCounter d)
    (statusStabilityThreshold d) (localStorage d) (trace d).

(** [cleanup()]: the loop stops and the buffer is emptied. *)
Definition cleanup (d : Detector N) : Detector N :=
  mkDetector (distanceScale d) (calibrationFrame d) false
    [] (maxHistorySize d) (calibration d)
    (lastCalibrationStatus d) (statusStabilityCounter d)
    (statusStabilityThreshold d) (localStorage d) (trace d).

(** [resetCalibration()] of the calibration dialog: the stored record is
    removed and the calibration of the detector is put back to the value
    the constructor gave it. *)
Definition resetCalibration (d : Detector N) : Detector N :=
  mkDetector (distanceScale d) (calibrationFrame d) (isRunning d)
    (faceHistory d) (maxHistorySize d)
    {| isCalibrated := false; referenceFaceWidth := None;
       referenceDistance := lit 0; referenceFontSize := None;
       cal_timestamp := None |}
    (lastCalibrationStatus d) (statusStabilityCounter d)
    (statusStabilityThreshold d) None (trace d).

End Detector.

(* ================================================================= *)
(** * Presentation Mapper *)

(** Writes to the rendering surface. *)
Inductive UIEvent (N : Type) : Type :=
  | updateFontSize (px : N).

(** The fields of [ReadingModeManager] used by the font mapper; [ui] holds
    the writes made so far, the most recent first. *)
Record ReadingModeManager (N : Type) : Type := mkReadingModeManager {
  baseFontSize : N;
  currentFontSize : N;
  lastStableDistance : N;
  fontChangeThreshold : N;
  deadZoneRadius : N;
  deadZoneCenter : N;
  deadZoneStableTime : N;
  lastDistanceChangeTime : N;
  ui : list (UIEvent N)
}.

Section Presentation.
Context {N : Type} `{Number N}.
Local Open Scope js_scope.

(** The constructor, after [initializeFontSizes] has read the stored
    [referenceFontSize] ([None] when there is none). *)
Definition new_ReadingModeManager (storedFontSize : option N)
    : ReadingModeManager N :=
  let base := or_default storedFontSize (lit 16) in
  {| baseFontSize := base;
     currentFontSize := base;
     lastStableDistance := lit 0;
     fontChangeThreshold := lit 0.5;
     deadZoneRadius := lit 2.0;
     deadZoneCenter := lit 0;
     deadZoneStableTime := lit 1000;
     lastDistanceChangeTime := lit 0;
     ui := [] |}.

Definition calculateFontSizeMultiplier (distance : N) : N :=
  let scale := lit 1.5 in
  let multiplier := lit 1 + (distance * scale * lit 0.8) / lit 100 in
  Math_max (lit 0.6) (Math_min (lit 2.5) multiplier).

Definition handleStableFontAdjustment (distance currentTime : N)
    (m : ReadingModeManager N) : ReadingModeManager N :=
  let distanceFromDeadZoneCenter := Math_abs (distance - deadZoneCenter m) in
  if distanceFromDeadZoneCenter <=? deadZoneRadius m then m
  else
    let deadZoneCenter' :=
      if currentTime - lastDistanceChangeTime m >? deadZoneStableTime m
      then distance else deadZoneCenter m in
    let lastDistanceChangeTime' := currentTime in
    let distanceChange := Math_abs (distance - lastStableDistance m) in
    if distanceChange >=? fontChangeThreshold m then
      let fontSizeMultiplier := calculateFontSizeMultiplier distance in
      let newFontSize :=
        Math_max (lit 12) (Math_min (lit 32)
                             (baseFontSize m * fontSizeMultiplier)) in
      let fontSizeChange := Math_abs (newFontSize - currentFontSize m) in
      if fontSizeChange >=? lit 0.2 then
        {| baseFontSize := baseFontSize m;
           currentFontSize := newFontSize;
           lastStableDistance := distance;
           fontChangeThreshold := fontChangeThreshold m;
           deadZoneRadius := deadZoneRadius m;
           deadZoneCenter := deadZoneCenter';
           deadZoneStableTime := deadZoneStableTime m;
           lastDistanceChangeTime := lastDistanceChangeTime';
           ui := updateFontSize newFontSize :: ui m |}
      else
        {| baseFontSize := baseFontSize m;
           currentFontSize := currentFontSize m;
           lastStableDistance := lastStableDistance m;
           fontChangeThreshold := fontChangeThreshold m;
           deadZoneRadius := deadZoneRadius m;
           deadZoneCenter := deadZoneCenter';
           deadZoneStableTime := deadZoneStableTime m;
           lastDistanceChangeTime := lastDistanceChangeTime';
           ui := ui m |}
    else
      {| baseFontSize := baseFontSize m;
         currentFontSize := currentFontSize m;
         lastStableDistance := lastStableDistance m;
         fontChangeThreshold := fontChangeThreshold m;
         deadZoneRadius := deadZoneRadius m;
         deadZoneCenter := deadZoneCenter';
         deadZoneStableTime := deadZoneStableTime m;
         lastDistanceChangeTime := lastDistanceChangeTime';
         ui := ui m |}.

Definition calculateContrastAdjustment (distance : N) : N :=
  let scale := lit 2.0 in
  let normalizedDistance := (distance * scale) / lit 100 in
  let minRatio := lit 3.5 in
  let maxRatio := lit 9.0 in
  let baseRatio := lit 6.0 in
  let targetRatio :=
    if normalizedDistance <=? lit 0 then
      let factor := Math_max (- lit 1) (normalizedDistance / lit 0.5) in
      baseRatio + (minRatio - baseRatio) * Math_abs factor
    else
      let factor := Math_min (lit 1) (normalizedDistance / lit 0.5) in
      baseRatio + (maxRatio - baseRatio) * factor in
  Math_max minRatio (Math_min maxRatio targetRatio).

(** ** Luminance and contrast ratio *)

Definition hex_digit (c : ascii) : option Z :=
  let n := Z.of_nat (nat_of_ascii c) in
  if ((48 <=? n) && (n <=? 57))%Z then Some (n - 48)%Z            (* 0-9 *)
  else if ((97 <=? n) && (n <=? 102))%Z then Some (n - 87)%Z      (* a-f *)
  else if ((65 <=? n) && (n <=? 70))%Z then Some (n - 55)%Z       (* A-F *)
  else None.

(** The digits [parseInt] reads: the longest prefix of hexadecimal digits. *)
Fixpoint hex_prefix (acc : option Z) (s : string) : option Z :=
  match s with
  | EmptyString => acc
  | String c s' =>
      match hex_digit c with
      | None => acc
      | Some v =>
          hex_prefix (Some (match acc with
                            | Some a => 16 * a + v
                            | None => v
                            end)%Z) s'
      end
  end.

(** [parseInt(s, 16)] on a string that starts with neither white space, a
    sign nor [0x]; [None] is [NaN] (no digit could be read). *)
Definition parseInt16 (s : string) : option Z := hex_prefix None s.

Definition substr (s : string) (start len : nat) : string :=
  String.substring start len s.

Section Luminance.
(** [Math.pow]. *)
Variable Math_pow : N -> N -> N.

Definition linearize (c : N) : N :=
  if c <=? lit 0.03928 then c / lit 12.92
  else Math_pow ((c + lit 0.055) / lit 1.055) (lit 2.4).

(** [None] when a channel does not parse, in which case the result in the
    code is [NaN]. *)
Definition calculateRelativeLuminance (hex : string) : option N :=
  match parseInt16 (substr hex 1 2), parseInt16 (substr hex 3 2),
        parseInt16 (substr hex 5 2) with
  | Some r, Some g, Some b =>
      let r := lit (inject_Z r) / lit 255 in
      let g := lit (inject_Z g) / lit 255 in
      let b := lit (inject_Z b) / lit 255 in
      let rLinear := linearize r in
      let gLinear := linearize g in
      let bLinear := linearize b in
      Some (lit 0.2126 * rLinear + lit 0.7152 * gLinear + lit 0.0722 * bLinear)
  | _, _, _ => None
  end.

Definition calculateContrastRatio (color1 color2 : string) : option N :=
  match calculateRelativeLuminance color1,
        calculateRelativeLuminance color2 with
  | Some l1, Some l2 =>
      let lighter := Math_max l1 l2 in
      let darker := Math_min l1 l2 in
      Some ((lighter + lit 0.05) / (darker + lit 0.05))
  | _, _ => None
  end.

End Luminance.
End Presentation.

(** A [#rrggbb] colour: a hash sign and six hexadecimal digits. *)
Definition is_hex_digit (c : ascii) : bool :=
  match hex_digit c with Some _ => true | None => false end.

Definition is_hex_color (s : string) : bool :=
  match s with
  | String h (String r1 (String r2 (String g1 (String g2
      (String b1 (String b2 EmptyString)))))) =>
      Ascii.eqb h "#"%char
      && is_hex_digit r1 && is_hex_digit r2
      && is_hex_digit g1 && is_hex_digit g2
      && is_hex_digit b1 && is_hex_digit b2
  | _ => false
  end.

(* ================================================================= *)
(** * The specification's side

    What the statements below compare the code with, in exact arithmetic. *)

Local Open Scope Q_scope.

(** ** Font mapper *)

Definition clamp (v lo hi : Q) : Q := Qmax lo (Qmin hi v).

(** The candidate font size of the specification for a distance [d]. *)
Definition candidateFontSize (m : ReadingModeManager Q) (d : Q) : Q :=
  clamp (baseFontSize m * clamp (1 + (d * 1.5 * 0.8) / 100) 0.6 2.5) 12 32.

(** The three filters: outside the dead zone, far enough from the last
    stable distance, and a visible change of font size. *)
Definition commits (m : ReadingModeManager Q) (d : Q) : Prop :=
  ~ Qabs (d - deadZoneCenter m) <= deadZoneRadius m
  /\ fontChangeThreshold m <= Qabs (d - lastStableDistance m)
  /\ 0.2 <= Qabs (candidateFontSize m d - currentFontSize m).

(** ** Alignment classifier *)

(** The decision order of the specification, first match wins. *)
Definition first_match (cf : CalibrationFrame Q) (fm : FaceMetrics Q)
    : AlignmentStatus :=
  let ratio := faceWidthToImageRatio fm in
  let target := targetFaceRatio cf in
  let tolerance := positionTolerance cf in
  if Qlt_le_dec ratio (target * 0.5) then too_far
  else if Qlt_le_dec (target * 1.5) ratio then too_close
  else if Qlt_le_dec (faceCenterX fm) (- tolerance) then too_left
  else if Qlt_le_dec tolerance (faceCenterX fm) then too_right
  else if Qlt_le_dec (faceCenterY fm) (- tolerance) then too_high
  else if Qlt_le_dec tolerance (faceCenterY fm) then too_low
  else good.

(** The raw status of a frame: what the classifier returns for it. *)
Definition raw_status {N} `{Number N} (cf : CalibrationFrame N)
    (frame : option (FaceMetrics N)) : AlignmentStatus :=
  match frame with
  | None => no_face
  | Some fm => alignment cf fm
  end.

(** The classifier called on a sequence of frames, one after the other. *)
Fixpoint classify_frames {N} `{Number N}
    (frames : list (option (FaceMetrics N))) (d : Detector N) : Detector N :=
  match frames with
  | [] => d
  | frame :: frames' =>
      classify_frames frames' (snd (checkCalibrationFrameAlignment frame d))
  end.

(** The statuses of the frames in which a face was present, the most recent
    first. *)
Fixpoint present_statuses {N} `{Number N} (cf : CalibrationFrame N)
    (frames : list (option (FaceMetrics N))) (acc : list AlignmentStatus)
    : list AlignmentStatus :=
  match frames with
  | [] => acc
  | None :: frames' => present_statuses cf frames' acc
  | Some fm :: frames' => present_statuses cf frames' (alignment cf fm :: acc)
  end.

(** The callback [onCalibrationFrameStatus] was made between [d] and [d']. *)
Definition notified {N} (d d' : Detector N) : Prop :=
  exists e, trace d' = onCalibrationFrameStatus e :: trace d.

(** The statuses passed to [onCalibrationFrameStatus], the oldest first. *)
Definition notified_statuses {N} (d : Detector N) : list AlignmentStatus :=
  flat_map (fun e => match e with
                     | onCalibrationFrameStatus s => [cfs_status s]
                     | _ => []
                     end) (rev (trace d)).

(** The last [n] elements of a list. *)
Definition lastn {A} (n : nat) (l : list A) : list A :=
  skipn (List.length l - n) l.

(** What the debounce state records: [statusStabilityCounter + 1] is the
    length of the run of [lastCalibrationStatus] at the head of the statuses
    seen so far. *)
Definition debounce_inv {N} (d : Detector N) (seen : list AlignmentStatus)
    : Prop :=
  match lastCalibrationStatus d with
  | None => seen = []
  | Some s =>
      exists rest,
        seen = repeat s (S (statusStabilityCounter d)) ++ rest
        /\ hd_error rest <> Some s
  end.

(** The debounce of the specification, over all frames: a notification is
    made only when the last [statusStabilityThreshold] frames have the status
    of the current one, and a frame whose status differs from that of the
    frame before it leaves the counter at zero. *)
Definition debounce_as_specified {N} `{Number N} (d0 : Detector N)
    (frames : list (option (FaceMetrics N))) : Prop :=
  forall before frame after,
    frames = before ++ frame :: after ->
    let d := classify_frames before d0 in
    let d' := snd (checkCalibrationFrameAlignment frame d) in
    let status := raw_status (calibrationFrame d0) frame in
    (notified d d' ->
     lastn (statusStabilityThreshold d0)
       (map (raw_status (calibrationFrame d0)) (before ++ [frame]))
     = repeat status (statusStabilityThreshold d0))
    /\ (forall earlier previous,
          before = earlier ++ [previous] ->
          raw_status (calibrationFrame d0) previous <> status ->
          statusStabilityCounter d' = 0%nat).

(** ** Temporal smoother *)

Definition Qsum (l : list Q) : Q := fold_right Qplus 0 l.

(** The arithmetic mean of a field over a buffer. *)
Definition mean (f : FaceMetrics Q -> Q) (h : list (FaceMetrics Q)) : Q :=
  Qsum (map f h) / inject_Z (Z.of_nat (List.length h)).

(** The two ends of [smooth]: the accumulator it starts from and the
    division that ends it. *)
Definition smooth_init {N} `{Number N} (newest : FaceMetrics N)
    : FaceMetrics N :=
  {| faceWidth := lit 0; faceHeight := lit 0;
     faceWidthToImageRatio := lit 0; faceHeightToImageRatio := lit 0;
     faceCenterX := lit 0; faceCenterY := lit 0;
     imageWidth := imageWidth newest; imageHeight := imageHeight newest;
     timestamp := timestamp newest |}.

Definition smooth_divide {N} `{Number N} (smoothed : FaceMetrics N)
    (count : N) : FaceMetrics N :=
  {| faceWidth := (faceWidth smoothed / count)%js;
     faceHeight := (faceHeight smoothed / count)%js;
     faceWidthToImageRatio := (faceWidthToImageRatio smoothed / count)%js;
     faceHeightToImageRatio := (faceHeightToImageRatio smoothed / count)%js;
     faceCenterX := (faceCenterX smoothed / count)%js;
     faceCenterY := (faceCenterY smoothed / count)%js;
     imageWidth := imageWidth smoothed; imageHeight := imageHeight smoothed;
     timestamp := timestamp smoothed |}.

(** ** Calibration *)

(** The corrective instruction for each misalignment. *)
Definition corrective_instruction (s : AlignmentStatus) : ErrorMessage :=
  match s with
  | too_far => msg_move_closer
  | too_close => msg_move_away
  | too_left => msg_move_right
  | too_right => msg_move_left
  | too_high => msg_move_down
  | too_low => msg_move_up
  | no_face | good => msg_adjust_position
  end.

Definition misalignment (s : AlignmentStatus) : Prop :=
  s <> good /\ s <> no_face.

(** A measurement as the extractor makes it from a frame of positive width:
    the face width is not negative, and is positive when its ratio to the
    image width is. *)
Definition sample_ok (m : FaceMetrics Q) : Prop :=
  0 <= faceWidth m /\ (0 < faceWidthToImageRatio m -> 0 < faceWidth m).

(** The states of a detector: from the constructor, by the calls that write
    its fields. *)
Section Reachable.
(** [JSON.parse], and the stored values [loadCalibration] may be given. *)
Variable JSON_parse : string -> option (Parsed Q).
Variable allowed : CalibrationInput Q -> Prop.

Definition parsed_input (data : CalibrationInput Q) : option (Parsed Q) :=
  match data with
  | input_string s => JSON_parse s
  | input_value v => Some v
  end.

Inductive step : Detector Q -> Detector Q -> Prop :=
  | step_start d :
      step d (startDetectionLoop d)
  | step_frame d results now :
      (forall r, results = Some r -> 0 < image_width r) ->
      step d (processFaceMeshResults results now d)
  | step_calibrate d fontSize now :
      step d (snd (calibrate fontSize now d))
  | step_load d data :
      allowed data ->
      step d (snd (loadCalibration JSON_parse data d))
  | step_reset d :
      step d (resetCalibration d)
  | step_cleanup d :
      step d (cleanup d).

Inductive reachable : Detector Q -> Prop :=
  | reachable_new smoothingWindow scale :
      reachable (new_MediaPipeDistanceDetector smoothingWindow scale)
  | reachable_step d d' :
      reachable d -> step d d' -> reachable d'.

End Reachable.

(** A stored value whose [referenceFaceWidth], if it is an object that has
    one, is positive. *)
Definition positive_width (JSON_parse : string -> option (Parsed Q))
    (data : CalibrationInput Q) : Prop :=
  forall o w,
    parsed_input JSON_parse data = Some (parsed_object o) ->
    st_referenceFaceWidth o = Some w -> 0 < w.

Definition any_input (data : CalibrationInput Q) : Prop := True.

Definition calibrated_positive (d : Detector Q) : Prop :=
  isCalibrated (calibration d) = true ->
  exists r, referenceFaceWidth (calibration d) = Some r /\ 0 < r.

Definition detector_inv (d : Detector Q) : Prop :=
  0 < targetFaceRatio (calibrationFrame d)
  /\ Forall sample_ok (faceHistory d)
  /\ calibrated_positive d.

(* ================================================================= *)
(** * Sample inputs *)

(** The detector as the page builds it: [smoothingWindow: 5], default scale. *)
Definition detector0 : Detector Q :=
  new_MediaPipeDistanceDetector (Some 5%nat) None.

(** A manager fresh from its constructor, with no stored font size. *)
Definition manager0 : ReadingModeManager Q := new_ReadingModeManager None.

(** Metrics of a face in a 640 x 480 frame, by its width ratio and centre. *)
Definition nominal (ratio cx cy : Q) : FaceMetrics Q :=
  {| faceWidth := ratio * 640; faceHeight := 240;
     faceWidthToImageRatio := ratio; faceHeightToImageRatio := 0.5;
     faceCenterX := cx; faceCenterY := cy;
     imageWidth := 640; imageHeight := 480; timestamp := 1000 |}.

Definition at_time {N} (t : N) (m : FaceMetrics N) : FaceMetrics N :=
  {| faceWidth := faceWidth m; faceHeight := faceHeight m;
     faceWidthToImageRatio := faceWidthToImageRatio m;
     faceHeightToImageRatio := faceHeightToImageRatio m;
     faceCenterX := faceCenterX m; faceCenterY := faceCenterY m;
     imageWidth := imageWidth m; imageHeight := imageHeight m;
     timestamp := t |}.

(** Two frames, 40 ms apart. *)
Definition two_frames : list (FaceMetrics Q) :=
  [at_time 1000 (nominal 0.5 0 0); at_time 1040 (nominal 0.5 0 0)].

(** A detector calibrated with the reference width [r]. *)
Definition calibrated_at (r : Q) : Detector Q :=
  set_calibration
    {| isCalibrated := true; referenceFaceWidth := Some r;
       referenceDistance := 0; referenceFontSize := Some 16;
       cal_timestamp := Some 1000 |} detector0.

(** A detector whose buffer holds one well aligned face. *)
Definition aligned_detector : Detector Q :=
  set_faceHistory [nominal 0.5 0 0] detector0.

(** A well aligned face, and five calls: two good frames, a call without
    metrics, two more good frames. *)
Definition good_frame : option (FaceMetrics Q) := Some (nominal 0.5 0 0).

Definition interrupted_frames : list (option (FaceMetrics Q)) :=
  [good_frame; good_frame; None; good_frame; good_frame].

(** A face in the middle of the frame, half as wide as the image: the ears
    at x = 0.25 and 0.75, forehead and chin at y = 0.25 and 0.75. *)
Definition landmark_at (i : nat) : Landmark Q :=
  if (i =? 234)%nat then {| x := 0.25; y := 0.5 |}
  else if (i =? 454)%nat then {| x := 0.75; y := 0.5 |}
  else if (i =? 10)%nat then {| x := 0.5; y := 0.25 |}
  else if (i =? 152)%nat then {| x := 0.5; y := 0.75 |}
  else {| x := 0.5; y := 0.5 |}.

Definition centred_face : Results Q :=
  {| multiFaceLandmarks := Some [map landmark_at (seq 0 468)];
     image_width := 640; image_height := 480 |}.

Definition no_landmarks : Results Q :=
  {| multiFaceLandmarks := Some []; image_width := 640; image_height := 480 |}.

Definition no_parse : string -> option (Parsed Q) := fun _ => None.

(** A session: start, one frame with the centred face, calibrate. *)
Definition session_started : Detector Q := startDetectionLoop detector0.

Definition session_frame : Detector Q :=
  processFaceMeshResults (Some centred_face) 1000 session_started.

Definition session_calibrated : Detector Q :=
  snd (calibrate (Some 18) 2000 session_frame).

(** Frames delivered at given times. *)
Fixpoint frames_at (frames : list (Results Q * Q)) (d : Detector Q)
    : Detector Q :=
  match frames with
  | [] => d
  | (results, now) :: frames' =>
      frames_at frames' (processFaceMeshResults (Some results) now d)
  end.

(** Three good frames, the face lost for more than the grace period of
    500 ms, one good frame. *)
Definition face_lost_and_found : list (Results Q * Q) :=
  [(centred_face, 1000); (centred_face, 1040); (centred_face, 1080);
   (no_landmarks, 1120); (no_landmarks, 1700); (centred_face, 1740)].

(** A stored record with a reference width of 0. *)
Definition zero_width_record : StoredCalibration Q :=
  {| st_referenceFaceWidth := Some 0; st_referenceDistance := Some 0;
     st_referenceFontSize := Some 16; st_timestamp := Some 1700000000000 |}.

(** The two base colours of the reading view. *)
Definition baseBackgroundColor : string := "#FBF0D9".
Definition baseTextColor : string := "#5F4B32".

(** The same in binary64. *)
Definition detector64 : Detector float :=
  new_MediaPipeDistanceDetector (Some 5%nat) None.

Definition nominal64 (ratio cx cy : float) : FaceMetrics float :=
  {| faceWidth := (ratio * lit 640)%js; faceHeight := lit 240;
     faceWidthToImageRatio := ratio; faceHeightToImageRatio := lit 0.5;
     faceCenterX := cx; faceCenterY := cy;
     imageWidth := lit 640; imageHeight := lit 480; timestamp := lit 1000 |}.

Definition calibrated64 (r : float) : Detector float :=
  set_calibration
    {| isCalibrated := true; referenceFaceWidth := Some r;
       referenceDistance := lit 0; referenceFontSize := Some (lit 16);
       cal_timestamp := Some (lit 1000) |} detector64.

(** One measurement whose centre is 0.11 to the right. *)
Definition sample64 : FaceMetrics float :=
  nominal64 (lit 0.5) (lit 0.11) (lit 0).

(* ================================================================= *)
(** * The calibration dialog and further sample inputs *)

(** [completeCalibration] of the calibration dialog: the detector's
    [calibrate] is called with the dialog's font size and, when it returns,
    [calibrationData] is built from three fields of the result.
    [saveCalibration] then stores it as JSON, and [startDynamicFont] hands the
    parsed record to [loadCalibration]; a number read back from JSON is the
    number that was written.  [None]: [calibrate] threw and no data is
    kept. *)
Definition completeCalibration {N} `{Number N} (baseFontSizeValue : N)
    (now : N) (d : Detector N) : option (StoredCalibration N) * Detector N :=
  match calibrate (Some baseFontSizeValue) now d with
  | (returned calibrationResult, d) =>
      (Some {| st_referenceFaceWidth := referenceFaceWidth calibrationResult;
               st_referenceDistance := None;
               st_referenceFontSize := referenceFontSize calibrationResult;
               st_timestamp := cal_timestamp calibrationResult |}, d)
  | (threw _, d) => (None, d)
  end.

(** [startCamera] of the calibration dialog, once the camera runs:
    [this.distanceDetector.statusStabilityThreshold = 1]. *)
Definition set_statusStabilityThreshold {N} (threshold : nat)
    (d : Detector N) : Detector N :=
  mkDetector (distanceScale d) (calibrationFrame d) (isRunning d)
    (faceHistory d) (maxHistorySize d) (calibration d)
    (lastCalibrationStatus d) (statusStabilityCounter d)
    threshold (localStorage d) (trace d).

(** The detector of the calibration dialog: it notifies at the second
    frame of a run. *)
Definition dialog_detector : Detector Q :=
  set_statusStabilityThreshold 1 detector0.

(** A landmark in normalised image coordinates. *)
Definition normalised (l : Landmark Q) : Prop :=
  0 <= x l <= 1 /\ 0 <= y l <= 1.

(** A frame in which no face was found. *)
Definition faceless {N} (results : option (Results N)) : Prop :=
  match results with
  | None => True
  | Some r =>
      multiFaceLandmarks r = None \/ multiFaceLandmarks r = Some []
  end.

(** The time of the newest measurement in the buffer, [0] when it is
    empty. *)
Definition lastDetectedFace {N} `{Number N} (d : Detector N) : N :=
  match faceHistory d with
  | [] => lit 0
  | m0 :: _ => timestamp (List.last (faceHistory d) m0)
  end.

(** What holds of the buffer in every state. *)
Definition buffer_inv (d : Detector Q) : Prop :=
  0 < targetFaceRatio (calibrationFrame d)
  /\ Forall sample_ok (faceHistory d)
  /\ (1 <= maxHistorySize d)%nat
  /\ (List.length (faceHistory d) <= maxHistorySize d)%nat.

(** A frame with too few landmarks: 100 instead of 468. *)
Definition truncated_face : Results Q :=
  {| multiFaceLandmarks := Some [map landmark_at (seq 0 100)];
     image_width := 640; image_height := 480 |}.

(** The measurement of the centred face at time 1740. *)
Definition centred_metrics : FaceMetrics Q :=
  {| faceWidth := Qabs ((0.75 - 0.25) * 640);
     faceHeight := Qabs ((0.75 - 0.25) * 480);
     faceWidthToImageRatio := Qabs ((0.75 - 0.25) * 640) / 640;
     faceHeightToImageRatio := Qabs ((0.75 - 0.25) * 480) / 480;
     faceCenterX := ((0.75 + 0.25) / 2 - 0.5) * 2;
     faceCenterY := ((0.75 + 0.25) / 2 - 0.5) * 2;
     imageWidth := 640; imageHeight := 480; timestamp := 1740 |}.
(** The record the dialog keeps after calibrating on the session's frame
    with an 18 px font at time 2000. *)
Definition session_record : StoredCalibration Q :=
  {| st_referenceFaceWidth := Some (Qabs ((0.75 - 0.25) * 640) / 1);
     st_referenceDistance := None;
     st_referenceFontSize := Some 18;
     st_timestamp := Some 2000 |}.

(** Metrics that differ from [fm] in the face width only. *)
Definition with_faceWidth {N} (w : N) (m : FaceMetrics N) : FaceMetrics N :=
  {| faceWidth := w; faceHeight := faceHeight m;
     faceWidthToImageRatio := faceWidthToImageRatio m;
     faceHeightToImageRatio := faceHeightToImageRatio m;
     faceCenterX := faceCenterX m; faceCenterY := faceCenterY m;
     imageWidth := imageWidth m; imageHeight := imageHeight m;
     timestamp := timestamp m |}.
(* ================================================================= *)
(** * The presentation side: distance samples over time *)

(** [onDistanceUpdate] calls [handleStableFontAdjustment] once per distance
    sample; [samples] pairs each distance with the time of its call, the
    oldest first. *)
Definition adjust_all {N} `{Number N} (samples : list (N * N))
    (m : ReadingModeManager N) : ReadingModeManager N :=
  fold_left (fun m sample =>
               handleStableFontAdjustment (fst sample) (snd sample) m)
    samples m.

(** The size a write puts on the page. *)
Definition written_size {N} (e : UIEvent N) : N :=
  match e with updateFontSize px => px end.
(* ================================================================= *)
(** * Contrast colours *)

(** One digit of [Number.prototype.toString(radix)], lower case. *)
Definition hex_char (v : Z) : ascii :=
  if (v <? 10)%Z then ascii_of_nat (48 + Z.to_nat v)
  else ascii_of_nat (87 + Z.to_nat v).

(** The digits of a positive integer in a radix, the most significant
    first; [fuel] bounds the number of digits. *)
Fixpoint digits (radix : Z) (fuel : nat) (z : Z) (acc : string) : string :=
  match fuel with
  | O => acc
  | S fuel' =>
      let acc' := String (hex_char (z mod radix)) acc in
      if (z / radix =? 0)%Z then acc'
      else digits radix fuel' (z / radix) acc'
  end.

(** [n.toString(radix)] for an integer [n]. *)
Definition toString (radix : Z) (z : Z) : string :=
  if (z <? 0)%Z
  then String "-"%char (digits radix (S (Z.to_nat (- z))) (- z) EmptyString)
  else digits radix (S (Z.to_nat z)) z EmptyString.

(** [s.padStart(2, "0")]. *)
Definition padStart2 (s : string) : string :=
  match String.length s with
  | O => "00"
  | S O => String "0"%char s
  | _ => s
  end.

(** [v.toString(16).padStart(2, "0")]; [None] is [NaN], which prints as
    ["NaN"]. *)
Definition channel_text (v : option Z) : string :=
  match v with
  | Some z => padStart2 (toString 16 z)
  | None => "NaN"
  end.

(** The template [`#${newR...}${newG...}${newB...}`]. *)
Definition rgb_text (newR newG newB : option Z) : string :=
  String "#"%char
    (channel_text newR ++ channel_text newG ++ channel_text newB)%string.

(** The three channels [parseInt] reads from a colour. *)
Definition channels (hex : string) : option Z * option Z * option Z :=
  (parseInt16 (substr hex 1 2), parseInt16 (substr hex 3 2),
   parseInt16 (substr hex 5 2)).

(** What [getContrastColorsForRatio] says about the ratio it reached. *)
Inductive ContrastDescription : Type :=
  | low_contrast       (* "低对比度 (未达标)" *)
  | medium_contrast    (* "中等对比度 (AA标准)" *)
  | high_contrast.     (* "高对比度 (AAA标准)" *)

Record ContrastColors (N : Type) : Type := mkContrastColors {
  cc_background : string;
  cc_text : string;
  cc_ratio : option N;
  cc_description : ContrastDescription
}.

Section Colours.
Context {N : Type} `{Number N}.
Local Open Scope js_scope.

(** [Math.pow], and [Math.round] of a number between 0 and 255: an integer,
    or [None] when the number is [NaN]. *)
Variable Math_pow : N -> N -> N.
Variable Math_round : N -> option Z.

(** [Math.round(Math.max(0, Math.min(255, r * factor)))], where [r] is
    [NaN] when the channel did not parse. *)
Definition scaled_channel (r : option Z) (factor : N) : option Z :=
  match r with
  | Some r =>
      Math_round (Math_max (lit 0) (Math_min (lit 255)
                                      (lit (inject_Z r) * factor)))
  | None => None
  end.

Definition adjustBrightness (hex : string) (factor : N) : string :=
  let r := parseInt16 (substr hex 1 2) in
  let g := parseInt16 (substr hex 3 2) in
  let b := parseInt16 (substr hex 5 2) in
  let newR := scaled_channel r factor in
  let newG := scaled_channel g factor in
  let newB := scaled_channel b factor in
  rgb_text newR newG newB.

(** When the luminance of [baseColor] is [NaN] both comparisons are false,
    the factor is [NaN] and so is every channel. *)
Definition luminanceToColor (targetLuminance : N) (baseColor : string)
    : string :=
  let targetLuminance := Math_max (lit 0) (Math_min (lit 1) targetLuminance) in
  let r := parseInt16 (substr baseColor 1 2) in
  let g := parseInt16 (substr baseColor 3 2) in
  let b := parseInt16 (substr baseColor 5 2) in
  match calculateRelativeLuminance Math_pow baseColor with
  | None => rgb_text None None None
  | Some currentLuminance =>
      if Math_abs (targetLuminance - currentLuminance) <? lit 0.001
      then baseColor
      else
        let factor :=
          if targetLuminance >? currentLuminance
          then Math_pow (targetLuminance / currentLuminance) (lit 0.4)
          else Math_pow (targetLuminance / currentLuminance) (lit 0.6) in
        let newR := scaled_channel r factor in
        let newG := scaled_channel g factor in
        let newB := scaled_channel b factor in
        rgb_text newR newG newB
  end.

(** A comparison with [NaN] is false. *)
Definition gt_number (a b : option N) : bool :=
  match a, b with
  | Some a, Some b => a >? b
  | _, _ => false
  end.

(** When the luminance that enters the new luminance is [NaN], so is the
    new luminance, and [luminanceToColor] then gives [NaN] channels. *)
Definition adjustColorForContrast (baseColor targetColor : string)
    (targetRatio : N) (adjustBackground : bool) : string :=
  let baseLuminance := calculateRelativeLuminance Math_pow baseColor in
  let targetLuminance := calculateRelativeLuminance Math_pow targetColor in
  let newLuminance :=
    if adjustBackground then
      match baseLuminance with
      | Some l =>
          if gt_number baseLuminance targetLuminance
          then Some ((l + lit 0.05) * targetRatio - lit 0.05)
          else Some ((l + lit 0.05) / targetRatio - lit 0.05)
      | None => None
      end
    else
      match targetLuminance with
      | Some l =>
          if gt_number targetLuminance baseLuminance
          then Some ((l + lit 0.05) / targetRatio - lit 0.05)
          else Some ((l + lit 0.05) * targetRatio - lit 0.05)
      | None => None
      end in
  match newLuminance with
  | Some newLuminance =>
      let newLuminance :=
        Math_max (lit 0) (Math_min (lit 1) newLuminance) in
      luminanceToColor newLuminance targetColor
  | None => rgb_text None None None
  end.

(** [baseBackground] and [baseText] are [this.baseBackgroundColor] and
    [this.baseTextColor].  A ratio that is [NaN] is below neither bound. *)
Definition getContrastColorsForRatio (baseBackground baseText : string)
    (targetRatio : N) : ContrastColors N :=
  let adjustedText :=
    adjustColorForContrast baseText baseBackground targetRatio false in
  let baseRatio := lit 6.0 in
  let adjustedBackground :=
    if targetRatio <? baseRatio then
      let factor := lit 1 + (baseRatio - targetRatio) * lit 0.03 in
      adjustBrightness baseBackground factor
    else if targetRatio >? baseRatio then
      let factor := lit 1 - (targetRatio - baseRatio) * lit 0.02 in
      adjustBrightness baseBackground factor
    else baseBackground in
  let finalRatio :=
    calculateContrastRatio Math_pow adjustedText adjustedBackground in
  let description :=
    match finalRatio with
    | Some ratio =>
        if ratio <? lit 4.5 then low_contrast
        else if ratio <? lit 7.0 then medium_contrast
        else high_contrast
    | None => high_contrast
    end in
  {| cc_background := adjustedBackground;
     cc_text := adjustedText;
     cc_ratio := finalRatio;
     cc_description := description |}.

End Colours.

(** [Math.round] in exact arithmetic: the nearest integer, a half rounded
    up. *)
Definition round_half_up (q : Q) : option Z := Some (Qfloor (q + (1 # 2))).

(** A stand-in for [Math.pow] in sample computations. *)
Definition square_pow (base exponent : Q) : Q := base * base.

(** A channel scaled by a factor, in exact arithmetic. *)
Definition scaled (r : Z) (factor : Q) : Z :=
  Qfloor (Qmax 0 (Qmin 255 (inject_Z r * factor)) + (1 # 2)).

(** No channel of the first colour is above that channel of the second. *)
Definition channels_le (c1 c2 : option Z * option Z * option Z) : Prop :=
  match c1, c2 with
  | (Some r1, Some g1, Some b1), (Some r2, Some g2, Some b2) =>
      (r1 <= r2)%Z /\ (g1 <= g2)%Z /\ (b1 <= b2)%Z
  | _, _ => False
  end.

(** The luminances of the two base colours under [square_pow]. *)
Definition background_luminance : Q :=
  Eval vm_compute in
    match calculateRelativeLuminance square_pow baseBackgroundColor with
    | Some l => l
    | None => 0
    end.

Definition text_luminance : Q :=
  Eval vm_compute in
    match calculateRelativeLuminance square_pow baseTextColor with
    | Some l => l
    | None => 0
    end.
(* ================================================================= *)
(** * The reading view: distance updates and stored calibrations *)


Section ReadingView.
Context {N : Type} `{Number N}.
Variable Math_pow : N -> N -> N.
Variable Math_round : N -> option Z.





(** [CalibrationManager.getCalibration()]: [data ? JSON.parse(data) : null],
    and [null] when parsing throws.  [data] is the stored string, [None]
    when there is none. *)
Variable JSON_parse : string -> option (Parsed N).

Definition CalibrationManager_getCalibration (data : option string)
    : Parsed N :=
  match data with
  | None => parsed_falsy
  | Some s =>
      if String.eqb s "" then parsed_falsy
      else match JSON_parse s with
           | Some calibrationData => calibrationData
           | None => parsed_falsy
           end
  end.

(** [CalibrationManager.isCalibrated()], read as a boolean:
    [calibrationData && calibrationData.referenceFaceWidth]. *)
Definition CalibrationManager_isCalibrated (data : option string) : bool :=
  match CalibrationManager_getCalibration data with
  | parsed_object o => is_truthy (st_referenceFaceWidth o)
  | _ => false
  end.

End ReadingView.

(** What every distance update carries: the distance and the offset are the
    same value; with a face there is an offset and the status is not
    no-face, without a face there is none and the status is no-face. *)
Definition update_ok {N} (e : Event N) : Prop :=
  match e with
  | onDistanceUpdate data status faceDetected =>
      distance data = offset data
      /\ (if faceDetected
          then (exists o, offset data = Some o) /\ status <> no_face
          else offset data = None /\ status = no_face)
  | _ => True
  end.



(** A parser that knows one stored string. *)
Definition parse_session (s : string) : option (Parsed Q) :=
  if String.eqb s "session" then Some (parsed_object session_record)
  else None.
(* ================================================================= *)
(** * Reading time *)

(** [formatTime(milliseconds)], in exact arithmetic.  [%] is the remainder
    that has the sign of the dividend. *)
Definition formatTime (milliseconds : Q) : string :=
  let totalSeconds := Qfloor (milliseconds / 1000) in
  let minutes := Qfloor (inject_Z totalSeconds / 60) in
  let seconds := Z.rem totalSeconds 60 in
  (padStart2 (toString 10 minutes)
   ++ ":" ++ padStart2 (toString 10 seconds))%string.

(** The three texts of [calculateReadingTime]. *)
Inductive ReadingTime : Type :=
  | less_than_a_minute              (* "< 1分钟" *)
  | one_minute                      (* "1分钟" *)
  | minutes_text (minutes : Z).     (* `${minutes}分钟` *)

Definition calculateReadingTime (wordCount : Q) : ReadingTime :=
  let readingSpeed := 225 in
  let minutes := Qceiling (wordCount / readingSpeed) in
  if (minutes <? 1)%Z then less_than_a_minute
  else if (minutes =? 1)%Z then one_minute
  else minutes_text minutes.

(** Reading a clock text [mm:ss] back: two decimal digits, a colon, two
    decimal digits. *)
Definition decimal_digit (c : ascii) : option Z :=
  let n := Z.of_nat (nat_of_ascii c) in
  if ((48 <=? n) && (n <=? 57))%Z then Some (n - 48)%Z else None.

Definition two_digits (c1 c2 : ascii) : option Z :=
  match decimal_digit c1, decimal_digit c2 with
  | Some d1, Some d2 => Some (10 * d1 + d2)%Z
  | _, _ => None
  end.

Definition read_clock (s : string) : option (Z * Z) :=
  match s with
  | String m1 (String m2 (String colon (String s1 (String s2 EmptyString))))
    =>
      if Ascii.eqb colon ":"%char then
        match two_digits m1 m2, two_digits s1 s2 with
        | Some m, Some s => Some (m, s)
        | _, _ => None
        end
      else None
  | _ => None
  end.

(* ================================================================= *)
(** * Exact arithmetic: reading the operations back *)

Lemma Qle_bool_spec (a b : Q) : BoolSpec (a <= b) (b < a) (Qle_bool a b).
Proof.
  destruct (Qle_bool a b) eqn:E; constructor.
  - now apply Qle_bool_iff.
  - apply Qnot_le_lt. intro L. apply Qle_bool_iff in L. congruence.
Qed.

Lemma Qltb_spec (a b : Q) : BoolSpec (a < b) (b <= a) (negb (Qle_bool b a)).
Proof. destruct (Qle_bool_spec b a); constructor; assumption. Qed.

Lemma Qmax_cases (a b : Q) :
  (a < b /\ Qmax a b == b) \/ (b <= a /\ Qmax a b == a).
Proof. apply Q.max_spec. Qed.

Lemma Qmin_cases (a b : Q) :
  (a < b /\ Qmin a b == a) \/ (b <= a /\ Qmin a b == b).
Proof. apply Q.min_spec. Qed.

Lemma Qabs_cases (a : Q) :
  (0 <= a /\ Qabs a == a) \/ (a < 0 /\ Qabs a == - a).
Proof.
  destruct (Qlt_le_dec a 0) as [L | L].
  - right. split; [assumption |]. apply Qabs_neg. lra.
  - left. split; [assumption |]. now apply Qabs_pos.
Qed.

(** Unfold the [Exact] operations. *)
Ltac exact_ops :=
  cbn [lit num_add num_sub num_mul num_div num_opp Math_abs Math_max Math_min
       num_ltb num_leb truthy Exact] in *.

(** Division by a constant as multiplication by its inverse, for [lra]. *)
Ltac const_inv :=
  unfold Qdiv in *;
  repeat match goal with
  | |- context [Qinv (Qmake ?n ?d)] =>
      let v := eval vm_compute in (Qinv (Qmake n d)) in
      change (Qinv (Qmake n d)) with v
  | H : context [Qinv (Qmake ?n ?d)] |- _ =>
      let v := eval vm_compute in (Qinv (Qmake n d)) in
      change (Qinv (Qmake n d)) with v in H
  end.

(** Case analysis on every [Qmax], [Qmin] and [Qabs] in sight. *)
Ltac split_max a b :=
  let L := fresh "L" in let E := fresh "E" in
  destruct (Qmax_cases a b) as [[L E] | [L E]];
  generalize dependent (Qmax a b); intros.

Ltac split_min a b :=
  let L := fresh "L" in let E := fresh "E" in
  destruct (Qmin_cases a b) as [[L E] | [L E]];
  generalize dependent (Qmin a b); intros.

Ltac split_abs a :=
  let L := fresh "L" in let E := fresh "E" in
  destruct (Qabs_cases a) as [[L E] | [L E]];
  generalize dependent (Qabs a); intros.

Ltac minmax_cases :=
  repeat match goal with
  | |- context [Qmax ?a ?b] => split_max a b
  | |- context [Qmin ?a ?b] => split_min a b
  | |- context [Qabs ?a] => split_abs a
  | _ : context [Qmax ?a ?b] |- _ => split_max a b
  | _ : context [Qmin ?a ?b] |- _ => split_min a b
  | _ : context [Qabs ?a] |- _ => split_abs a
  end.

(* ================================================================= *)
(** * Contrast mapper *)

(** C9: the target contrast ratio lies in [3.5, 9.0]; it is the base 6.0 at
    distance 0, interpolates linearly towards 3.5 (negative distances) or 9.0
    (positive distances) while [(d * 2) / 100] is within the window of
    +-0.5, and stays at the band edge beyond the window. *)
Theorem calculateContrastAdjustment_band (d : Q) :
  let n := d * 2 / 100 in
  let t := calculateContrastAdjustment d in
  3.5 <= t <= 9.0
  /\ (d == 0 -> t == 6.0)
  /\ (-0.5 <= n <= 0 -> t == 6.0 + (3.5 - 6.0) * (- n / 0.5))
  /\ (0 <= n <= 0.5 -> t == 6.0 + (9.0 - 6.0) * (n / 0.5))
  /\ (n <= -0.5 -> t == 3.5)
  /\ (0.5 <= n -> t == 9.0).
Proof.
  intros n t. subst n t. unfold calculateContrastAdjustment. exact_ops.
  const_inv.
  destruct (Qle_bool_spec (d * 2.0 * (1 # 100)) 0) as [Neg | Pos];
    minmax_cases; repeat split; intros; lra.
Qed.

Lemma calculateContrastAdjustment_band_witness :
  calculateContrastAdjustment 0 == 6.0
  /\ calculateContrastAdjustment (-10) == 5.0
  /\ calculateContrastAdjustment 40 == 9.0.
Proof.
  split; [| split].
  - apply (calculateContrastAdjustment_band 0). reflexivity.
  - assert (E : calculateContrastAdjustment (-10)
                == 6.0 + (3.5 - 6.0) * (- (-10 * 2 / 100) / 0.5)).
    { apply (calculateContrastAdjustment_band (-10)).
      split; vm_compute; intro; discriminate. }
    rewrite E. reflexivity.
  - apply (calculateContrastAdjustment_band 40). vm_compute. intro.
    discriminate.
Defined.

(* ================================================================= *)
(** * Font mapper *)

Lemma clamp_bounds (v lo hi : Q) : lo <= hi -> lo <= clamp v lo hi <= hi.
Proof. unfold clamp. intros. minmax_cases; lra. Qed.

(** C2: inside the dead zone nothing changes; outside it, when the distance
    moved by at least [fontChangeThreshold] since the last stable distance and
    the candidate font size differs from the current one by at least 0.2,
    exactly one update is committed, which sets [currentFontSize] to the
    candidate (a value in [12, 32]) and [lastStableDistance] to the distance;
    in every other case [currentFontSize] and [lastStableDistance] are left
    as they were and nothing is written. *)
Theorem handleStableFontAdjustment_filters
    (m : ReadingModeManager Q) (d now : Q) :
  let m' := handleStableFontAdjustment d now m in
  (Qabs (d - deadZoneCenter m) <= deadZoneRadius m ->
     currentFontSize m' = currentFontSize m
     /\ lastStableDistance m' = lastStableDistance m
     /\ ui m' = ui m)
  /\ (commits m d ->
        currentFontSize m' = candidateFontSize m d
        /\ 12 <= currentFontSize m' <= 32
        /\ lastStableDistance m' = d
        /\ ui m' = updateFontSize (candidateFontSize m d) :: ui m)
  /\ (~ commits m d ->
        currentFontSize m' = currentFontSize m
        /\ lastStableDistance m' = lastStableDistance m
        /\ ui m' = ui m).
Proof.
  intro m'. subst m'.
  unfold commits, handleStableFontAdjustment, calculateFontSizeMultiplier.
  exact_ops.
  fold (clamp (1 + d * 1.5 * 0.8 / 100) 0.6 2.5).
  fold (clamp (baseFontSize m * clamp (1 + d * 1.5 * 0.8 / 100) 0.6 2.5)
          12 32).
  fold (candidateFontSize m d).
  destruct (Qle_bool_spec (Qabs (d - deadZoneCenter m)) (deadZoneRadius m))
    as [In | Out].
  { repeat split; intros; try reflexivity;
      match goal with Hc : _ /\ _ |- _ => destruct Hc as (Hout & _) end;
      contradiction. }
  destruct (Qle_bool_spec (fontChangeThreshold m)
              (Qabs (d - lastStableDistance m))) as [Far | Near];
    [destruct (Qle_bool_spec 0.2
                 (Qabs (candidateFontSize m d - currentFontSize m)))
       as [Big | Small] |]; cbn [currentFontSize lastStableDistance ui].
  - repeat split; intros; try reflexivity; try lra;
      try (apply clamp_bounds; lra).
  - repeat split; intros; try reflexivity; try lra;
      match goal with Hc : _ /\ _ |- _ => destruct Hc as (_ & _ & Hbig) end;
      lra.
  - repeat split; intros; try reflexivity; try lra;
      match goal with Hc : _ /\ _ |- _ => destruct Hc as (_ & Hfar & _) end;
      lra.
Qed.

Lemma handleStableFontAdjustment_filters_witness :
  commits manager0 10
  /\ currentFontSize (handleStableFontAdjustment 10 5000 manager0)
     = candidateFontSize manager0 10.
Proof.
  assert (C : commits manager0 10).
  { unfold commits. vm_compute. repeat split; intro F; try discriminate F.
    apply F. reflexivity. }
  split; [exact C |].
  apply (proj1 (proj2 (handleStableFontAdjustment_filters manager0 10 5000))).
  exact C.
Defined.

(* ================================================================= *)
(** * Alignment classifier: the decision *)

Lemma alignment_first_match (cf : CalibrationFrame Q) (fm : FaceMetrics Q) :
  alignment cf fm = first_match cf fm.
Proof.
  unfold alignment, first_match. exact_ops.
  repeat match goal with
  | |- context [Qlt_le_dec ?a ?b] => destruct (Qlt_le_dec a b)
  end;
  repeat match goal with
  | |- context [negb (Qle_bool ?a ?b)] => destruct (Qltb_spec b a)
  end; try reflexivity; exfalso; lra.
Qed.

Lemma checkCalibrationFrameAlignment_status
    {N} `{Number N} (fm : FaceMetrics N) (d : Detector N) :
  fst (checkCalibrationFrameAlignment (Some fm) d)
  = alignment (calibrationFrame d) fm.
Proof.
  unfold checkCalibrationFrameAlignment.
  destruct (negb _); [reflexivity |].
  destruct (_ <=? _)%nat; reflexivity.
Qed.

(** C3: the classifier returns one status, chosen by first match in the order
    no-face, too-far (ratio below half the target), too-close (ratio above
    one and a half times the target), too-left, too-right, too-high, too-low,
    good; for a positive target ratio and a tolerance that is not negative,
    a face at the target ratio and centred is good, a ratio of 0.4 times the
    target is too far, and a centre 0.01 beyond the tolerance to the right,
    the rest nominal, is too right. *)
Theorem checkCalibrationFrameAlignment_precedence
    (d : Detector Q) (fm : FaceMetrics Q) :
  let status := fst (checkCalibrationFrameAlignment (Some fm) d) in
  let target := targetFaceRatio (calibrationFrame d) in
  let tolerance := positionTolerance (calibrationFrame d) in
  fst (checkCalibrationFrameAlignment None d) = no_face
  /\ status = first_match (calibrationFrame d) fm
  /\ (0 < target -> 0 <= tolerance ->
      (faceWidthToImageRatio fm == target ->
       faceCenterX fm == 0 -> faceCenterY fm == 0 -> status = good)
      /\ (faceWidthToImageRatio fm == target * 0.4 -> status = too_far)
      /\ (faceWidthToImageRatio fm == target ->
          faceCenterX fm == tolerance + 0.01 -> faceCenterY fm == 0 ->
          status = too_right)).
Proof.
  intros status target tolerance. subst status target tolerance.
  rewrite checkCalibrationFrameAlignment_status, alignment_first_match.
  split; [reflexivity |]. split; [reflexivity |].
  intros Ht Htol. unfold first_match.
  repeat split; intros;
    repeat match goal with
    | |- context [Qlt_le_dec ?a ?b] => destruct (Qlt_le_dec a b)
    end; try reflexivity; exfalso; lra.
Qed.

Lemma checkCalibrationFrameAlignment_precedence_witness :
  fst (checkCalibrationFrameAlignment (Some (nominal 0.5 0.21 0)) detector0)
  = too_right.
Proof.
  apply (checkCalibrationFrameAlignment_precedence detector0
           (nominal 0.5 0.21 0)); vm_compute; try reflexivity;
    intro; discriminate.
Defined.

(* ================================================================= *)
(** * Relative distance *)

Lemma relative_distance_eq (w r s : Q) :
  ~ w == 0 -> ~ r == 0 -> (1 / (w / r) - 1) * s == (r - w) / w * s.
Proof. intros. field. split; assumption. Qed.

Lemma relative_distance_sign (w r s : Q) :
  0 < w -> 0 < r -> 0 < s ->
  (r < w -> (1 / (w / r) - 1) * s < 0)
  /\ (w < r -> 0 < (1 / (w / r) - 1) * s).
Proof.
  intros Hw Hr Hs.
  rewrite relative_distance_eq by lra.
  assert (Hinv : 0 < / w) by now apply Qinv_lt_0_compat.
  assert (Hk : 0 < / w * s) by nra.
  setoid_replace ((r - w) / w * s) with ((r - w) * (/ w * s))
    by (unfold Qdiv; ring).
  generalize dependent (/ w * s). intros k Hk.
  split; intro; nra.
Qed.

Lemma calculateRelativeDistance_neutral {N} `{Number N}
    (d : Detector N) (faceMetrics : option (FaceMetrics N)) :
  isCalibrated (calibration d) = false \/ faceMetrics = None ->
  distance (calculateRelativeDistance faceMetrics d) = Some (lit 0)
  /\ distanceRatio (calculateRelativeDistance faceMetrics d) = Some (lit 1)
  /\ dd_isCalibrated (calculateRelativeDistance faceMetrics d) = false.
Proof.
  unfold calculateRelativeDistance. intros [U | A].
  - rewrite U. repeat split.
  - rewrite A. destruct (isCalibrated _); repeat split.
Qed.

(** C1: an uncalibrated detector, or absent metrics, gives the neutral
    sample (distance 0, ratio 1, not calibrated); a calibrated detector with
    reference width [r] and smoothed face width [w] gives the ratio [w / r]
    and the distance [(1 / (w / r) - 1) * distanceScale], so that with the
    default scale of 100 a face as wide as the reference is at distance 0,
    one twice as wide at -50, a wider one at a negative distance and a
    narrower one at a positive distance (widths being positive). *)
Theorem calculateRelativeDistance_spec
    (d : Detector Q) (faceMetrics : option (FaceMetrics Q)) :
  let result := calculateRelativeDistance faceMetrics d in
  (isCalibrated (calibration d) = false \/ faceMetrics = None ->
     distance result = Some 0
     /\ distanceRatio result = Some 1
     /\ dd_isCalibrated result = false)
  /\ (forall fm r,
        isCalibrated (calibration d) = true ->
        faceMetrics = Some fm ->
        referenceFaceWidth (calibration d) = Some r ->
        let w := faceWidth fm in
        let dist := (1 / (w / r) - 1) * distanceScale d in
        distanceRatio result = Some (w / r)
        /\ distance result = Some dist
        /\ dd_isCalibrated result = true
        /\ (distanceScale d == 100 ->
            (~ r == 0 -> w == r -> dist == 0)
            /\ (~ r == 0 -> w == 2 * r -> dist == -50)
            /\ (0 < r -> r < w -> dist < 0)
            /\ (0 < r -> 0 < w -> w < r -> 0 < dist))).
Proof.
  intro result. subst result. split.
  - intro Hyp. exact (@calculateRelativeDistance_neutral Q Exact d
                        faceMetrics Hyp).
  - unfold calculateRelativeDistance. intros fm r C M R.
    rewrite C, M, R. exact_ops. cbn [to_number].
    do 3 (split; [reflexivity |]).
    intros S.
    split; [intros Hr Hw | split; [intros Hr Hw | split]].
    + rewrite relative_distance_eq; [| rewrite Hw |]; try assumption.
      rewrite Hw. field. assumption.
    + rewrite relative_distance_eq; [| rewrite Hw; lra |]; try assumption.
      rewrite Hw, S. field. assumption.
    + intros Hr Hw. rewrite S. apply relative_distance_sign; lra.
    + intros Hr Hw0 Hw. rewrite S. apply relative_distance_sign; lra.
Qed.

Lemma calculateRelativeDistance_spec_witness :
  distance (calculateRelativeDistance (Some (nominal 0.5 0 0))
              (calibrated_at 160))
  = Some ((1 / (0.5 * 640 / 160) - 1) * 100)
  /\ (1 / (0.5 * 640 / 160) - 1) * 100 == -50.
Proof.
  destruct (proj2 (calculateRelativeDistance_spec (calibrated_at 160)
                     (Some (nominal 0.5 0 0)))
              (nominal 0.5 0 0) 160 eq_refl eq_refl eq_refl)
    as (_ & D & _ & K).
  split; [exact D |].
  apply K; [reflexivity | discriminate | reflexivity].
Defined.

(* ================================================================= *)
(** * Temporal smoother *)

Lemma fold_accumulate_sum (f : FaceMetrics Q -> Q) :
  (forall a m, f (accumulate a m) = f a + f m) ->
  forall h acc, f (fold_left accumulate h acc) == f acc + Qsum (map f h).
Proof.
  intros Hf h. induction h as [| m h IH]; intro acc; cbn [fold_left map Qsum
    fold_right].
  - ring.
  - rewrite IH, Hf. fold (Qsum (map f h)). ring.
Qed.

Lemma fold_accumulate_copy {N} `{Number N} {A} (f : FaceMetrics N -> A) :
  (forall a m, f (accumulate a m) = f a) ->
  forall h acc, f (fold_left accumulate h acc) = f acc.
Proof.
  intros Hf h. induction h as [| m h IH]; intro acc; cbn [fold_left].
  - reflexivity.
  - now rewrite IH, Hf.
Qed.

Lemma shift_while_lastn {N} (fuel maxSize : nat) (h : list (FaceMetrics N)) :
  (List.length h <= fuel)%nat -> shift_while fuel maxSize h = lastn maxSize h.
Proof.
  unfold lastn. revert h.
  induction fuel as [| fuel IH]; intros h Hlen; cbn [shift_while].
  - destruct h; [reflexivity | cbn in Hlen; lia].
  - destruct (Nat.ltb_spec maxSize (List.length h)) as [Lt | Ge].
    + destruct h as [| m h]; [cbn in Lt; lia |].
      cbn [tl]. rewrite IH by (cbn in Hlen; lia).
      cbn [List.length] in *.
      replace (S (List.length h) - maxSize)%nat
        with (S (List.length h - maxSize)) by lia.
      reflexivity.
    + replace (List.length h - maxSize)%nat with 0%nat by lia. reflexivity.
Qed.

Lemma addToFaceHistory_lastn {N} (m : FaceMetrics N) (d : Detector N) :
  faceHistory (addToFaceHistory m d)
  = lastn (maxHistorySize d) (faceHistory d ++ [m]).
Proof.
  unfold addToFaceHistory. cbn [faceHistory set_faceHistory].
  now apply shift_while_lastn.
Qed.

Lemma smooth_unfold {N} `{Number N} (older : list (FaceMetrics N))
    (newest : FaceMetrics N) :
  exists sm, smooth (older ++ [newest]) = Some sm
    /\ imageWidth sm = imageWidth newest
    /\ imageHeight sm = imageHeight newest
    /\ timestamp sm = timestamp newest.
Proof.
  unfold smooth.
  destruct (older ++ [newest]) as [| m0 h'] eqn:E.
  { destruct older; discriminate E. }
  rewrite <- E. eexists. split; [reflexivity |].
  cbn [imageWidth imageHeight timestamp].
  rewrite !fold_accumulate_copy by reflexivity.
  cbn [imageWidth imageHeight timestamp].
  rewrite last_last. repeat split.
Qed.

Lemma smooth_mean (f : FaceMetrics Q -> Q) (h : list (FaceMetrics Q))
    (zero : FaceMetrics Q) :
  (forall a m, f (accumulate a m) = f a + f m) ->
  f zero == 0 ->
  f (fold_left accumulate h zero) / inject_Z (Z.of_nat (List.length h))
  == mean f h.
Proof.
  intros Hf Hz. unfold mean.
  rewrite (fold_accumulate_sum f Hf), Hz. unfold Qdiv. ring.
Qed.

Lemma smooth_eq {N} `{Number N} (h : list (FaceMetrics N))
    (m0 : FaceMetrics N) :
  h <> [] ->
  smooth h
  = Some (smooth_divide
            (fold_left accumulate h (smooth_init (last h (hd m0 h))))
            (of_nat (List.length h))).
Proof. destruct h as [| m h']; [congruence | reflexivity]. Qed.

Lemma smooth_means (h : list (FaceMetrics Q)) (sm : FaceMetrics Q) :
  smooth h = Some sm ->
  faceWidth sm == mean (@faceWidth Q) h
  /\ faceHeight sm == mean (@faceHeight Q) h
  /\ faceWidthToImageRatio sm == mean (@faceWidthToImageRatio Q) h
  /\ faceHeightToImageRatio sm == mean (@faceHeightToImageRatio Q) h
  /\ faceCenterX sm == mean (@faceCenterX Q) h
  /\ faceCenterY sm == mean (@faceCenterY Q) h.
Proof.
  intro Hsm.
  assert (Hne : h <> []) by (intros ->; discriminate Hsm).
  assert (Hd : exists m0, hd_error h = Some m0)
    by (destruct h as [| m0 ?]; [congruence | now exists m0]).
  destruct Hd as (m0 & _).
  rewrite (smooth_eq m0 Hne) in Hsm.
  apply (f_equal (fun o => match o with Some z => z | None => m0 end)) in Hsm.
  subst sm.
  unfold smooth_divide, of_nat.
  cbn [faceWidth faceHeight faceWidthToImageRatio faceHeightToImageRatio
       faceCenterX faceCenterY].
  exact_ops.
  repeat split; apply smooth_mean; intros; reflexivity.
Qed.

(** C7, as the code has it: for a buffer that is not empty, the six
    geometric fields of the smoothed metrics (face width and height, the two
    image ratios, the centre) are the arithmetic means of those fields over
    the buffer, while [imageWidth], [imageHeight] and [timestamp] are those
    of the newest sample; the buffer after a push is the last
    [maxHistorySize] samples, in the order they came. *)
Theorem getSmoothedFaceMetrics_mean (d : Detector Q) :
  faceHistory d <> [] ->
  exists sm older newest,
    getSmoothedFaceMetrics d = Some sm
    /\ faceHistory d = older ++ [newest]
    /\ faceWidth sm == mean (@faceWidth Q) (faceHistory d)
    /\ faceHeight sm == mean (@faceHeight Q) (faceHistory d)
    /\ faceWidthToImageRatio sm
       == mean (@faceWidthToImageRatio Q) (faceHistory d)
    /\ faceHeightToImageRatio sm
       == mean (@faceHeightToImageRatio Q) (faceHistory d)
    /\ faceCenterX sm == mean (@faceCenterX Q) (faceHistory d)
    /\ faceCenterY sm == mean (@faceCenterY Q) (faceHistory d)
    /\ imageWidth sm = imageWidth newest
    /\ imageHeight sm = imageHeight newest
    /\ timestamp sm = timestamp newest
    /\ forall m, faceHistory (addToFaceHistory m d)
                 = lastn (maxHistorySize d) (faceHistory d ++ [m]).
Proof.
  intro Hne. unfold getSmoothedFaceMetrics.
  destruct (exists_last Hne) as (older & newest & E).
  destruct (smooth_unfold older newest) as (sm & Hsm & Hw & Hh & Ht).
  exists sm, older, newest. rewrite <- E in Hsm.
  destruct (smooth_means _ Hsm) as (M1 & M2 & M3 & M4 & M5 & M6).
  repeat split; try assumption.
  intro m. apply addToFaceHistory_lastn.
Qed.

Lemma getSmoothedFaceMetrics_mean_witness :
  exists sm,
    getSmoothedFaceMetrics (set_faceHistory two_frames detector0) = Some sm
    /\ faceWidth sm == mean (@faceWidth Q) two_frames
    /\ timestamp sm = 1040.
Proof.
  assert (Hne : faceHistory (set_faceHistory two_frames detector0) <> [])
    by discriminate.
  destruct (getSmoothedFaceMetrics_mean (set_faceHistory two_frames detector0)
              Hne)
    as (sm & older & newest & Hsm & Eh & Hw & _ & _ & _ & _ & _ & _ & _ & Ht
        & _).
  exists sm. split; [exact Hsm |]. split; [exact Hw |].
  rewrite Ht.
  change (faceHistory (set_faceHistory two_frames detector0))
    with ([at_time 1000 (nominal 0.5 0 0)] ++ [at_time 1040 (nominal 0.5 0 0)])
    in Eh.
  apply app_inj_tail in Eh. destruct Eh as [_ <-]. reflexivity.
Defined.

(** C7 as stated fails on [timestamp]: the smoothed timestamp of two frames
    taken at 1000 and 1040 is 1040, and their mean is 1020. *)
Lemma smoothed_timestamp_is_not_the_mean :
  exists sm,
    getSmoothedFaceMetrics (set_faceHistory two_frames detector0) = Some sm
    /\ timestamp sm = 1040
    /\ mean (@timestamp Q) two_frames == 1020
    /\ ~ timestamp sm == mean (@timestamp Q) two_frames.
Proof.
  eexists. split; [reflexivity |]. split; [reflexivity |].
  split; [reflexivity |]. vm_compute. discriminate.
Qed.

Lemma Qsum_repeat (q : Q) (n : nat) :
  Qsum (repeat q n) == inject_Z (Z.of_nat n) * q.
Proof.
  induction n as [| n IH].
  - cbn. ring.
  - cbn [repeat Qsum fold_right]. fold (Qsum (repeat q n)). rewrite IH.
    rewrite Nat2Z.inj_succ. unfold Z.succ. rewrite inject_Z_plus. ring.
Qed.

Lemma mean_repeat (f : FaceMetrics Q -> Q) (m : FaceMetrics Q) (n : nat) :
  mean f (repeat m (S n)) == f m.
Proof.
  unfold mean. rewrite map_repeat, repeat_length, Qsum_repeat.
  field. intro Hz.
  assert (Hpos : 0 < inject_Z (Z.of_nat (S n))).
  { rewrite <- (Zlt_Qlt 0). lia. }
  lra.
Qed.

(** C8, as the code has it: when the buffer holds [n + 1] copies of one
    [m], the smoothed [imageWidth], [imageHeight] and [timestamp] are those
    of [m] exactly, whatever the arithmetic; in exact arithmetic each of the
    six averaged fields equals that of [m] too. *)
Theorem smooth_uniform_buffer :
  (forall (N : Type) (num : Number N) (m : FaceMetrics N) (n : nat),
     exists sm, smooth (repeat m (S n)) = Some sm
       /\ imageWidth sm = imageWidth m
       /\ imageHeight sm = imageHeight m
       /\ timestamp sm = timestamp m)
  /\ (forall (m : FaceMetrics Q) (n : nat),
        exists sm, smooth (repeat m (S n)) = Some sm
          /\ faceWidth sm == faceWidth m
          /\ faceHeight sm == faceHeight m
          /\ faceWidthToImageRatio sm == faceWidthToImageRatio m
          /\ faceHeightToImageRatio sm == faceHeightToImageRatio m
          /\ faceCenterX sm == faceCenterX m
          /\ faceCenterY sm == faceCenterY m
          /\ imageWidth sm = imageWidth m
          /\ imageHeight sm = imageHeight m
          /\ timestamp sm = timestamp m).
Proof.
  assert (Copy : forall (N : Type) (num : Number N) (m : FaceMetrics N) n,
            exists sm, smooth (repeat m (S n)) = Some sm
              /\ imageWidth sm = imageWidth m
              /\ imageHeight sm = imageHeight m
              /\ timestamp sm = timestamp m).
  { intros N num m n. cbn [repeat]. rewrite repeat_cons.
    apply smooth_unfold. }
  split; [exact Copy |].
  intros m n. destruct (Copy Q Exact m n) as (sm & Hsm & Hw & Hh & Ht).
  exists sm. split; [exact Hsm |].
  destruct (smooth_means _ Hsm) as (M1 & M2 & M3 & M4 & M5 & M6).
  rewrite mean_repeat in M1, M2, M3, M4, M5, M6.
  repeat split; assumption.
Qed.

(** C8 as stated fails in binary64: the mean of five copies of [0.11],
    summed from 0 and divided by 5 as the code does, is not [0.11]. *)
Lemma smooth_uniform_buffer_is_not_exact :
  exists sm,
    smooth (repeat sample64 5) = Some sm
    /\ PrimFloat.eqb (faceCenterX sm) (faceCenterX sample64) = false
    /\ PrimFloat.ltb (faceCenterX sample64) (faceCenterX sm) = true.
Proof.
  eexists. split; [vm_compute; reflexivity |].
  split; vm_compute; reflexivity.
Qed.

(* ================================================================= *)
(** * Alignment classifier: debouncing *)

Section Debounce.
Context {N : Type} `{Number N}.

Lemma status_eqb_eq (a b : AlignmentStatus) : status_eqb a b = true <-> a = b.
Proof.
  unfold status_eqb. destruct (AlignmentStatus_eq_dec a b); split;
    congruence.
Qed.

Lemma same_status_true (last : option AlignmentStatus) (s : AlignmentStatus) :
  same_status last s = true <-> last = Some s.
Proof.
  destruct last as [s0 |]; cbn [same_status].
  - rewrite status_eqb_eq. split; congruence.
  - split; discriminate.
Qed.

Lemma not_notified_same_trace (d d' : Detector N) :
  trace d' = trace d -> ~ notified d d'.
Proof.
  intros E (e & He). rewrite E in He.
  apply (f_equal (@List.length _)) in He. cbn in He. lia.
Qed.

Lemma check_no_face (d : Detector N) :
  checkCalibrationFrameAlignment None d = (no_face, d).
Proof. reflexivity. Qed.

Lemma check_config (frame : option (FaceMetrics N)) (d : Detector N) :
  let d' := snd (checkCalibrationFrameAlignment frame d) in
  calibrationFrame d' = calibrationFrame d
  /\ statusStabilityThreshold d' = statusStabilityThreshold d.
Proof.
  destruct frame as [fm |]; cbn [checkCalibrationFrameAlignment];
    [| split; reflexivity].
  destruct (negb _); [split; reflexivity |].
  destruct (_ <=? _)%nat; split; reflexivity.
Qed.

Lemma classify_frames_config (frames : list (option (FaceMetrics N)))
    (d : Detector N) :
  calibrationFrame (classify_frames frames d) = calibrationFrame d
  /\ statusStabilityThreshold (classify_frames frames d)
     = statusStabilityThreshold d.
Proof.
  revert d. induction frames as [| f frames IH]; intro d;
    cbn [classify_frames]; [split; reflexivity |].
  destruct (IH (snd (checkCalibrationFrameAlignment f d))) as [-> ->].
  apply check_config.
Qed.

(** What one call on present metrics does to the debounce state. *)
Lemma check_present (fm : FaceMetrics N) (d : Detector N) :
  let s := alignment (calibrationFrame d) fm in
  let d' := snd (checkCalibrationFrameAlignment (Some fm) d) in
  lastCalibrationStatus d' = Some s
  /\ (lastCalibrationStatus d = Some s ->
      statusStabilityCounter d' = S (statusStabilityCounter d)
      /\ (notified d d' <->
          (statusStabilityThreshold d <= S (statusStabilityCounter d))%nat))
  /\ (lastCalibrationStatus d <> Some s ->
      statusStabilityCounter d' = 0%nat /\ trace d' = trace d).
Proof.
  intros s d'. subst s d'. cbn [checkCalibrationFrameAlignment].
  destruct (same_status (lastCalibrationStatus d)
              (alignment (calibrationFrame d) fm)) eqn:Same; cbn [negb].
  - apply same_status_true in Same.
    cbn [set_debounce statusStabilityThreshold statusStabilityCounter].
    destruct (Nat.leb_spec (statusStabilityThreshold d)
                (S (statusStabilityCounter d))) as [Le | Gt];
      cbn [snd emit set_debounce lastCalibrationStatus statusStabilityCounter
           trace].
    + repeat split; try congruence.
      intros _. eexists. reflexivity.
    + repeat split; try congruence; try (intro; lia).
      intros F. exfalso. revert F. now apply not_notified_same_trace.
  - assert (Diff : lastCalibrationStatus d
                   <> Some (alignment (calibrationFrame d) fm)).
    { intro E. apply same_status_true in E. congruence. }
    cbn [snd set_debounce lastCalibrationStatus statusStabilityCounter trace].
    repeat split; congruence.
Qed.

Lemma debounce_inv_step (fm : FaceMetrics N) (d : Detector N)
    (seen : list AlignmentStatus) :
  debounce_inv d seen ->
  debounce_inv (snd (checkCalibrationFrameAlignment (Some fm) d))
    (alignment (calibrationFrame d) fm :: seen).
Proof.
  intro Inv.
  destruct (check_present fm d) as (Last & Same & Diff).
  set (s := alignment (calibrationFrame d) fm) in *.
  unfold debounce_inv in *. rewrite Last.
  destruct (lastCalibrationStatus d) as [s0 |] eqn:E.
  - destruct Inv as (rest & -> & Hrest).
    destruct (AlignmentStatus_eq_dec s0 s) as [-> | Ne].
    + destruct (Same eq_refl) as [-> _].
      exists rest. split; [reflexivity | assumption].
    + destruct Diff as [-> _]; [congruence |].
      exists (repeat s0 (S (statusStabilityCounter d)) ++ rest).
      split; [reflexivity |]. cbn. congruence.
  - rewrite Inv. destruct Diff as [-> _]; [congruence |].
    exists []. split; [reflexivity | discriminate].
Qed.

Lemma debounce_inv_frames (frames : list (option (FaceMetrics N)))
    (d : Detector N) (seen : list AlignmentStatus) :
  debounce_inv d seen ->
  debounce_inv (classify_frames frames d)
    (present_statuses (calibrationFrame d) frames seen).
Proof.
  revert d seen. induction frames as [| [fm |] frames IH]; intros d seen Inv;
    cbn [classify_frames present_statuses].
  - exact Inv.
  - replace (calibrationFrame d)
      with (calibrationFrame
              (snd (checkCalibrationFrameAlignment (Some fm) d))) at 1
      by apply check_config.
    apply IH. now apply debounce_inv_step.
  - apply IH. exact Inv.
Qed.

Lemma firstn_repeat_run (s : AlignmentStatus) (k t : nat)
    (rest : list AlignmentStatus) :
  hd_error rest <> Some s ->
  firstn t (repeat s k ++ rest) = repeat s t <-> (t <= k)%nat.
Proof.
  intro Hrest. revert t. induction k as [| k IH]; intro t; cbn [repeat app].
  - destruct t as [| t]; cbn [firstn repeat]; [split; [lia | reflexivity] |].
    split; [| lia]. destruct rest as [| r rest]; [discriminate |].
    intro E. injection E as -> _. exfalso. apply Hrest. reflexivity.
  - destruct t as [| t]; cbn [firstn repeat]; [split; [lia | reflexivity] |].
    rewrite <- Nat.succ_le_mono, <- IH. split; [| congruence].
    intro E. now injection E.
Qed.

End Debounce.

Lemma debounce_inv_head {N} (d : Detector N) (seen : list AlignmentStatus) :
  debounce_inv d seen -> lastCalibrationStatus d = hd_error seen.
Proof.
  unfold debounce_inv. destruct (lastCalibrationStatus d) as [s |].
  - intros (rest & -> & _). reflexivity.
  - intros ->. reflexivity.
Qed.

Lemma firstn_repeat_head {A} (a : A) (t : nat) (l : list A) :
  (1 <= t)%nat -> firstn t l = repeat a t -> hd_error l = Some a.
Proof.
  intros Ht E. destruct t as [| t]; [lia |].
  destruct l as [| b l]; cbn in E; [discriminate E |].
  injection E as -> _. reflexivity.
Qed.

(** C4, as the code has it, for every stability threshold.  Over any
    sequence of calls on a detector that has not classified a face yet,
    whatever its [statusStabilityThreshold] (3 from the constructor, 1 in
    the calibration dialog): the raw status is returned at every call; a
    call without metrics returns no-face and leaves the detector as it was,
    debounce state included; a call on present metrics whose status differs
    from that of the previous present frame leaves the counter at zero and
    notifies nobody; the threshold is never changed; and
    [onCalibrationFrameStatus] is called exactly when the previous present
    frame had the current status and the [statusStabilityThreshold] present
    frames before the current one all had it (for a threshold of at least 1
    the second condition implies the first). *)
Theorem checkCalibrationFrameAlignment_debounce
    {N} `{Number N} (d0 : Detector N)
    (before : list (option (FaceMetrics N)))
    (frame : option (FaceMetrics N)) :
  lastCalibrationStatus d0 = None ->
  let threshold := statusStabilityThreshold d0 in
  let d := classify_frames before d0 in
  let status := fst (checkCalibrationFrameAlignment frame d) in
  let d' := snd (checkCalibrationFrameAlignment frame d) in
  let seen := present_statuses (calibrationFrame d0) before [] in
  status = raw_status (calibrationFrame d0) frame
  /\ lastCalibrationStatus d = hd_error seen
  /\ statusStabilityThreshold d' = threshold
  /\ (notified d d' <->
      exists fm, frame = Some fm
        /\ hd_error seen = Some status
        /\ firstn threshold seen = repeat status threshold)
  /\ ((1 <= threshold)%nat ->
      (notified d d' <->
       exists fm, frame = Some fm
         /\ firstn threshold seen = repeat status threshold))
  /\ (forall fm, frame = Some fm -> hd_error seen <> Some status ->
        statusStabilityCounter d' = 0%nat /\ ~ notified d d')
  /\ (frame = None -> d' = d).
Proof.
  intros Fresh threshold d status d' seen.
  assert (Inv : debounce_inv d seen).
  { apply debounce_inv_frames. unfold debounce_inv. rewrite Fresh.
    reflexivity. }
  pose proof (@debounce_inv_head _ d seen Inv) as Head.
  destruct (classify_frames_config before d0) as [Cf Th].
  fold d in Cf, Th. fold threshold in Th.
  assert (Th' : statusStabilityThreshold d' = threshold).
  { subst d'. destruct (check_config frame d) as [_ ->]. exact Th. }
  assert (Main : notified d d' <->
                 exists fm, frame = Some fm
                   /\ hd_error seen = Some status
                   /\ firstn threshold seen = repeat status threshold).
  { destruct frame as [fm |].
    - destruct (check_present fm d) as (Last & Same & Diff).
      assert (Es : status = alignment (calibrationFrame d) fm)
        by apply checkCalibrationFrameAlignment_status.
      rewrite <- Es in *. fold d' in Last, Same, Diff.
      rewrite Th in Same.
      destruct (lastCalibrationStatus d) as [s0 |] eqn:EL.
      + unfold debounce_inv in Inv. rewrite EL in Inv.
        destruct Inv as (rest & Eseen & Hrest).
        destruct (AlignmentStatus_eq_dec s0 status) as [-> | Ne].
        * destruct (Same eq_refl) as [_ ->].
          split.
          -- intro Le. exists fm. split; [reflexivity |].
             split; [symmetry; exact Head |].
             rewrite Eseen. now apply firstn_repeat_run.
          -- intros (_ & _ & _ & Le). rewrite Eseen in Le.
             now apply firstn_repeat_run in Le.
        * destruct Diff as [_ Tr]; [congruence |].
          split.
          -- intro F. exfalso. revert F.
             now apply not_notified_same_trace.
          -- intros (_ & _ & F & _). exfalso. congruence.
      + destruct Diff as [_ Tr]; [congruence |].
        split.
        * intro F. exfalso. revert F. now apply not_notified_same_trace.
        * intros (_ & _ & F & _). exfalso. congruence.
    - split.
      + intro F. exfalso. revert F. now apply not_notified_same_trace.
      + intros (fm & F & _). discriminate F. }
  split.
  { subst status. destruct frame as [fm |]; [| reflexivity].
    rewrite checkCalibrationFrameAlignment_status, Cf. reflexivity. }
  split; [exact Head |]. split; [exact Th' |]. split; [exact Main |].
  split.
  { intro Ht. rewrite Main. split.
    - intros (fm & E & _ & F). exists fm. split; assumption.
    - intros (fm & E & F). exists fm. split; [exact E |].
      split; [| exact F].
      exact (@firstn_repeat_head _ status threshold seen Ht F). }
  split.
  - intros fm E Hd. subst frame.
    destruct (check_present fm d) as (_ & _ & Diff).
    assert (Es : status = alignment (calibrationFrame d) fm)
      by apply checkCalibrationFrameAlignment_status.
    rewrite <- Es in Diff. fold d' in Diff. rewrite <- Head in Hd.
    destruct (Diff Hd) as [C Tr]. split; [exact C |].
    now apply not_notified_same_trace.
  - intros ->. reflexivity.
Qed.

Lemma checkCalibrationFrameAlignment_debounce_witness :
  (let d := classify_frames [good_frame; good_frame; good_frame] detector0 in
   notified d (snd (checkCalibrationFrameAlignment good_frame d)))
  /\ (let d := classify_frames [good_frame] dialog_detector in
      notified d (snd (checkCalibrationFrameAlignment good_frame d)))
  /\ (let d := classify_frames [] dialog_detector in
      ~ notified d (snd (checkCalibrationFrameAlignment good_frame d))).
Proof.
  assert (Fresh3 : lastCalibrationStatus detector0 = None) by reflexivity.
  assert (Fresh1 : lastCalibrationStatus dialog_detector = None)
    by reflexivity.
  destruct (@checkCalibrationFrameAlignment_debounce Q Exact detector0
              [good_frame; good_frame; good_frame] good_frame Fresh3)
    as (_ & _ & _ & Three & _).
  destruct (@checkCalibrationFrameAlignment_debounce Q Exact dialog_detector
              [good_frame] good_frame Fresh1)
    as (_ & _ & _ & One & _).
  destruct (@checkCalibrationFrameAlignment_debounce Q Exact dialog_detector
              [] good_frame Fresh1)
    as (_ & _ & _ & _ & _ & First & _).
  split; [| split].
  - apply Three. exists (nominal 0.5 0 0). repeat split.
  - apply One. exists (nominal 0.5 0 0). repeat split.
  - apply (First (nominal 0.5 0 0) eq_refl). discriminate.
Defined.

(** C4 as stated fails when a call without metrics comes between good
    frames: the statuses returned are good, good, no-face, good, good, and
    the fifth call notifies although the three most recent statuses are
    no-face, good, good. *)
Lemma debounce_not_as_specified :
  let d := classify_frames [good_frame; good_frame; None; good_frame]
             detector0 in
  map (raw_status (calibrationFrame detector0)) interrupted_frames
  = [good; good; no_face; good; good]
  /\ notified d (snd (checkCalibrationFrameAlignment good_frame d))
  /\ ~ debounce_as_specified detector0 interrupted_frames.
Proof.
  cbv zeta.
  assert (Fifth :
    notified
      (classify_frames [good_frame; good_frame; None; good_frame] detector0)
      (snd (checkCalibrationFrameAlignment good_frame
              (classify_frames [good_frame; good_frame; None; good_frame]
                 detector0)))).
  { eexists. reflexivity. }
  split; [reflexivity |]. split; [exact Fifth |].
  intro Spec.
  destruct (Spec [good_frame; good_frame; None; good_frame] good_frame []
              eq_refl) as [Notify _].
  specialize (Notify Fifth). vm_compute in Notify. discriminate Notify.
Qed.

(** The call without metrics leaves the counter where it was. *)
Lemma no_face_keeps_counter :
  statusStabilityCounter
    (classify_frames [good_frame; good_frame; None] detector0) = 1%nat
  /\ raw_status (calibrationFrame detector0) None <> good.
Proof. split; [reflexivity | discriminate]. Qed.

(* ================================================================= *)
(** * Calibration *)

Section Calibrate.
Context {N : Type} `{Number N}.

Lemma alignment_not_no_face (cf : CalibrationFrame N) (fm : FaceMetrics N) :
  alignment cf fm <> no_face.
Proof.
  unfold alignment.
  repeat match goal with
  | |- context [if ?b then _ else _] => destruct b
  end; discriminate.
Qed.

Lemma corrective_instruction_identifies (s1 s2 : AlignmentStatus) :
  misalignment s1 -> misalignment s2 ->
  corrective_instruction s1 = corrective_instruction s2 -> s1 = s2.
Proof.
  intros [G1 F1] [G2 F2].
  destruct s1, s2; cbn; intro E; congruence.
Qed.

Lemma check_calibration (frame : option (FaceMetrics N)) (d : Detector N) :
  let d' := snd (checkCalibrationFrameAlignment frame d) in
  calibration d' = calibration d
  /\ localStorage d' = localStorage d
  /\ faceHistory d' = faceHistory d
  /\ isRunning d' = isRunning d
  /\ maxHistorySize d' = maxHistorySize d
  /\ distanceScale d' = distanceScale d.
Proof.
  destruct frame as [fm |]; cbn [checkCalibrationFrameAlignment];
    [| repeat split].
  destruct (negb _); [repeat split |].
  destruct (_ <=? _)%nat; repeat split.
Qed.

(** What [calibrate] does when metrics are there. *)
Lemma calibrate_present (fontSize : option N) (now : N) (d : Detector N)
    (metrics : FaceMetrics N) :
  getSmoothedFaceMetrics d = Some metrics ->
  let status := fst (checkCalibrationFrameAlignment (Some metrics) d) in
  let d1 := snd (checkCalibrationFrameAlignment (Some metrics) d) in
  let c := {| isCalibrated := true;
              referenceFaceWidth := Some (faceWidth metrics);
              referenceDistance := lit 0;
              referenceFontSize :=
                Some (match fontSize with Some f => f | None => lit 16 end);
              cal_timestamp := Some now |} in
  (status = good ->
   calibrate fontSize now d
   = (returned c, set_localStorage c (set_calibration c d1)))
  /\ (status <> good ->
      calibrate fontSize now d = (threw (corrective_instruction status), d1)).
Proof.
  intros M status d1 c. unfold calibrate. rewrite M.
  fold status d1.
  destruct (checkCalibrationFrameAlignment (Some metrics) d) as [s dd] eqn:E.
  subst status d1. cbn [fst snd].
  assert (Hs : s = alignment (calibrationFrame d) metrics).
  { rewrite <- (checkCalibrationFrameAlignment_status metrics d), E.
    reflexivity. }
  assert (Hnf : s <> no_face) by (rewrite Hs; apply alignment_not_no_face).
  split; intro G.
  - subst s. rewrite G. reflexivity.
  - destruct s; cbn; try reflexivity; congruence.
Qed.

End Calibrate.

(** C6: [calibrate(fontSize)] succeeds exactly when smoothed metrics exist
    and their raw alignment status is good.  On any other status it throws
    the corrective instruction of that status, which identifies the
    misalignment, and the calibration and the stored record stay as they
    were; without metrics it throws and nothing changes.  On success the
    record it writes, stores and returns is calibrated, has the smoothed face
    width as [referenceFaceWidth] and the caller's font size as
    [referenceFontSize]. *)
Theorem calibrate_spec {N} `{Number N} (fontSize now : N) (d : Detector N) :
  let result := fst (calibrate (Some fontSize) now d) in
  let d' := snd (calibrate (Some fontSize) now d) in
  let status metrics :=
    fst (checkCalibrationFrameAlignment (Some metrics) d) in
  ((exists c, result = returned c) <->
   (exists metrics,
      getSmoothedFaceMetrics d = Some metrics /\ status metrics = good))
  /\ (forall metrics,
        getSmoothedFaceMetrics d = Some metrics ->
        status metrics <> good ->
        misalignment (status metrics)
        /\ result = threw (corrective_instruction (status metrics))
        /\ (forall s, misalignment s ->
              corrective_instruction s
              = corrective_instruction (status metrics) ->
              s = status metrics)
        /\ calibration d' = calibration d
        /\ localStorage d' = localStorage d)
  /\ (getSmoothedFaceMetrics d = None ->
        result = threw msg_no_face_cannot_calibrate /\ d' = d)
  /\ (forall c, result = returned c ->
        exists metrics,
          getSmoothedFaceMetrics d = Some metrics
          /\ calibration d' = c
          /\ localStorage d' = Some c
          /\ isCalibrated c = true
          /\ referenceFaceWidth c = Some (faceWidth metrics)
          /\ referenceFontSize c = Some fontSize
          /\ cal_timestamp c = Some now).
Proof.
  intros result d' status. subst result d'.
  destruct (getSmoothedFaceMetrics d) as [metrics |] eqn:M.
  - destruct (calibrate_present (Some fontSize) now d M) as [Good Bad].
    fold (status metrics) in Good, Bad.
    destruct (AlignmentStatus_eq_dec (status metrics) good) as [G | NG].
    + rewrite (Good G). cbn [fst snd].
      split; [split; intros _; eexists; [| split]; eauto |].
      split; [intros m Em; injection Em as <-; congruence |].
      split; [discriminate |].
      intros c Ec. injection Ec as <-. exists metrics.
      repeat split.
    + rewrite (Bad NG). cbn [fst snd].
      assert (Mis : misalignment (status metrics)).
      { split; [exact NG |]. subst status. cbn beta.
        rewrite checkCalibrationFrameAlignment_status.
        apply alignment_not_no_face. }
      split; [split |].
      * intros (c & Ec). discriminate Ec.
      * intros (m & Em & Gm). injection Em as <-. congruence.
      * split.
        -- intros m Em _. injection Em as <-.
           split; [exact Mis |]. split; [reflexivity |].
           split; [intros s Hs Es;
                   now apply corrective_instruction_identifies |].
           split; apply (check_calibration (Some metrics) d).
        -- split; [discriminate |]. intros c Ec. discriminate Ec.
  - unfold calibrate. rewrite M. cbn [fst snd].
    split; [split |].
    + intros (c & Ec). discriminate Ec.
    + intros (m & Em & _). discriminate Em.
    + split; [intros m Em; discriminate Em |].
      split; [intros _; split; reflexivity |].
      intros c Ec. discriminate Ec.
Qed.

Lemma calibrate_spec_witness :
  exists c, fst (calibrate (Some 18) 2000 aligned_detector) = returned c.
Proof.
  apply (proj1 (calibrate_spec 18 2000 aligned_detector)).
  eexists. split; [reflexivity |]. vm_compute. reflexivity.
Defined.

(* ================================================================= *)
(** * The calibration invariant *)

Lemma Some_inj {A} (a b : A) : Some a = Some b -> a = b.
Proof. intro E. now injection E. Qed.

Lemma calculateFaceMetrics_ok (landmarks : list (Landmark Q))
    (w h now : Q) (fm : FaceMetrics Q) :
  0 < w ->
  calculateFaceMetrics landmarks w h now = Some fm -> sample_ok fm.
Proof.
  intros Hw. unfold calculateFaceMetrics.
  destruct (nth_error landmarks 234) as [leftEar |]; [| discriminate].
  destruct (nth_error landmarks 454) as [rightEar |]; [| discriminate].
  destruct (nth_error landmarks 4) as [nose |]; [| discriminate].
  destruct (nth_error landmarks 10) as [forehead |]; [| discriminate].
  destruct (nth_error landmarks 152) as [chin |]; [| discriminate].
  intro E. apply Some_inj in E. subst fm. exact_ops.
  unfold sample_ok. cbn [faceWidth faceWidthToImageRatio].
  set (fw := Qabs ((x rightEar - x leftEar) * w)).
  assert (Hfw : 0 <= fw) by apply Qabs_nonneg.
  clearbody fw.
  split; [exact Hfw |]. intro Hr.
  assert (Hi : 0 < / w) by now apply Qinv_lt_0_compat.
  unfold Qdiv in Hr. generalize dependent (/ w). intros k Hr Hk.
  destruct (Qlt_le_dec 0 fw) as [Pos | Npos]; [exact Pos | exfalso].
  nra.
Qed.

Lemma Forall_lastn {A} (P : A -> Prop) (n : nat) (l : list A) :
  Forall P l -> Forall P (lastn n l).
Proof.
  unfold lastn. intro F.
  rewrite <- (firstn_skipn (List.length l - n) l) in F.
  apply Forall_app in F. apply F.
Qed.

Lemma Qsum_widths (h : list (FaceMetrics Q)) :
  Forall sample_ok h ->
  0 <= Qsum (map (@faceWidth Q) h)
  /\ (0 < Qsum (map (@faceWidthToImageRatio Q) h) ->
      0 < Qsum (map (@faceWidth Q) h)).
Proof.
  induction 1 as [| m h [Hnn Hpos] _ [IHnn IHpos]];
    cbn [map Qsum fold_right].
  - split; lra.
  - fold (Qsum (map (@faceWidth Q) h)) in *.
    fold (Qsum (map (@faceWidthToImageRatio Q) h)) in *.
    split; [lra |]. intro S.
    destruct (Qlt_le_dec 0 (faceWidthToImageRatio m)) as [P | NP].
    + specialize (Hpos P). lra.
    + assert (T : 0 < Qsum (map (@faceWidthToImageRatio Q) h)) by lra.
      specialize (IHpos T). lra.
Qed.

Lemma mean_pos (f : FaceMetrics Q -> Q) (h : list (FaceMetrics Q)) :
  h <> [] -> (0 < mean f h <-> 0 < Qsum (map f h)).
Proof.
  intro Hne. unfold mean.
  assert (Hn : 0 < inject_Z (Z.of_nat (List.length h))).
  { rewrite <- (Zlt_Qlt 0). destruct h; [congruence | cbn; lia]. }
  assert (Hi : 0 < / inject_Z (Z.of_nat (List.length h)))
    by now apply Qinv_lt_0_compat.
  unfold Qdiv.
  generalize dependent (/ inject_Z (Z.of_nat (List.length h))).
  intros k Hk. split; intro; nra.
Qed.

(** The smoothed face width of a buffer that is classified good is
    positive. *)
Lemma good_width_positive (cf : CalibrationFrame Q)
    (h : list (FaceMetrics Q)) (sm : FaceMetrics Q) :
  0 < targetFaceRatio cf ->
  Forall sample_ok h ->
  smooth h = Some sm ->
  alignment cf sm = good ->
  0 < faceWidth sm.
Proof.
  intros Ht Hok Hsm Hgood.
  assert (Hne : h <> []) by (intros ->; discriminate Hsm).
  destruct (smooth_means _ Hsm) as (Mw & _ & Mr & _).
  rewrite alignment_first_match in Hgood. unfold first_match in Hgood.
  destruct (Qlt_le_dec (faceWidthToImageRatio sm) (targetFaceRatio cf * 0.5))
    as [Far | NotFar]; [discriminate Hgood |].
  assert (Hr : 0 < mean (@faceWidthToImageRatio Q) h) by (rewrite <- Mr; lra).
  rewrite Mw. apply mean_pos; [exact Hne |].
  apply Qsum_widths; [exact Hok |]. now apply mean_pos in Hr.
Qed.

Lemma check_inv (frame : option (FaceMetrics Q)) (d : Detector Q) :
  detector_inv d ->
  detector_inv (snd (checkCalibrationFrameAlignment frame d)).
Proof.
  unfold detector_inv, calibrated_positive.
  destruct (check_calibration frame d) as (-> & _ & -> & _).
  destruct (check_config frame d) as (-> & _).
  trivial.
Qed.

Lemma emit_inv (e : Event Q) (d : Detector Q) :
  detector_inv d -> detector_inv (emit e d).
Proof. trivial. Qed.

Lemma handleNoFaceDetected_inv (now : Q) (d : Detector Q) :
  detector_inv d -> detector_inv (handleNoFaceDetected now d).
Proof.
  intros (Ht & Hh & Hc). unfold handleNoFaceDetected.
  destruct (_ >? _)%js; [| now repeat split].
  repeat split; [exact Ht | constructor | exact Hc].
Qed.

Lemma addToFaceHistory_inv (fm : FaceMetrics Q) (d : Detector Q) :
  sample_ok fm -> detector_inv d -> detector_inv (addToFaceHistory fm d).
Proof.
  intros Hfm (Ht & Hh & Hc). unfold detector_inv.
  rewrite addToFaceHistory_lastn.
  repeat split; [exact Ht | | exact Hc].
  apply Forall_lastn, Forall_app. split; [exact Hh |].
  constructor; [exact Hfm | constructor].
Qed.

Lemma processFaceMeshResults_inv (results : option (Results Q)) (now : Q)
    (d : Detector Q) :
  (forall r, results = Some r -> 0 < image_width r) ->
  detector_inv d -> detector_inv (processFaceMeshResults results now d).
Proof.
  intros Hw Inv. unfold processFaceMeshResults.
  destruct (negb (isRunning d)); [exact Inv |].
  destruct results as [r |]; [| now apply handleNoFaceDetected_inv].
  destruct (multiFaceLandmarks r) as [[| landmarks others] |];
    try now apply handleNoFaceDetected_inv.
  destruct (calculateFaceMetrics landmarks (image_width r) (image_height r)
              now) as [fm |] eqn:E; [| now apply emit_inv].
  assert (Hfm : sample_ok fm).
  { eapply calculateFaceMetrics_ok; [| exact E]. now apply Hw. }
  pose proof (addToFaceHistory_inv Hfm Inv) as Inv1.
  pose proof (check_inv
                (getSmoothedFaceMetrics (addToFaceHistory fm d)) Inv1) as Inv2.
  destruct (checkCalibrationFrameAlignment _ _) as [status d2].
  apply emit_inv. exact Inv2.
Qed.

Lemma calibrate_inv (fontSize : option Q) (now : Q) (d : Detector Q) :
  detector_inv d -> detector_inv (snd (calibrate fontSize now d)).
Proof.
  intro Inv.
  destruct (getSmoothedFaceMetrics d) as [metrics |] eqn:M.
  - destruct (calibrate_present fontSize now d M) as [Good Bad].
    pose proof (check_inv (Some metrics) Inv) as Inv1.
    destruct (AlignmentStatus_eq_dec
                (fst (checkCalibrationFrameAlignment (Some metrics) d)) good)
      as [G | NG].
    + rewrite (Good G). cbn [snd].
      destruct Inv1 as (Ht & Hh & _). destruct Inv as (Ht0 & Hh0 & _).
      repeat split; [exact Ht | exact Hh |].
      intros _. eexists. split; [reflexivity |].
      rewrite checkCalibrationFrameAlignment_status in G.
      apply (@good_width_positive (calibrationFrame d) (faceHistory d)
               metrics); assumption.
    + rewrite (Bad NG). exact Inv1.
  - unfold calibrate. rewrite M. exact Inv.
Qed.

Lemma loadCalibration_inv (JSON_parse : string -> option (Parsed Q))
    (data : CalibrationInput Q) (d : Detector Q) :
  positive_width JSON_parse data ->
  detector_inv d -> detector_inv (snd (loadCalibration JSON_parse data d)).
Proof.
  intros Hpos Inv. unfold loadCalibration.
  fold (parsed_input JSON_parse data).
  destruct (parsed_input JSON_parse data) as [[| | o] |] eqn:P;
    try exact Inv.
  destruct (st_referenceFaceWidth o) as [w |] eqn:W; [| exact Inv].
  destruct (negb _); [exact Inv |].
  destruct Inv as (Ht & Hh & _).
  repeat split; [exact Ht | exact Hh |].
  intros _. exists w. split; [reflexivity |].
  exact (Hpos o w P W).
Qed.

Lemma reachable_inv (JSON_parse : string -> option (Parsed Q))
    (d : Detector Q) :
  reachable JSON_parse (positive_width JSON_parse) d -> detector_inv d.
Proof.
  induction 1 as [w s | d d' _ IH St].
  - split; [reflexivity | split; [constructor |]].
    intro F. discriminate F.
  - destruct St as [d | d results now Hw | d fontSize now | d data Hok
                    | d | d].
    + exact IH.
    + now apply processFaceMeshResults_inv.
    + now apply calibrate_inv.
    + now apply loadCalibration_inv.
    + destruct IH as (Ht & Hh & _). split; [exact Ht | split; [exact Hh |]].
      intro F. discriminate F.
    + destruct IH as (Ht & _ & Hc). split; [exact Ht | split; [| exact Hc]].
      constructor.
Qed.

(** C5, as the code has it: in every state reached from a fresh detector by
    frames of positive width, calls of [calibrate], of [resetCalibration],
    of [cleanup] and calls of [loadCalibration] on stored records whose
    reference width is positive (the function itself only checks that it is
    defined), a calibrated
    detector has a reference face width strictly greater than 0; and a
    detector that is not calibrated answers every distance query with the
    neutral sample, distance 0 and [isCalibrated = false]. *)
Theorem calibrated_reference_width_positive
    (JSON_parse : string -> option (Parsed Q)) (d : Detector Q) :
  reachable JSON_parse (positive_width JSON_parse) d ->
  (isCalibrated (calibration d) = true ->
   exists r, referenceFaceWidth (calibration d) = Some r /\ 0 < r)
  /\ (isCalibrated (calibration d) = false ->
      forall faceMetrics,
        distance (calculateRelativeDistance faceMetrics d) = Some 0
        /\ distanceRatio (calculateRelativeDistance faceMetrics d) = Some 1
        /\ dd_isCalibrated (calculateRelativeDistance faceMetrics d) = false).
Proof.
  intro R. split.
  - apply (reachable_inv R).
  - intros U fm.
    exact (@calculateRelativeDistance_neutral Q Exact d fm (or_introl U)).
Qed.

Lemma session_calibrated_reachable :
  reachable no_parse (positive_width no_parse) session_calibrated.
Proof.
  apply reachable_step with (d := session_frame); [| apply step_calibrate].
  apply reachable_step with (d := session_started).
  - apply reachable_step with (d := detector0);
      [apply reachable_new | apply step_start].
  - apply step_frame. intros r E. apply Some_inj in E. subst r. reflexivity.
Qed.

Lemma calibrated_reference_width_positive_witness :
  exists r,
    referenceFaceWidth (calibration session_calibrated) = Some r /\ 0 < r.
Proof.
  apply (calibrated_reference_width_positive session_calibrated_reachable).
  vm_compute. reflexivity.
Defined.

(** C5 as stated fails for [loadCalibration]: a stored record whose
    [referenceFaceWidth] is 0 is accepted, and the detector is then
    calibrated with a reference width that is not positive. *)
Lemma loadCalibration_accepts_zero_width :
  let loaded :=
    loadCalibration no_parse (input_value (parsed_object zero_width_record))
      detector0 in
  reachable no_parse any_input (snd loaded)
  /\ fst loaded = true
  /\ isCalibrated (calibration (snd loaded)) = true
  /\ referenceFaceWidth (calibration (snd loaded)) = Some 0
  /\ ~ (exists r, referenceFaceWidth (calibration (snd loaded)) = Some r
                  /\ 0 < r).
Proof.
  cbv zeta. split.
  - apply reachable_step with (d := detector0); [apply reachable_new |].
    apply step_load. exact I.
  - split; [reflexivity |]. split; [reflexivity |]. split; [reflexivity |].
    intros (r & E & Pos). cbn in E. apply Some_inj in E. subst r.
    discriminate Pos.
Qed.

(* ================================================================= *)
(** * Contrast ratio *)

Lemma hex_digit_nonneg (c : ascii) (v : Z) :
  hex_digit c = Some v -> (0 <= v <= 15)%Z.
Proof.
  unfold hex_digit.
  repeat match goal with
  | |- context [if ?b then _ else _] => destruct b eqn:?
  end; intro E; try discriminate E; apply Some_inj in E; subst v; lia.
Qed.

Lemma parseInt16_byte (c1 c2 : ascii) :
  is_hex_digit c1 = true -> is_hex_digit c2 = true ->
  exists v, parseInt16 (String c1 (String c2 EmptyString)) = Some v
            /\ (0 <= v <= 255)%Z.
Proof.
  unfold is_hex_digit, parseInt16. cbn [hex_prefix].
  destruct (hex_digit c1) as [v1 |] eqn:E1; [| discriminate].
  destruct (hex_digit c2) as [v2 |] eqn:E2; [| discriminate].
  intros _ _. apply hex_digit_nonneg in E1, E2.
  eexists. split; [reflexivity | lia].
Qed.

(** The three channels of a well-formed colour. *)
Lemma hex_color_channels (c : string) :
  is_hex_color c = true ->
  exists r g b,
    parseInt16 (substr c 1 2) = Some r
    /\ parseInt16 (substr c 3 2) = Some g
    /\ parseInt16 (substr c 5 2) = Some b
    /\ (0 <= r <= 255)%Z /\ (0 <= g <= 255)%Z /\ (0 <= b <= 255)%Z.
Proof.
  destruct c as [| h [| r1 [| r2 [| g1 [| g2 [| b1 [| b2 [|]]]]]]]];
    try discriminate.
  cbn [is_hex_color]. rewrite !andb_true_iff.
  intros ((((((_ & R1) & R2) & G1) & G2) & B1) & B2).
  destruct (parseInt16_byte r1 r2 R1 R2) as (r & Er & Hr).
  destruct (parseInt16_byte g1 g2 G1 G2) as (g & Eg & Hg).
  destruct (parseInt16_byte b1 b2 B1 B2) as (b & Eb & Hb).
  exists r, g, b. unfold substr. cbn [substring].
  repeat split; (assumption || lia).
Qed.

Section ContrastRatio.
(** [Math.pow], of which only this is used: a power of a base that is not
    negative is not negative. *)
Variable Math_pow : Q -> Q -> Q.
Hypothesis Math_pow_nonneg : forall base e, 0 <= base -> 0 <= Math_pow base e.

Lemma linearize_nonneg (c : Q) : 0 <= c -> 0 <= linearize Math_pow c.
Proof.
  intro Hc. unfold linearize. exact_ops.
  destruct (Qle_bool c 0.03928).
  - const_inv. lra.
  - apply Math_pow_nonneg. const_inv. lra.
Qed.

Lemma luminance_nonneg (c : string) :
  is_hex_color c = true ->
  exists l, calculateRelativeLuminance Math_pow c = Some l /\ 0 <= l.
Proof.
  intro Hc. destruct (hex_color_channels c Hc)
    as (r & g & b & Er & Eg & Eb & Hr & Hg & Hb).
  unfold calculateRelativeLuminance. rewrite Er, Eg, Eb. exact_ops.
  eexists. split; [reflexivity |].
  assert (Ch : forall v, (0 <= v)%Z -> 0 <= inject_Z v / 255).
  { intros v Hv. rewrite (Zle_Qle 0) in Hv. change (inject_Z 0) with 0 in Hv.
    const_inv. lra. }
  pose proof (linearize_nonneg (Ch r (proj1 Hr))) as Lr.
  pose proof (linearize_nonneg (Ch g (proj1 Hg))) as Lg.
  pose proof (linearize_nonneg (Ch b (proj1 Hb))) as Lb.
  lra.
Qed.

(** C10: for two [#rrggbb] colours the contrast ratio does not depend on
    the order of its arguments, and it is at least 1. *)
Theorem calculateContrastRatio_symmetric (c1 c2 : string) :
  is_hex_color c1 = true -> is_hex_color c2 = true ->
  exists r12 r21,
    calculateContrastRatio Math_pow c1 c2 = Some r12
    /\ calculateContrastRatio Math_pow c2 c1 = Some r21
    /\ r12 == r21
    /\ 1 <= r12.
Proof.
  intros Hc1 Hc2.
  destruct (luminance_nonneg c1 Hc1) as (l1 & E1 & P1).
  destruct (luminance_nonneg c2 Hc2) as (l2 & E2 & P2).
  unfold calculateContrastRatio. rewrite E1, E2. exact_ops.
  eexists. eexists. split; [reflexivity |]. split; [reflexivity |].
  split.
  - rewrite (Q.max_comm l1 l2), (Q.min_comm l1 l2). reflexivity.
  - apply Qle_shift_div_l; minmax_cases; lra.
Qed.

End ContrastRatio.

Lemma calculateContrastRatio_symmetric_witness :
  exists r12 r21,
    calculateContrastRatio (fun base _ => base * base)
      baseBackgroundColor baseTextColor = Some r12
    /\ calculateContrastRatio (fun base _ => base * base)
         baseTextColor baseBackgroundColor = Some r21
    /\ r12 == r21
    /\ 1 <= r12.
Proof.
  apply (calculateContrastRatio_symmetric (fun base _ => base * base)).
  - intros base _ Hb. nra.
  - reflexivity.
  - reflexivity.
Defined.

(* ================================================================= *)
(** * The pipeline, frame by frame *)

(** The loss of the face is notified by [handleNoFaceDetected] itself, once
    the grace period is over and without passing through the debounce
    counter, which the good frame that follows finds where the third good
    frame left it: that single frame is notified at once. *)
Example face_lost_and_found_notifications :
  notified_statuses (frames_at (firstn 3 face_lost_and_found) session_started)
  = []
  /\ notified_statuses
       (frames_at (firstn 4 face_lost_and_found) session_started)
     = []
  /\ notified_statuses
       (frames_at (firstn 5 face_lost_and_found) session_started)
     = [no_face]
  /\ notified_statuses (frames_at face_lost_and_found session_started)
     = [no_face; good].
Proof. repeat split; vm_compute; reflexivity. Qed.

(* ================================================================= *)
(** * The code in binary64 *)

(** The examples of the specification, evaluated as a JavaScript engine
    evaluates them. *)
Example relative_distance_binary64 :
  distance (calculateRelativeDistance (Some (nominal64 (lit 0.5) (lit 0)
                                               (lit 0)))
              (calibrated64 (lit 320))) = Some (lit 0)
  /\ distance (calculateRelativeDistance (Some (nominal64 (lit 0.5) (lit 0)
                                                  (lit 0)))
                 (calibrated64 (lit 160))) = Some (lit (-50))
  /\ distance (calculateRelativeDistance (Some (nominal64 (lit 0.5) (lit 0)
                                                  (lit 0)))
                 detector64) = Some (lit 0).
Proof. repeat split; vm_compute; reflexivity. Qed.

(** Three copies of 0.1 average to 0.10000000000000002. *)
Example three_copies_binary64 :
  let m := nominal64 (lit 0.1) (lit 0) (lit 0) in
  option_map (fun sm => PrimFloat.eqb (faceWidthToImageRatio sm) (lit 0.1))
    (smooth [m; m; m]) = Some false.
Proof. vm_compute. reflexivity. Qed.

(** With a reference width of 0 the ratio of a positive face width is
    infinite and the distance -100; that of a face width of 0 is NaN. *)
Example zero_reference_width_binary64 :
  distance (calculateRelativeDistance (Some (nominal64 (lit 0.5) (lit 0)
                                               (lit 0)))
              (calibrated64 (lit 0))) = Some (lit (-100))
  /\ option_map PrimFloat.is_nan
       (distance (calculateRelativeDistance (Some (nominal64 (lit 0) (lit 0)
                                                     (lit 0)))
                    (calibrated64 (lit 0)))) = Some true.
Proof. split; vm_compute; reflexivity. Qed.

Example alignment_binary64 :
  let cf := calibrationFrame detector64 in
  alignment cf (nominal64 (targetFaceRatio cf) (lit 0) (lit 0)) = good
  /\ alignment cf (nominal64 (targetFaceRatio cf * lit 0.4)%js (lit 0)
                     (lit 0)) = too_far
  /\ alignment cf (nominal64 (targetFaceRatio cf)
                     (positionTolerance cf + lit 0.01)%js (lit 0))
     = too_right.
Proof. repeat split; vm_compute; reflexivity. Qed.

Example contrast_binary64 :
  calculateContrastAdjustment (N := float) (lit 0) = lit 6.0
  /\ calculateContrastAdjustment (N := float) (lit (-25)) = lit 3.5
  /\ calculateContrastAdjustment (N := float) (lit 25) = lit 9.0
  /\ calculateContrastAdjustment (N := float) (lit (-400)) = lit 3.5
  /\ calculateContrastAdjustment (N := float) (lit 400) = lit 9.0.
Proof. repeat split; vm_compute; reflexivity. Qed.

Example font_binary64 :
  let m := handleStableFontAdjustment (lit 10) (lit 5000)
             (new_ReadingModeManager (N := float) None) in
  ui m = [updateFontSize (currentFontSize m)]
  /\ (lit 12 <=? currentFontSize m)%js = true
  /\ (currentFontSize m <=? lit 32)%js = true
  /\ lastStableDistance m = lit 10.
Proof. repeat split; vm_compute; reflexivity. Qed.

(* ================================================================= *)
(** * Face metrics: geometry *)

Lemma nth_error_Forall {A} (P : A -> Prop) (l : list A) (n : nat) (a : A) :
  Forall P l -> nth_error l n = Some a -> P a.
Proof.
  intros F E. rewrite Forall_forall in F. apply F.
  eapply nth_error_In. exact E.
Qed.

Lemma Qabs_scaled_le (a b w : Q) :
  0 <= a <= 1 -> 0 <= b <= 1 -> 0 < w -> Qabs ((a - b) * w) <= w.
Proof. intros Ha Hb Hw. minmax_cases; nra. Qed.

Lemma ratio_bounds (fw w : Q) :
  0 < w -> 0 <= fw ->
  fw / w * w == fw /\ 0 <= fw / w /\ (fw <= w -> fw / w <= 1).
Proof.
  intros Hw Hfw.
  assert (E : fw / w * w == fw) by (field; lra).
  assert (Hi : 0 < / w) by now apply Qinv_lt_0_compat.
  unfold Qdiv in *. generalize dependent (/ w). intros k E Hk.
  repeat split; [exact E | nra | intro; nra].
Qed.

(** X1: for a frame of positive size the measured face width and height are
    not negative, the two ratios are these lengths divided by the image size,
    and the image size and the time are copied; when the landmarks are in
    normalised coordinates, the face fits in the image, both ratios lie in
    [0, 1] and both centre coordinates in [-1, 1]. *)
Theorem calculateFaceMetrics_geometry (landmarks : list (Landmark Q))
    (w h now : Q) (fm : FaceMetrics Q) :
  0 < w -> 0 < h ->
  calculateFaceMetrics landmarks w h now = Some fm ->
  0 <= faceWidth fm /\ 0 <= faceHeight fm
  /\ faceWidthToImageRatio fm * w == faceWidth fm
  /\ faceHeightToImageRatio fm * h == faceHeight fm
  /\ imageWidth fm = w /\ imageHeight fm = h /\ timestamp fm = now
  /\ (Forall normalised landmarks ->
      faceWidth fm <= w /\ faceHeight fm <= h
      /\ 0 <= faceWidthToImageRatio fm <= 1
      /\ 0 <= faceHeightToImageRatio fm <= 1
      /\ -1 <= faceCenterX fm <= 1
      /\ -1 <= faceCenterY fm <= 1).
Proof.
  intros Hw Hh. unfold calculateFaceMetrics.
  destruct (nth_error landmarks 234) as [leftEar |] eqn:E1; [| discriminate].
  destruct (nth_error landmarks 454) as [rightEar |] eqn:E2;
    [| discriminate].
  destruct (nth_error landmarks 4) as [nose |]; [| discriminate].
  destruct (nth_error landmarks 10) as [forehead |] eqn:E3; [| discriminate].
  destruct (nth_error landmarks 152) as [chin |] eqn:E4; [| discriminate].
  intro E. apply Some_inj in E. subst fm. exact_ops.
  cbn [faceWidth faceHeight faceWidthToImageRatio faceHeightToImageRatio
       faceCenterX faceCenterY imageWidth imageHeight timestamp].
  assert (Hfw : 0 <= Qabs ((x rightEar - x leftEar) * w))
    by apply Qabs_nonneg.
  assert (Hfh : 0 <= Qabs ((y chin - y forehead) * h)) by apply Qabs_nonneg.
  destruct (ratio_bounds Hw Hfw) as (Rw1 & Rw2 & Rw3).
  destruct (ratio_bounds Hh Hfh) as (Rh1 & Rh2 & Rh3).
  split; [exact Hfw |]. split; [exact Hfh |].
  split; [exact Rw1 |]. split; [exact Rh1 |].
  split; [reflexivity |]. split; [reflexivity |]. split; [reflexivity |].
  intro F.
  destruct (@nth_error_Forall _ _ _ _ _ F E1) as [Lx _].
  destruct (@nth_error_Forall _ _ _ _ _ F E2) as [Rx _].
  destruct (@nth_error_Forall _ _ _ _ _ F E3) as [_ Fy].
  destruct (@nth_error_Forall _ _ _ _ _ F E4) as [_ Cy].
  assert (Bw : Qabs ((x rightEar - x leftEar) * w) <= w)
    by now apply Qabs_scaled_le.
  assert (Bh : Qabs ((y chin - y forehead) * h) <= h)
    by now apply Qabs_scaled_le.
  split; [exact Bw |]. split; [exact Bh |].
  split; [split; [exact Rw2 | exact (Rw3 Bw)] |].
  split; [split; [exact Rh2 | exact (Rh3 Bh)] |].
  const_inv. split; lra.
Qed.

Lemma centred_face_normalised :
  Forall normalised (map landmark_at (seq 0 468)).
Proof.
  apply Forall_forall. intros l Hin. apply in_map_iff in Hin.
  destruct Hin as (i & <- & _). unfold landmark_at, normalised.
  repeat match goal with |- context [(?a =? ?b)%nat] =>
    destruct (a =? b)%nat end; cbn [x y]; lra.
Qed.

Lemma calculateFaceMetrics_geometry_witness :
  faceWidth centred_metrics <= 640
  /\ 0 <= faceWidthToImageRatio centred_metrics <= 1
  /\ -1 <= faceCenterX centred_metrics <= 1.
Proof.
  assert (Hw : 0 < 640) by reflexivity.
  assert (Hh : 0 < 480) by reflexivity.
  assert (E : calculateFaceMetrics (map landmark_at (seq 0 468)) 640 480 1740
              = Some centred_metrics) by reflexivity.
  destruct (@calculateFaceMetrics_geometry _ _ _ _ _ Hw Hh E)
    as (_ & _ & _ & _ & _ & _ & _ & B).
  destruct (B centred_face_normalised) as (Bw & _ & Br & _ & Bx & _).
  split; [exact Bw |]. split; [exact Br | exact Bx].
Defined.

(* ================================================================= *)
(** * A frame with too few landmarks *)

Lemma calculateFaceMetrics_None {N} `{Number N}
    (landmarks : list (Landmark N)) (w h now : N) :
  calculateFaceMetrics landmarks w h now = None
  <-> (List.length landmarks <= 454)%nat.
Proof.
  unfold calculateFaceMetrics. split.
  - intro E. apply nth_error_None.
    destruct (nth_error landmarks 454) as [rightEar |] eqn:E2;
      [exfalso | reflexivity].
    assert (L : (454 < List.length landmarks)%nat)
      by (apply nth_error_Some; congruence).
    destruct (nth_error landmarks 234) eqn:E1;
      [| apply nth_error_None in E1; lia].
    destruct (nth_error landmarks 4) eqn:E3;
      [| apply nth_error_None in E3; lia].
    destruct (nth_error landmarks 10) eqn:E4;
      [| apply nth_error_None in E4; lia].
    destruct (nth_error landmarks 152) eqn:E5;
      [| apply nth_error_None in E5; lia].
    discriminate E.
  - intro L. apply nth_error_None in L. rewrite L.
    destruct (nth_error landmarks 234); reflexivity.
Qed.

(** X2: the extractor fails exactly when the landmark list has fewer than
    455 entries (the right ear is landmark 454).  On a running detector such
    a frame is answered with one [onError] callback and nothing else
    changes: no measurement is buffered and no distance update is made. *)
Theorem short_landmark_list_is_an_error {N} `{Number N}
    (results : Results N) (landmarks : list (Landmark N))
    (others : list (list (Landmark N))) (now : N) (d : Detector N) :
  isRunning d = true ->
  multiFaceLandmarks results = Some (landmarks :: others) ->
  (calculateFaceMetrics landmarks (image_width results)
     (image_height results) now = None
   <-> (List.length landmarks <= 454)%nat)
  /\ ((List.length landmarks <= 454)%nat ->
      processFaceMeshResults (Some results) now d
      = emit (onError msg_type_error) d).
Proof.
  intros Run L. split; [apply calculateFaceMetrics_None |].
  intro Short. unfold processFaceMeshResults. rewrite Run, L. cbn [negb].
  apply calculateFaceMetrics_None
    with (w := image_width results) (h := image_height results) (now := now)
    in Short.
  rewrite Short. reflexivity.
Qed.

Lemma short_landmark_list_is_an_error_witness :
  processFaceMeshResults (Some truncated_face) 1000 session_started
  = emit (onError msg_type_error) session_started.
Proof.
  assert (Run : isRunning session_started = true) by reflexivity.
  assert (L : multiFaceLandmarks truncated_face
              = Some [map landmark_at (seq 0 100)]) by reflexivity.
  destruct (@short_landmark_list_is_an_error Q Exact truncated_face _ []
              1000 session_started Run L) as [_ Short].
  apply Short. rewrite length_map, length_seq. lia.
Defined.
(* ================================================================= *)
(** * The buffer in every state *)

Lemma length_lastn {A} (n : nat) (l : list A) :
  List.length (lastn n l) = Nat.min n (List.length l).
Proof. unfold lastn. rewrite length_skipn. lia. Qed.

Lemma check_buffer_inv (frame : option (FaceMetrics Q)) (d : Detector Q) :
  buffer_inv d -> buffer_inv (snd (checkCalibrationFrameAlignment frame d)).
Proof.
  unfold buffer_inv.
  destruct (check_calibration frame d) as (_ & _ & -> & _ & -> & _).
  destruct (check_config frame d) as (-> & _).
  trivial.
Qed.

Lemma handleNoFaceDetected_buffer_inv (now : Q) (d : Detector Q) :
  buffer_inv d -> buffer_inv (handleNoFaceDetected now d).
Proof.
  intros (Ht & Hh & Hm & Hl). unfold handleNoFaceDetected.
  destruct (_ >? _)%js; [| now repeat split].
  repeat split; [exact Ht | constructor | exact Hm | cbn; lia].
Qed.

Lemma addToFaceHistory_buffer_inv (fm : FaceMetrics Q) (d : Detector Q) :
  sample_ok fm -> buffer_inv d -> buffer_inv (addToFaceHistory fm d).
Proof.
  intros Hfm (Ht & Hh & Hm & Hl). unfold buffer_inv.
  rewrite addToFaceHistory_lastn, length_lastn.
  repeat split; [exact Ht | | exact Hm | ].
  - apply Forall_lastn, Forall_app. split; [exact Hh |].
    constructor; [exact Hfm | constructor].
  - change (maxHistorySize (addToFaceHistory fm d)) with (maxHistorySize d).
    lia.
Qed.

Lemma processFaceMeshResults_buffer_inv (results : option (Results Q))
    (now : Q) (d : Detector Q) :
  (forall r, results = Some r -> 0 < image_width r) ->
  buffer_inv d -> buffer_inv (processFaceMeshResults results now d).
Proof.
  intros Hw Inv. unfold processFaceMeshResults.
  destruct (negb (isRunning d)); [exact Inv |].
  destruct results as [r |]; [| now apply handleNoFaceDetected_buffer_inv].
  destruct (multiFaceLandmarks r) as [[| landmarks others] |];
    try now apply handleNoFaceDetected_buffer_inv.
  destruct (calculateFaceMetrics landmarks (image_width r) (image_height r)
              now) as [fm |] eqn:E; [| exact Inv].
  assert (Hfm : sample_ok fm).
  { eapply calculateFaceMetrics_ok; [| exact E]. now apply Hw. }
  pose proof (addToFaceHistory_buffer_inv Hfm Inv) as Inv1.
  pose proof (check_buffer_inv
                (getSmoothedFaceMetrics (addToFaceHistory fm d)) Inv1)
    as Inv2.
  destruct (checkCalibrationFrameAlignment _ _) as [status d2].
  exact Inv2.
Qed.

Lemma calibrate_buffer_inv (fontSize : option Q) (now : Q) (d : Detector Q) :
  buffer_inv d -> buffer_inv (snd (calibrate fontSize now d)).
Proof.
  intro Inv.
  destruct (getSmoothedFaceMetrics d) as [metrics |] eqn:M.
  - destruct (calibrate_present fontSize now d M) as [Good Bad].
    pose proof (check_buffer_inv (Some metrics) Inv) as Inv1.
    destruct (AlignmentStatus_eq_dec
                (fst (checkCalibrationFrameAlignment (Some metrics) d)) good)
      as [G | NG].
    + rewrite (Good G). exact Inv1.
    + rewrite (Bad NG). exact Inv1.
  - unfold calibrate. rewrite M. exact Inv.
Qed.

Lemma loadCalibration_buffer_inv (JSON_parse : string -> option (Parsed Q))
    (data : CalibrationInput Q) (d : Detector Q) :
  buffer_inv d -> buffer_inv (snd (loadCalibration JSON_parse data d)).
Proof.
  intro Inv. unfold loadCalibration.
  destruct (match data with
            | input_string s => JSON_parse s
            | input_value v => Some v
            end) as [[| | o] |]; try exact Inv.
  destruct (st_referenceFaceWidth o) as [w |]; [| exact Inv].
  destruct (negb _); exact Inv.
Qed.

Lemma reachable_buffer_inv (JSON_parse : string -> option (Parsed Q))
    (allowed : CalibrationInput Q -> Prop) (d : Detector Q) :
  reachable JSON_parse allowed d -> buffer_inv d.
Proof.
  induction 1 as [w s | d d' _ IH St].
  - repeat split; [constructor | | cbn; lia].
    cbn. destruct w as [[| n] |]; lia.
  - destruct St as [d | d results now Hw | d fontSize now | d data Hok
                    | d | d].
    + exact IH.
    + now apply processFaceMeshResults_buffer_inv.
    + now apply calibrate_buffer_inv.
    + now apply loadCalibration_buffer_inv.
    + exact IH.
    + destruct IH as (Ht & _ & Hm & _).
      repeat split; [exact Ht | constructor | exact Hm | cbn; lia].
Qed.

(** X3: in every state reached from a fresh detector by starting the loop,
    frames, [calibrate], [loadCalibration] on any input, [resetCalibration]
    and [cleanup], the history buffer holds at most [maxHistorySize]
    measurements, and [maxHistorySize] is at least 1 (a smoothing window of 0
    or none is replaced by 5). *)
Theorem faceHistory_bounded (JSON_parse : string -> option (Parsed Q))
    (allowed : CalibrationInput Q -> Prop) (d : Detector Q) :
  reachable JSON_parse allowed d ->
  (1 <= maxHistorySize d)%nat
  /\ (List.length (faceHistory d) <= maxHistorySize d)%nat.
Proof. intro R. apply (reachable_buffer_inv R). Qed.

Lemma faceHistory_bounded_witness :
  (List.length (faceHistory session_calibrated)
   <= maxHistorySize session_calibrated)%nat.
Proof.
  apply (faceHistory_bounded session_calibrated_reachable).
Defined.

(* ================================================================= *)
(** * Frames without a face *)

Lemma processFaceMeshResults_faceless {N} `{Number N}
    (results : option (Results N)) (now : N) (d : Detector N) :
  isRunning d = true -> faceless results ->
  processFaceMeshResults results now d = handleNoFaceDetected now d.
Proof.
  intros Run F. unfold processFaceMeshResults. rewrite Run. cbn [negb].
  destruct results as [r |]; [| reflexivity].
  destruct F as [-> | ->]; reflexivity.
Qed.

(** X4: a frame without a face, on a running detector.  Within 500 ms of the
    newest buffered measurement nothing changes and no callback is made.
    Later than that (and always when the buffer is empty and the clock is
    past 500) the buffer is emptied and two callbacks are made, a distance
    update without a face and without a distance, then a no-face alignment
    status; the calibration and the debounce state are not touched. *)
Theorem face_loss_grace_period (results : option (Results Q)) (now : Q)
    (d : Detector Q) :
  isRunning d = true -> faceless results ->
  let d' := processFaceMeshResults results now d in
  (now - lastDetectedFace d <= 500 -> d' = d)
  /\ (500 < now - lastDetectedFace d ->
      faceHistory d' = []
      /\ (exists data s,
            trace d'
            = onCalibrationFrameStatus s
                :: onDistanceUpdate data no_face false :: trace d
            /\ cfs_status s = no_face
            /\ distance data = None /\ offset data = None
            /\ distanceRatio data = None
            /\ dd_isCalibrated data = isCalibrated (calibration d))
      /\ calibration d' = calibration d
      /\ localStorage d' = localStorage d
      /\ lastCalibrationStatus d' = lastCalibrationStatus d
      /\ statusStabilityCounter d' = statusStabilityCounter d).
Proof.
  intros Run F d'. subst d'.
  rewrite (processFaceMeshResults_faceless _ _ _ Run F).
  unfold handleNoFaceDetected. fold (lastDetectedFace d). exact_ops.
  destruct (Qltb_spec 500 (now - lastDetectedFace d)) as [Late | Early].
  - split; [intro; lra |]. intros _.
    split; [reflexivity |].
    split; [| repeat split].
    eexists. eexists. split; [reflexivity |]. repeat split.
  - split; [reflexivity |]. intro. lra.
Qed.

Lemma face_loss_grace_period_witness :
  processFaceMeshResults (Some no_landmarks) 1120 session_frame
  = session_frame
  /\ faceHistory (processFaceMeshResults (Some no_landmarks) 1700
                    session_frame) = [].
Proof.
  assert (Run : isRunning session_frame = true) by reflexivity.
  assert (F : faceless (Some no_landmarks)) by (right; reflexivity).
  split.
  - apply (face_loss_grace_period (Some no_landmarks) 1120 session_frame
             Run F).
    vm_compute. discriminate.
  - apply (face_loss_grace_period (Some no_landmarks) 1700 session_frame
             Run F).
    reflexivity.
Defined.

(* ================================================================= *)
(** * Frames with a face *)

Lemma lastn_nonempty {A} (n : nat) (l : list A) (a : A) :
  (1 <= n)%nat -> lastn n (l ++ [a]) <> [].
Proof.
  intros Hn E. apply (f_equal (@List.length A)) in E.
  rewrite length_lastn, length_app in E. cbn in E. lia.
Qed.

Lemma smooth_defined {N} `{Number N} (h : list (FaceMetrics N)) :
  h <> [] -> exists sm, smooth h = Some sm.
Proof. destruct h; [congruence |]. intros _. eexists. reflexivity. Qed.

Lemma processFaceMeshResults_face {N} `{Number N} (results : Results N)
    (landmarks : list (Landmark N)) (others : list (list (Landmark N)))
    (now : N) (d : Detector N) (fm sm : FaceMetrics N) :
  isRunning d = true ->
  multiFaceLandmarks results = Some (landmarks :: others) ->
  calculateFaceMetrics landmarks (image_width results)
    (image_height results) now = Some fm ->
  smooth (faceHistory (addToFaceHistory fm d)) = Some sm ->
  let d2 := snd (checkCalibrationFrameAlignment (Some sm)
                   (addToFaceHistory fm d)) in
  processFaceMeshResults (Some results) now d
  = emit (onDistanceUpdate (calculateRelativeDistance (Some sm) d2)
            (alignment (calibrationFrame d) sm) true) d2.
Proof.
  intros Run L E Hsm d2. subst d2.
  unfold processFaceMeshResults. rewrite Run, L, E. cbn [negb].
  unfold getSmoothedFaceMetrics. rewrite Hsm.
  pose proof (checkCalibrationFrameAlignment_status sm
                (addToFaceHistory fm d)) as St.
  destruct (checkCalibrationFrameAlignment (Some sm) (addToFaceHistory fm d))
    as [status d2].
  cbn [fst snd] in *. subst status. reflexivity.
Qed.

Lemma face_frame_buffer {N} `{Number N} (results : Results N)
    (landmarks : list (Landmark N)) (others : list (list (Landmark N)))
    (now : N) (d : Detector N) (fm : FaceMetrics N) :
  isRunning d = true ->
  multiFaceLandmarks results = Some (landmarks :: others) ->
  calculateFaceMetrics landmarks (image_width results)
    (image_height results) now = Some fm ->
  faceHistory (processFaceMeshResults (Some results) now d)
  = lastn (maxHistorySize d) (faceHistory d ++ [fm]).
Proof.
  intros Run L E.
  unfold processFaceMeshResults. rewrite Run, L, E. cbn [negb].
  destruct (check_calibration
              (getSmoothedFaceMetrics (addToFaceHistory fm d))
              (addToFaceHistory fm d)) as (_ & _ & Ch & _).
  destruct (checkCalibrationFrameAlignment _ _) as [status d2].
  cbn [snd emit faceHistory] in *. rewrite Ch.
  apply addToFaceHistory_lastn.
Qed.

(** X5: a frame in which the extractor measures a face, on a running
    detector whose window is at least 1.  The measurement is appended to the
    buffer, which keeps its newest [maxHistorySize] entries; exactly one
    distance update is made, with [faceDetected] true, the alignment status
    of the smoothed metrics (never no-face) and the distance of the smoothed
    metrics; at most one alignment notification precedes it; the
    calibration and the stored record are not touched. *)
Theorem face_frame_update {N} `{Number N} (results : Results N)
    (landmarks : list (Landmark N)) (others : list (list (Landmark N)))
    (now : N) (d : Detector N) (fm : FaceMetrics N) :
  isRunning d = true -> (1 <= maxHistorySize d)%nat ->
  multiFaceLandmarks results = Some (landmarks :: others) ->
  calculateFaceMetrics landmarks (image_width results)
    (image_height results) now = Some fm ->
  let d' := processFaceMeshResults (Some results) now d in
  faceHistory d' = lastn (maxHistorySize d) (faceHistory d ++ [fm])
  /\ calibration d' = calibration d
  /\ localStorage d' = localStorage d
  /\ exists sm notes,
       getSmoothedFaceMetrics d' = Some sm
       /\ trace d'
          = onDistanceUpdate (calculateRelativeDistance (Some sm) d)
              (alignment (calibrationFrame d) sm) true :: notes ++ trace d
       /\ alignment (calibrationFrame d) sm <> no_face
       /\ (notes = []
           \/ exists s, notes = [onCalibrationFrameStatus s]
                        /\ cfs_status s = alignment (calibrationFrame d) sm).
Proof.
  intros Run Hmax L E d'. subst d'.
  set (d1 := addToFaceHistory fm d).
  assert (H1 : faceHistory d1
               = lastn (maxHistorySize d) (faceHistory d ++ [fm]))
    by apply addToFaceHistory_lastn.
  destruct (@smooth_defined N _ (faceHistory d1)) as [sm Hsm].
  { rewrite H1. now apply lastn_nonempty. }
  rewrite (@processFaceMeshResults_face N _ results landmarks others now d fm sm Run L E Hsm).
  fold d1.
  destruct (check_calibration (Some sm) d1) as (Cc & Cl & Ch & _ & _ & Cs).
  assert (Tr : trace (snd (checkCalibrationFrameAlignment (Some sm) d1))
               = trace d
               \/ exists s,
                    trace (snd (checkCalibrationFrameAlignment (Some sm) d1))
                    = onCalibrationFrameStatus s :: trace d
                    /\ cfs_status s = alignment (calibrationFrame d) sm).
  { unfold checkCalibrationFrameAlignment.
    destruct (negb _); [left; reflexivity |].
    destruct (_ <=? _)%nat; [right | left; reflexivity].
    eexists. split; reflexivity. }
  set (d2 := snd (checkCalibrationFrameAlignment (Some sm) d1)) in *.
  clearbody d2.
  assert (Dist : calculateRelativeDistance (Some sm) d2
                 = calculateRelativeDistance (Some sm) d).
  { unfold calculateRelativeDistance. rewrite Cc, Cs. reflexivity. }
  unfold getSmoothedFaceMetrics.
  cbn [emit faceHistory calibration localStorage trace].
  rewrite Ch, Dist.
  split; [exact H1 |]. split; [exact Cc |]. split; [exact Cl |].
  exists sm.
  destruct Tr as [T | (s & T & Hs)].
  - exists []. split; [exact Hsm |].
    split; [rewrite T; reflexivity |].
    split; [apply alignment_not_no_face | left; reflexivity].
  - exists [onCalibrationFrameStatus s]. split; [exact Hsm |].
    split; [rewrite T; reflexivity |].
    split; [apply alignment_not_no_face | right].
    exists s. split; [reflexivity | exact Hs].
Qed.

Lemma face_frame_update_witness :
  faceHistory (processFaceMeshResults (Some centred_face) 1740
                 session_started)
  = lastn 5 ([] ++ [centred_metrics]).
Proof.
  assert (Run : isRunning session_started = true) by reflexivity.
  assert (Hmax : (1 <= maxHistorySize session_started)%nat) by (cbn; lia).
  assert (L : multiFaceLandmarks centred_face
              = Some [map landmark_at (seq 0 468)]) by reflexivity.
  assert (E : calculateFaceMetrics (map landmark_at (seq 0 468))
                (image_width centred_face) (image_height centred_face) 1740
              = Some centred_metrics) by reflexivity.
  apply (@face_frame_update Q Exact centred_face _ [] 1740 session_started
           centred_metrics Run Hmax L E).
Defined.

Lemma smooth_single (fm : FaceMetrics Q) :
  exists sm, smooth [fm] = Some sm
    /\ faceWidth sm == faceWidth fm
    /\ faceHeight sm == faceHeight fm
    /\ faceWidthToImageRatio sm == faceWidthToImageRatio fm
    /\ faceHeightToImageRatio sm == faceHeightToImageRatio fm
    /\ faceCenterX sm == faceCenterX fm
    /\ faceCenterY sm == faceCenterY fm
    /\ imageWidth sm = imageWidth fm
    /\ imageHeight sm = imageHeight fm
    /\ timestamp sm = timestamp fm.
Proof.
  eexists. split; [reflexivity |].
  cbn [faceWidth faceHeight faceWidthToImageRatio faceHeightToImageRatio
       faceCenterX faceCenterY imageWidth imageHeight timestamp
       fold_left accumulate last List.length of_nat].
  change (of_nat 1) with 1. exact_ops.
  repeat split; try reflexivity; unfold Qdiv; change (/ 1) with 1; ring.
Qed.

(** X6: smoothing starts afresh after a loss of the face.  When a frame
    without a face arrives more than 500 ms after the newest measurement and
    the next frame has a face, the buffer holds that measurement alone and
    the smoothed metrics of that frame are the measurement itself: nothing
    measured before the loss enters the average. *)
Theorem smoothing_restarts_after_face_loss
    (lost : option (Results Q)) (found : Results Q)
    (landmarks : list (Landmark Q)) (others : list (list (Landmark Q)))
    (now1 now2 : Q) (d : Detector Q) (fm : FaceMetrics Q) :
  isRunning d = true -> (1 <= maxHistorySize d)%nat ->
  faceless lost -> 500 < now1 - lastDetectedFace d ->
  multiFaceLandmarks found = Some (landmarks :: others) ->
  calculateFaceMetrics landmarks (image_width found) (image_height found)
    now2 = Some fm ->
  let d1 := processFaceMeshResults lost now1 d in
  let d2 := processFaceMeshResults (Some found) now2 d1 in
  faceHistory d2 = [fm]
  /\ exists sm, getSmoothedFaceMetrics d2 = Some sm
       /\ faceWidth sm == faceWidth fm
       /\ faceHeight sm == faceHeight fm
       /\ faceWidthToImageRatio sm == faceWidthToImageRatio fm
       /\ faceHeightToImageRatio sm == faceHeightToImageRatio fm
       /\ faceCenterX sm == faceCenterX fm
       /\ faceCenterY sm == faceCenterY fm
       /\ timestamp sm = timestamp fm.
Proof.
  intros Run Hmax F Late L E d1 d2.
  assert (E1 : d1 = handleNoFaceDetected now1 d)
    by now apply processFaceMeshResults_faceless.
  assert (H1 : faceHistory d1 = [] /\ isRunning d1 = true
               /\ maxHistorySize d1 = maxHistorySize d).
  { rewrite E1. unfold handleNoFaceDetected. fold (lastDetectedFace d).
    exact_ops.
    destruct (Qltb_spec 500 (now1 - lastDetectedFace d)) as [_ | Early];
      [| lra].
    repeat split. exact Run. }
  destruct H1 as (Hh & Run1 & Hm).
  assert (Hmax1 : (1 <= maxHistorySize d1)%nat) by (rewrite Hm; exact Hmax).
  pose proof (@face_frame_buffer Q Exact found landmarks others now2 d1 fm
                Run1 L E) as Hb.
  fold d2 in Hb. rewrite Hh, Hm in Hb. cbn [app] in Hb.
  assert (Hone : faceHistory d2 = [fm]).
  { rewrite Hb. unfold lastn. cbn [List.length].
    replace (1 - maxHistorySize d)%nat with 0%nat by lia. reflexivity. }
  split; [exact Hone |].
  unfold getSmoothedFaceMetrics. rewrite Hone.
  destruct (smooth_single fm)
    as (sm & S & A1 & A2 & A3 & A4 & A5 & A6 & _ & _ & A9).
  exists sm. repeat split; assumption.
Qed.

Lemma smoothing_restarts_after_face_loss_witness :
  faceHistory
    (processFaceMeshResults (Some centred_face) 1740
       (processFaceMeshResults (Some no_landmarks) 1700 session_frame))
  = [centred_metrics].
Proof.
  assert (Run : isRunning session_frame = true) by reflexivity.
  assert (Hmax : (1 <= maxHistorySize session_frame)%nat) by (cbn; lia).
  assert (F : faceless (Some no_landmarks)) by (right; reflexivity).
  assert (Late : 500 < 1700 - lastDetectedFace session_frame)
    by reflexivity.
  assert (L : multiFaceLandmarks centred_face
              = Some [map landmark_at (seq 0 468)]) by reflexivity.
  assert (E : calculateFaceMetrics (map landmark_at (seq 0 468))
                (image_width centred_face) (image_height centred_face) 1740
              = Some centred_metrics) by reflexivity.
  apply (@smoothing_restarts_after_face_loss (Some no_landmarks)
           centred_face _ [] 1700 1740 session_frame centred_metrics
           Run Hmax F Late L E).
Defined.

(* ================================================================= *)
(** * Smoothing keeps the sign *)

Lemma Qsum_nonneg (f : FaceMetrics Q -> Q) (h : list (FaceMetrics Q)) :
  Forall (fun m => 0 <= f m) h -> 0 <= Qsum (map f h).
Proof.
  induction 1 as [| m h Hm _ IH]; cbn [map Qsum fold_right]; [lra |].
  fold (Qsum (map f h)). lra.
Qed.

Lemma Qsum_nonpos (f : FaceMetrics Q -> Q) (h : list (FaceMetrics Q)) :
  Forall (fun m => f m <= 0) h -> Qsum (map f h) <= 0.
Proof.
  induction 1 as [| m h Hm _ IH]; cbn [map Qsum fold_right]; [lra |].
  fold (Qsum (map f h)). lra.
Qed.

Lemma mean_sign (f : FaceMetrics Q -> Q) (h : list (FaceMetrics Q)) :
  h <> [] ->
  (Forall (fun m => 0 <= f m) h -> 0 <= mean f h)
  /\ (Forall (fun m => f m <= 0) h -> mean f h <= 0).
Proof.
  intro Hne. unfold mean.
  assert (Hn : 0 < inject_Z (Z.of_nat (List.length h))).
  { rewrite <- (Zlt_Qlt 0). destruct h; [congruence | cbn; lia]. }
  assert (Hi : 0 < / inject_Z (Z.of_nat (List.length h)))
    by now apply Qinv_lt_0_compat.
  unfold Qdiv.
  generalize dependent (/ inject_Z (Z.of_nat (List.length h))).
  intros k Hk. split; intro F.
  - pose proof (@Qsum_nonneg f h F) as S.
    generalize dependent (Qsum (map f h)). intros. nra.
  - pose proof (@Qsum_nonpos f h F) as S.
    generalize dependent (Qsum (map f h)). intros. nra.
Qed.

(** X25: smoothing keeps the sign of what was measured.  For each of the
    six averaged fields (face width and height, the two ratios, the two
    centre coordinates): when no buffered measurement has the field below 0,
    the smoothed field is not below 0, and when none has it above 0, the
    smoothed field is not above 0.  (The smoothed value need not lie between
    the smallest and the largest buffered value as the code computes it:
    five copies of 0.11 average to 0.11000000000000001.) *)
Theorem smoothing_keeps_sign (d : Detector Q) (sm : FaceMetrics Q) :
  getSmoothedFaceMetrics d = Some sm ->
  let keeps (f : FaceMetrics Q -> Q) :=
    (Forall (fun m => 0 <= f m) (faceHistory d) -> 0 <= f sm)
    /\ (Forall (fun m => f m <= 0) (faceHistory d) -> f sm <= 0) in
  keeps (@faceWidth Q) /\ keeps (@faceHeight Q)
  /\ keeps (@faceWidthToImageRatio Q)
  /\ keeps (@faceHeightToImageRatio Q)
  /\ keeps (@faceCenterX Q) /\ keeps (@faceCenterY Q).
Proof.
  intros Hsm keeps. subst keeps. unfold getSmoothedFaceMetrics in Hsm.
  assert (Hne : faceHistory d <> []) by (intros E; rewrite E in Hsm;
                                          discriminate Hsm).
  destruct (smooth_means _ Hsm) as (M1 & M2 & M3 & M4 & M5 & M6).
  destruct (@mean_sign (@faceWidth Q) _ Hne) as [P1 N1].
  destruct (@mean_sign (@faceHeight Q) _ Hne) as [P2 N2].
  destruct (@mean_sign (@faceWidthToImageRatio Q) _ Hne) as [P3 N3].
  destruct (@mean_sign (@faceHeightToImageRatio Q) _ Hne) as [P4 N4].
  destruct (@mean_sign (@faceCenterX Q) _ Hne) as [P5 N5].
  destruct (@mean_sign (@faceCenterY Q) _ Hne) as [P6 N6].
  split; [| split; [| split; [| split; [| split]]]]; split; intro F.
  - rewrite M1. now apply P1.
  - rewrite M1. now apply N1.
  - rewrite M2. now apply P2.
  - rewrite M2. now apply N2.
  - rewrite M3. now apply P3.
  - rewrite M3. now apply N3.
  - rewrite M4. now apply P4.
  - rewrite M4. now apply N4.
  - rewrite M5. now apply P5.
  - rewrite M5. now apply N5.
  - rewrite M6. now apply P6.
  - rewrite M6. now apply N6.
Qed.

Lemma smoothing_keeps_sign_witness :
  exists sm,
    getSmoothedFaceMetrics (set_faceHistory two_frames detector0) = Some sm
    /\ 0 <= faceWidth sm.
Proof.
  assert (E : exists sm,
            getSmoothedFaceMetrics (set_faceHistory two_frames detector0)
            = Some sm) by (eexists; reflexivity).
  destruct E as [sm E]. exists sm. split; [exact E |].
  destruct (@smoothing_keeps_sign (set_faceHistory two_frames detector0) sm E)
    as [[Width _] _].
  apply Width. repeat constructor; discriminate.
Defined.

(** The same in binary64, on the buffer whose average is not one of its
    values: the smoothed centre is above every buffered centre, and not
    below 0. *)
Example smoothing_sign_binary64 :
  option_map (fun sm => (PrimFloat.ltb (faceCenterX sample64) (faceCenterX sm),
                         PrimFloat.leb (lit 0) (faceCenterX sm)))
    (smooth (repeat sample64 5)) = Some (true, true).
Proof. vm_compute. reflexivity. Qed.

(* ================================================================= *)
(** * Stored calibrations *)

Section StoredCalibrations.
Context {N : Type} `{Number N}.
Variable JSON_parse : string -> option (Parsed N).

(** X7: [loadCalibration] accepts its argument exactly when it is, or parses
    to, an object that has a [referenceFaceWidth] and a truthy [timestamp].
    A rejected argument leaves the detector as it was.  An accepted one
    replaces the calibration and nothing else: the detector is calibrated
    with the stored width and time, a missing font size becomes 16 and a
    missing reference distance 0. *)
Theorem loadCalibration_acceptance (data : CalibrationInput N)
    (d : Detector N) :
  let parsedData :=
    match data with
    | input_string s => JSON_parse s
    | input_value v => Some v
    end in
  let accepted := fst (loadCalibration JSON_parse data d) in
  let d' := snd (loadCalibration JSON_parse data d) in
  (accepted = true <->
   exists o w, parsedData = Some (parsed_object o)
     /\ st_referenceFaceWidth o = Some w
     /\ is_truthy (st_timestamp o) = true)
  /\ (accepted = false -> d' = d)
  /\ (forall o, parsedData = Some (parsed_object o) -> accepted = true ->
        exists c, d' = set_calibration c d
          /\ isCalibrated c = true
          /\ referenceFaceWidth c = st_referenceFaceWidth o
          /\ cal_timestamp c = st_timestamp o
          /\ (st_referenceFontSize o = None ->
              referenceFontSize c = Some (lit 16))
          /\ (st_referenceDistance o = None ->
              referenceDistance c = lit 0)).
Proof.
  intros parsedData accepted d'. subst accepted d'.
  unfold loadCalibration. fold parsedData.
  destruct parsedData as [[| | o] |] eqn:P; cbn [fst snd].
  1, 2, 4: split; [split; [discriminate | intros (o & w & E & _);
                                           discriminate E] |];
    split; [reflexivity | intros o E; discriminate E].
  destruct (st_referenceFaceWidth o) as [w |] eqn:W.
  - destruct (is_truthy (st_timestamp o)) eqn:T; cbn [negb fst snd].
    + split; [split; [intros _; exists o, w; auto | reflexivity] |].
      split; [discriminate |].
      intros o' E _. apply Some_inj in E.
      assert (Eo : o' = o) by congruence. subst o'.
      eexists. split; [reflexivity |]. cbn.
      rewrite W. repeat split; intros ->; reflexivity.
    + split; [split; [discriminate |] |].
      * intros (o' & w' & E & _ & T'). apply Some_inj in E.
        assert (Eo : o' = o) by congruence. subst o'. congruence.
      * split; [reflexivity | discriminate].
  - cbn [fst snd].
    split; [split; [discriminate |] |].
    + intros (o' & w' & E & W' & _). apply Some_inj in E.
      assert (Eo : o' = o) by congruence. subst o'. congruence.
    + split; [reflexivity | discriminate].
Qed.

(** X8: a calibration survives the trip through the dialog and the store.
    When [completeCalibration] succeeds at a time that is truthy, the record
    it keeps is accepted by [loadCalibration] on any detector, which then is
    calibrated with the reference width just measured, reference distance 0
    and the time of the calibration.  The font size comes back as it was
    when it is truthy; a font size of 0 comes back as 16. *)
Theorem calibration_round_trip (fontSize now : N) (d d2 : Detector N)
    (o : StoredCalibration N) :
  fst (completeCalibration fontSize now d) = Some o ->
  truthy now = true ->
  let d' := snd (completeCalibration fontSize now d) in
  let loaded :=
    loadCalibration JSON_parse (input_value (parsed_object o)) d2 in
  fst loaded = true
  /\ isCalibrated (calibration (snd loaded)) = true
  /\ referenceFaceWidth (calibration (snd loaded))
     = referenceFaceWidth (calibration d')
  /\ referenceDistance (calibration (snd loaded)) = lit 0
  /\ cal_timestamp (calibration (snd loaded)) = Some now
  /\ referenceFontSize (calibration (snd loaded))
     = Some (if truthy fontSize then fontSize else lit 16)
  /\ (truthy fontSize = true ->
      calibration (snd loaded) = calibration d').
Proof.
  intros Ho Tnow d' loaded. subst d' loaded.
  unfold completeCalibration in *.
  destruct (getSmoothedFaceMetrics d) as [metrics |] eqn:M.
  - destruct (calibrate_present (Some fontSize) now d M) as [Good Bad].
    destruct (AlignmentStatus_eq_dec
                (fst (checkCalibrationFrameAlignment (Some metrics) d)) good)
      as [G | NG].
    + pose proof (Good G) as Eq. clear Good Bad.
      rewrite Eq in *. cbn [fst snd] in *.
      apply Some_inj in Ho. subst o.
      cbn [referenceFaceWidth referenceFontSize cal_timestamp] in *.
      unfold loadCalibration.
      cbn [st_referenceFaceWidth st_timestamp is_truthy].
      rewrite Tnow. cbn [negb].
      cbn [fst snd set_calibration set_localStorage calibration isCalibrated
           referenceFaceWidth referenceDistance cal_timestamp
           referenceFontSize st_referenceDistance st_referenceFontSize
           st_timestamp or_default].
      repeat split. intros ->. reflexivity.
    + rewrite (Bad NG) in Ho. discriminate Ho.
  - unfold calibrate in Ho. rewrite M in Ho. discriminate Ho.
Qed.

End StoredCalibrations.

Lemma loadCalibration_acceptance_witness :
  fst (loadCalibration no_parse (input_value (parsed_object session_record))
         detector0) = true
  /\ snd (loadCalibration no_parse (input_string "not JSON") detector0)
     = detector0.
Proof.
  split.
  - apply (loadCalibration_acceptance no_parse
             (input_value (parsed_object session_record)) detector0).
    exists session_record. eexists. repeat split.
  - apply (loadCalibration_acceptance no_parse (input_string "not JSON")
             detector0).
    reflexivity.
Defined.

Lemma calibration_round_trip_witness :
  calibration
    (snd (loadCalibration no_parse
            (input_value (parsed_object session_record)) detector0))
  = calibration (snd (completeCalibration 18 2000 session_frame)).
Proof.
  assert (Ho : fst (completeCalibration 18 2000 session_frame)
               = Some session_record) by reflexivity.
  assert (Tnow : truthy (N := Q) 2000 = true) by reflexivity.
  apply (@calibration_round_trip Q Exact no_parse 18 2000 session_frame
           detector0 session_record Ho Tnow).
  reflexivity.
Defined.

(* ================================================================= *)
(** * Distance, after calibrating and as the face width varies *)

(** X9: right after a successful [calibrate], in any state reached from a
    fresh detector by frames of positive width and the other operations, the
    smoothed metrics are at the reference: the relative distance computed
    for them is 0 and the distance ratio is 1, whatever the distance
    scale. *)
Theorem calibrate_sets_distance_zero
    (JSON_parse : string -> option (Parsed Q))
    (allowed : CalibrationInput Q -> Prop) (d : Detector Q)
    (fontSize : option Q) (now : Q) (c : Calibration Q) :
  reachable JSON_parse allowed d ->
  fst (calibrate fontSize now d) = returned c ->
  let d' := snd (calibrate fontSize now d) in
  exists dist ratio,
    distance (calculateRelativeDistance (getSmoothedFaceMetrics d') d')
    = Some dist
    /\ distanceRatio (calculateRelativeDistance (getSmoothedFaceMetrics d') d')
       = Some ratio
    /\ dd_isCalibrated
         (calculateRelativeDistance (getSmoothedFaceMetrics d') d') = true
    /\ dist == 0 /\ ratio == 1.
Proof.
  intros R Ok d'. subst d'.
  destruct (reachable_buffer_inv R) as (Ht & Hok & _).
  destruct (getSmoothedFaceMetrics d) as [metrics |] eqn:M.
  - destruct (calibrate_present fontSize now d M) as [Good Bad].
    destruct (AlignmentStatus_eq_dec
                (fst (checkCalibrationFrameAlignment (Some metrics) d)) good)
      as [G | NG].
    + pose proof (Good G) as Eq. clear Good Bad.
      rewrite Eq in *. cbn [fst snd] in *.
      destruct (check_calibration (Some metrics) d) as (_ & _ & Ch & _).
      unfold getSmoothedFaceMetrics in *.
      cbn [set_localStorage set_calibration faceHistory].
      rewrite Ch, M.
      rewrite checkCalibrationFrameAlignment_status in G.
      assert (Pos : 0 < faceWidth metrics)
        by (apply (@good_width_positive (calibrationFrame d) (faceHistory d)
                     metrics); assumption).
      unfold calculateRelativeDistance.
      cbn [set_localStorage set_calibration calibration isCalibrated
           referenceFaceWidth to_number distance distanceRatio
           dd_isCalibrated distanceScale].
      exact_ops. eexists. eexists.
      split; [reflexivity |]. split; [reflexivity |].
      split; [reflexivity |].
      split; field; lra.
    + rewrite (Bad NG) in Ok. discriminate Ok.
  - unfold calibrate in Ok. rewrite M in Ok. discriminate Ok.
Qed.

Lemma calibrate_sets_distance_zero_witness :
  exists dist,
    distance (calculateRelativeDistance
                (getSmoothedFaceMetrics session_calibrated)
                session_calibrated) = Some dist
    /\ dist == 0.
Proof.
  assert (Ok : fst (calibrate (Some 18) 2000 session_frame)
               = returned (calibration session_calibrated))
    by reflexivity.
  assert (R : reachable no_parse (positive_width no_parse) session_frame).
  { apply reachable_step with (d := session_started).
    - apply reachable_step with (d := detector0);
        [apply reachable_new | apply step_start].
    - apply step_frame. intros r E. apply Some_inj in E. subst r.
      reflexivity. }
  destruct (@calibrate_sets_distance_zero _ _ _ _ _ _ R Ok)
    as (dist & ratio & Ed & _ & _ & Z & _).
  exists dist. split; [exact Ed | exact Z].
Defined.

Lemma inverse_decreasing (w1 w2 : Q) : 0 < w1 -> w1 < w2 -> / w2 < / w1.
Proof.
  intros P L. assert (P2 : 0 < w2) by lra.
  exact (proj1 (Qinv_lt_contravar w1 w2 P P2) L).
Qed.

Lemma relative_distance_lt (r s w1 w2 : Q) :
  0 < r -> 0 < s -> 0 < w1 -> w1 < w2 ->
  (1 / (w2 / r) - 1) * s < (1 / (w1 / r) - 1) * s
  /\ - s < (1 / (w2 / r) - 1) * s.
Proof.
  intros Hr Hs Hw1 Hw.
  assert (Hw2 : 0 < w2) by lra.
  rewrite (relative_distance_eq (w := w1) (r := r)) by lra.
  rewrite (relative_distance_eq (w := w2) (r := r)) by lra.
  pose proof (inverse_decreasing Hw1 Hw) as Hk.
  assert (K2 : 0 < / w2) by now apply Qinv_lt_0_compat.
  assert (E1 : w1 * / w1 == 1) by (apply Qmult_inv_r; lra).
  assert (E2 : w2 * / w2 == 1) by (apply Qmult_inv_r; lra).
  unfold Qdiv.
  generalize dependent (/ w1). generalize dependent (/ w2).
  intros k2 K2 E2 k1 Hk E1.
  assert (A : 0 < r * (k1 - k2)) by nra.
  assert (B : 0 < r * k2) by nra.
  split; nra.
Qed.



(** In binary64 the order is not strict: at reference width 160 the face
    widths 640 and the next double above 640 are both at distance -75. *)
Example relative_distance_tie_binary64 :
  let wider := with_faceWidth (PrimFloat.next_up (lit 640))
                 (nominal64 (lit 0.5) (lit 0) (lit 0)) in
  let wide := with_faceWidth (lit 640)
                (nominal64 (lit 0.5) (lit 0) (lit 0)) in
  PrimFloat.ltb (faceWidth wide) (faceWidth wider) = true
  /\ distance (calculateRelativeDistance (Some wide) (calibrated64 (lit 160)))
     = Some (lit (-75))
  /\ distance (calculateRelativeDistance (Some wider)
                 (calibrated64 (lit 160)))
     = Some (lit (-75)).
Proof. repeat split; vm_compute; reflexivity. Qed.

(* ================================================================= *)
(** * Font mapper: the multiplier and the dead zone *)

Lemma calculateFontSizeMultiplier_range (d : Q) :
  0.6 <= calculateFontSizeMultiplier d <= 2.5.
Proof.
  unfold calculateFontSizeMultiplier. exact_ops. const_inv.
  minmax_cases; lra.
Qed.

Lemma calculateFontSizeMultiplier_le (d1 d2 : Q) :
  d1 <= d2 ->
  calculateFontSizeMultiplier d1 <= calculateFontSizeMultiplier d2.
Proof.
  unfold calculateFontSizeMultiplier. exact_ops. const_inv.
  intro L. minmax_cases; lra.
Qed.

(** X11: the font size multiplier never decreases as the distance grows
    and lies in [0.6, 2.5].  It is 1 at distance 0; between the distances
    -100/3 and 125 it is the code's own expression
    [1 + (distance * 1.5 * 0.8) / 100], unclamped; it stays at 0.6 below
    that range and at 2.5 above it. *)
Theorem calculateFontSizeMultiplier_monotone (d1 d2 : Q) :
  (d1 <= d2 ->
   calculateFontSizeMultiplier d1 <= calculateFontSizeMultiplier d2)
  /\ 0.6 <= calculateFontSizeMultiplier d1 <= 2.5
  /\ (d1 == 0 -> calculateFontSizeMultiplier d1 == 1)
  /\ (-100 / 3 <= d1 <= 125 ->
      calculateFontSizeMultiplier d1 == 1 + (d1 * 1.5 * 0.8) / 100)
  /\ (d1 <= -100 / 3 -> calculateFontSizeMultiplier d1 == 0.6)
  /\ (125 <= d1 -> calculateFontSizeMultiplier d1 == 2.5).
Proof.
  split; [apply calculateFontSizeMultiplier_le |].
  split; [apply calculateFontSizeMultiplier_range |].
  unfold calculateFontSizeMultiplier. exact_ops. const_inv.
  minmax_cases; repeat split; intros; lra.
Qed.

Lemma calculateFontSizeMultiplier_monotone_witness :
  calculateFontSizeMultiplier 10 <= calculateFontSizeMultiplier 20
  /\ calculateFontSizeMultiplier 10 == 1 + (10 * 1.5 * 0.8) / 100.
Proof.
  destruct (calculateFontSizeMultiplier_monotone 10 20)
    as (Mono & _ & _ & Linear & _).
  split; [apply Mono; discriminate | apply Linear; split; discriminate].
Defined.

(** The same in binary64: the multiplier is the code's expression at
    distance 13, where [1 + 0.012 * 13] is a different double; it is 1 at 0,
    and it is 0.6 and 2.5 at, and next to, the two ends of the range. *)
Example font_multiplier_binary64 :
  let low := lit (N := float) (-100 # 3) in
  let high := lit (N := float) 125 in
  calculateFontSizeMultiplier (N := float) (lit 13)
  = (lit 1 + (lit 13 * lit 1.5 * lit 0.8) / lit 100)%js
  /\ PrimFloat.eqb (calculateFontSizeMultiplier (N := float) (lit 13))
       (lit 1 + lit 0.012 * lit 13)%js = false
  /\ calculateFontSizeMultiplier (N := float) (lit 0) = lit 1
  /\ calculateFontSizeMultiplier low = lit 0.6
  /\ calculateFontSizeMultiplier (PrimFloat.next_up low)
     = (lit 1 + (PrimFloat.next_up low * lit 1.5 * lit 0.8) / lit 100)%js
  /\ calculateFontSizeMultiplier high = lit 2.5
  /\ calculateFontSizeMultiplier (PrimFloat.next_down high)
     = (lit 1 + (PrimFloat.next_down high * lit 1.5 * lit 0.8) / lit 100)%js.
Proof. repeat split; vm_compute; reflexivity. Qed.

Lemma calculateContrastAdjustment_le (d1 d2 : Q) :
  d1 <= d2 ->
  calculateContrastAdjustment d1 <= calculateContrastAdjustment d2.
Proof.
  unfold calculateContrastAdjustment. exact_ops. const_inv. intro L.
  destruct (Qle_bool_spec (d1 * 2.0 * (1 # 100)) 0);
    destruct (Qle_bool_spec (d2 * 2.0 * (1 # 100)) 0);
    minmax_cases; lra.
Qed.

(** X12: the target contrast ratio never decreases as the distance grows: a
    reader further away is never given a lower contrast target than a nearer
    one. *)
Theorem calculateContrastAdjustment_monotone (d1 d2 : Q) :
  d1 <= d2 ->
  calculateContrastAdjustment d1 <= calculateContrastAdjustment d2.
Proof. apply calculateContrastAdjustment_le. Qed.

Lemma calculateContrastAdjustment_monotone_witness :
  calculateContrastAdjustment (-10) <= calculateContrastAdjustment 40.
Proof.
  apply (@calculateContrastAdjustment_monotone (-10) 40). discriminate.
Defined.

(** X13: the dead zone of the font mapper.  A distance within
    [deadZoneRadius] of the dead-zone centre leaves the whole manager as it
    was.  Any other distance records the time of the call; it moves the
    centre to that distance when more than [deadZoneStableTime] has passed
    since the last such call, and leaves the centre otherwise.  The base font
    size and the four tuning constants are never changed. *)
Theorem handleStableFontAdjustment_dead_zone
    (m : ReadingModeManager Q) (d now : Q) :
  let m' := handleStableFontAdjustment d now m in
  (Qabs (d - deadZoneCenter m) <= deadZoneRadius m -> m' = m)
  /\ (deadZoneRadius m < Qabs (d - deadZoneCenter m) ->
      lastDistanceChangeTime m' = now
      /\ (deadZoneStableTime m < now - lastDistanceChangeTime m ->
          deadZoneCenter m' = d)
      /\ (now - lastDistanceChangeTime m <= deadZoneStableTime m ->
          deadZoneCenter m' = deadZoneCenter m))
  /\ baseFontSize m' = baseFontSize m
  /\ fontChangeThreshold m' = fontChangeThreshold m
  /\ deadZoneRadius m' = deadZoneRadius m
  /\ deadZoneStableTime m' = deadZoneStableTime m.
Proof.
  intro m'. subst m'. unfold handleStableFontAdjustment. exact_ops.
  destruct (Qle_bool_spec (Qabs (d - deadZoneCenter m)) (deadZoneRadius m))
    as [In | Out].
  - split; [reflexivity |]. split; [intro; lra |]. repeat split.
  - split; [intro; lra |].
    destruct (Qltb_spec (deadZoneStableTime m)
                (now - lastDistanceChangeTime m)) as [Stable | Recent];
      destruct (Qle_bool (fontChangeThreshold m)
                  (Qabs (d - lastStableDistance m)));
      try destruct (Qle_bool 0.2 _);
      cbn [lastDistanceChangeTime deadZoneCenter baseFontSize
           fontChangeThreshold deadZoneRadius deadZoneStableTime];
      repeat split; try reflexivity; intros; lra.
Qed.

Lemma handleStableFontAdjustment_dead_zone_witness :
  handleStableFontAdjustment 1.5 5000 manager0 = manager0
  /\ deadZoneCenter (handleStableFontAdjustment 10 5000 manager0) = 10.
Proof.
  split.
  - apply (handleStableFontAdjustment_dead_zone manager0 1.5 5000).
    vm_compute. discriminate.
  - apply (handleStableFontAdjustment_dead_zone manager0 10 5000);
      reflexivity.
Defined.

Lemma handleStableFontAdjustment_cases (m : ReadingModeManager Q)
    (d now : Q) :
  let m' := handleStableFontAdjustment d now m in
  let px := Qmax 12 (Qmin 32 (baseFontSize m * calculateFontSizeMultiplier d))
  in
  (Qabs (d - deadZoneCenter m) <= deadZoneRadius m /\ m' = m)
  \/ (deadZoneRadius m < Qabs (d - deadZoneCenter m)
      /\ (Qabs (d - lastStableDistance m) < fontChangeThreshold m
          \/ Qabs (px - currentFontSize m) < 0.2)
      /\ baseFontSize m' = baseFontSize m
      /\ fontChangeThreshold m' = fontChangeThreshold m
      /\ currentFontSize m' = currentFontSize m
      /\ lastStableDistance m' = lastStableDistance m
      /\ ui m' = ui m)
  \/ (deadZoneRadius m < Qabs (d - deadZoneCenter m)
      /\ fontChangeThreshold m <= Qabs (d - lastStableDistance m)
      /\ 0.2 <= Qabs (px - currentFontSize m)
      /\ baseFontSize m' = baseFontSize m
      /\ fontChangeThreshold m' = fontChangeThreshold m
      /\ currentFontSize m' = px
      /\ lastStableDistance m' = d
      /\ ui m' = updateFontSize px :: ui m).
Proof.
  intros m' px. subst m' px. unfold handleStableFontAdjustment. exact_ops.
  destruct (Qle_bool_spec (Qabs (d - deadZoneCenter m)) (deadZoneRadius m))
    as [In | Out].
  { left. auto. }
  right.
  destruct (Qle_bool_spec (fontChangeThreshold m)
              (Qabs (d - lastStableDistance m))) as [Far | Near].
  - destruct (Qle_bool_spec 0.2
                (Qabs (Qmax 12 (Qmin 32 (baseFontSize m
                                         * calculateFontSizeMultiplier d))
                       - currentFontSize m))) as [Big | Small].
    + right. repeat split; assumption || reflexivity.
    + left. repeat split; auto.
  - left. repeat split; auto.
Qed.

Lemma Qabs_self (d : Q) : Qabs (d - d) == 0.
Proof. minmax_cases; lra. Qed.

(** X14: a second call with the same distance never changes the font again.
    For a positive [fontChangeThreshold], after one call of
    [handleStableFontAdjustment] with a distance, a call with the same
    distance, at any later time, leaves the font size, the last stable
    distance and the page untouched. *)
Theorem handleStableFontAdjustment_repeat
    (m : ReadingModeManager Q) (d now1 now2 : Q) :
  0 < fontChangeThreshold m ->
  let m1 := handleStableFontAdjustment d now1 m in
  let m2 := handleStableFontAdjustment d now2 m1 in
  currentFontSize m2 = currentFontSize m1
  /\ lastStableDistance m2 = lastStableDistance m1
  /\ ui m2 = ui m1.
Proof.
  intros Thr m1 m2.
  pose proof (handleStableFontAdjustment_cases m d now1) as First.
  pose proof (handleStableFontAdjustment_cases m1 d now2) as Second.
  cbv zeta in First, Second. fold m1 in First. fold m2 in Second.
  clearbody m2. clearbody m1.
  destruct Second
    as [(_ & Same) | [(_ & _ & _ & _ & A & B & C) | Commit]].
  { rewrite Same. auto. }
  { auto. }
  exfalso. destruct Commit as (Out2 & Far2 & Big2 & _).
  destruct First
    as [(In1 & Same1) | [(_ & Why & Eb & Et & Ec & Es & _)
                         | (_ & _ & _ & _ & Et & _ & Es & _)]].
  - rewrite Same1 in Out2. lra.
  - rewrite Eb, Ec in Big2. rewrite Et, Es in Far2.
    destruct Why; lra.
  - rewrite Et, Es in Far2. rewrite Qabs_self in Far2. lra.
Qed.

Lemma handleStableFontAdjustment_repeat_witness :
  ui (handleStableFontAdjustment 10 9000
        (handleStableFontAdjustment 10 5000 manager0))
  = ui (handleStableFontAdjustment 10 5000 manager0).
Proof.
  apply (@handleStableFontAdjustment_repeat manager0 10 5000 9000).
  reflexivity.
Defined.

Lemma candidate_in_range (b mult : Q) :
  12 <= Qmax 12 (Qmin 32 (b * mult)) <= 32.
Proof. minmax_cases; lra. Qed.

Lemma adjust_all_cons {N} `{Number N} (sample : N * N)
    (samples : list (N * N)) (m : ReadingModeManager N) :
  adjust_all (sample :: samples) m
  = adjust_all samples
      (handleStableFontAdjustment (fst sample) (snd sample) m).
Proof. reflexivity. Qed.

(** X15: over any sequence of distance samples, every font size written to
    the page lies in [12, 32]; there is at most one write per sample; the
    manager's current font size is the size written last (its initial value
    when nothing was written); and the base font size is never changed. *)
Theorem adjust_all_writes (samples : list (Q * Q))
    (m : ReadingModeManager Q) :
  let m' := adjust_all samples m in
  baseFontSize m' = baseFontSize m
  /\ exists writes,
       ui m' = writes ++ ui m
       /\ Forall (fun e => 12 <= written_size e <= 32) writes
       /\ (List.length writes <= List.length samples)%nat
       /\ currentFontSize m'
          = hd (currentFontSize m) (map (@written_size Q) writes).
Proof.
  revert m. induction samples as [| [d now] samples IH]; intros m m'.
  - split; [reflexivity |]. exists [].
    split; [reflexivity |]. split; [constructor |].
    split; [cbn; lia | reflexivity].
  - subst m'. rewrite adjust_all_cons. cbn [fst snd].
    destruct (IH (handleStableFontAdjustment d now m))
      as (Eb & writes & Eu & Hr & Hl & Ec).
    destruct (handleStableFontAdjustment_cases m d now)
      as [(_ & Same) | [(_ & _ & Eb1 & _ & Ec1 & _ & Eu1)
                        | (_ & _ & _ & Eb1 & _ & Ec1 & _ & Eu1)]].
    + rewrite Same in *. split; [exact Eb |].
      exists writes. repeat split; try assumption. cbn [List.length]. lia.
    + rewrite Eb1 in Eb. rewrite Eu1 in Eu. rewrite Ec1 in Ec.
      split; [exact Eb |].
      exists writes. repeat split; try assumption. cbn [List.length]. lia.
    + rewrite Eb1 in Eb. rewrite Eu1 in Eu. rewrite Ec1 in Ec.
      split; [exact Eb |].
      exists (writes ++ [updateFontSize
                           (Qmax 12 (Qmin 32 (baseFontSize m
                              * calculateFontSizeMultiplier d)))]).
      split; [rewrite <- app_assoc; exact Eu |].
      split.
      { apply Forall_app. split; [exact Hr |].
        constructor; [apply candidate_in_range | constructor]. }
      split; [rewrite length_app; cbn [List.length]; lia |].
      rewrite Ec. destruct writes; reflexivity.
Qed.
(* ================================================================= *)
(** * From the face width to the presentation *)

(** X16: the whole chain is monotone.  On a calibrated detector with a
    positive reference width and scale, of two positive face widths the
    narrower one (the reader further away) is given an offset for which
    neither the font size multiplier nor the target contrast ratio is
    smaller. *)
Theorem farther_reader_larger_text (d : Detector Q) (fm : FaceMetrics Q)
    (r w1 w2 : Q) :
  isCalibrated (calibration d) = true ->
  referenceFaceWidth (calibration d) = Some r ->
  0 < r -> 0 < distanceScale d -> 0 < w1 -> w1 < w2 ->
  exists o1 o2,
    offset (calculateRelativeDistance (Some (with_faceWidth w1 fm)) d)
    = Some o1
    /\ offset (calculateRelativeDistance (Some (with_faceWidth w2 fm)) d)
       = Some o2
    /\ calculateFontSizeMultiplier o2 <= calculateFontSizeMultiplier o1
    /\ calculateContrastAdjustment o2 <= calculateContrastAdjustment o1.
Proof.
  intros Cal Ref Hr Hs Hw1 Hw.
  unfold calculateRelativeDistance. rewrite Cal, Ref.
  cbn [to_number offset with_faceWidth faceWidth]. exact_ops.
  eexists. eexists. split; [reflexivity |]. split; [reflexivity |].
  destruct (relative_distance_lt Hr Hs Hw1 Hw) as [Lt _].
  split.
  - apply calculateFontSizeMultiplier_le. lra.
  - apply calculateContrastAdjustment_le. lra.
Qed.

Lemma farther_reader_larger_text_witness :
  exists o1 o2,
    offset (calculateRelativeDistance
              (Some (with_faceWidth 160 (nominal 0.5 0 0)))
              (calibrated_at 320)) = Some o1
    /\ offset (calculateRelativeDistance
                 (Some (with_faceWidth 640 (nominal 0.5 0 0)))
                 (calibrated_at 320)) = Some o2
    /\ calculateFontSizeMultiplier o2 <= calculateFontSizeMultiplier o1
    /\ calculateContrastAdjustment o2 <= calculateContrastAdjustment o1.
Proof.
  apply (@farther_reader_larger_text (calibrated_at 320)
           (nominal 0.5 0 0) 320 160 640); reflexivity.
Defined.
(* ================================================================= *)
(** * Contrast colours: writing and reading channels *)

Lemma hex_char_digit (v : Z) :
  (0 <= v <= 15)%Z -> hex_digit (hex_char v) = Some v.
Proof.
  intro R.
  destruct v as [| p | p]; [reflexivity | | lia].
  do 4 (destruct p as [p | p |]; try lia; try reflexivity).
Qed.

Lemma toString_one_digit (radix v : Z) :
  (0 <= v < radix)%Z -> toString radix v = String (hex_char v) EmptyString.
Proof.
  intro R. unfold toString.
  destruct (Z.ltb_spec v 0) as [Neg | _]; [lia |].
  cbn [digits]. rewrite Z.mod_small by lia.
  rewrite Z.div_small by lia. reflexivity.
Qed.

Lemma toString_two_digits (radix v : Z) :
  (radix <= v < radix * radix)%Z -> (2 <= radix)%Z ->
  toString radix v
  = String (hex_char (v / radix))
      (String (hex_char (v mod radix)) EmptyString).
Proof.
  intros R Radix. unfold toString.
  destruct (Z.ltb_spec v 0) as [Neg | _]; [lia |].
  destruct (Z.to_nat v) as [| fuel] eqn:F; [lia |].
  cbn [digits].
  assert (Hq : (1 <= v / radix < radix)%Z).
  { split; [apply Z.div_le_lower_bound; lia
           | apply Z.div_lt_upper_bound; lia]. }
  destruct (Z.eqb_spec (v / radix) 0) as [Zero | _]; [lia |].
  rewrite (Z.mod_small (v / radix)) by lia.
  rewrite (Z.div_small (v / radix)) by lia. reflexivity.
Qed.

(** Two digits, after padding, for a number below the square of the
    radix. *)
Lemma padStart2_toString (radix v : Z) :
  (0 <= v < radix * radix)%Z -> (2 <= radix <= 16)%Z ->
  padStart2 (toString radix v)
  = String (hex_char (v / radix))
      (String (hex_char (v mod radix)) EmptyString).
Proof.
  intros R Radix.
  destruct (Z_lt_le_dec v radix) as [Small | Large].
  - rewrite toString_one_digit by lia. cbn [padStart2 String.length].
    rewrite Z.div_small, Z.mod_small by lia. reflexivity.
  - rewrite toString_two_digits by lia. reflexivity.
Qed.

Lemma channel_text_byte (v : Z) :
  (0 <= v <= 255)%Z ->
  channel_text (Some v)
  = String (hex_char (v / 16)) (String (hex_char (v mod 16)) EmptyString).
Proof.
  intro R. unfold channel_text. apply padStart2_toString; lia.
Qed.

Lemma parseInt16_channel_text (v : Z) :
  (0 <= v <= 255)%Z ->
  parseInt16 (channel_text (Some v)) = Some v
  /\ is_hex_digit (hex_char (v / 16)) = true
  /\ is_hex_digit (hex_char (v mod 16)) = true.
Proof.
  intro R. rewrite channel_text_byte by exact R.
  assert (Hq : (0 <= v / 16 <= 15)%Z).
  { split; [apply Z.div_pos; lia | ].
    assert (v / 16 < 16)%Z by (apply Z.div_lt_upper_bound; lia). lia. }
  assert (Hm : (0 <= v mod 16 <= 15)%Z)
    by (pose proof (Z.mod_pos_bound v 16); lia).
  unfold parseInt16, is_hex_digit. cbn [hex_prefix].
  rewrite (hex_char_digit Hq), (hex_char_digit Hm).
  repeat split. f_equal. pose proof (Z.div_mod v 16). lia.
Qed.

(** The text written for three channels is a colour, and reading it back
    gives the three channels. *)
Lemma rgb_text_channels (r g b : Z) :
  (0 <= r <= 255)%Z -> (0 <= g <= 255)%Z -> (0 <= b <= 255)%Z ->
  is_hex_color (rgb_text (Some r) (Some g) (Some b)) = true
  /\ channels (rgb_text (Some r) (Some g) (Some b))
     = (Some r, Some g, Some b).
Proof.
  intros Hr Hg Hb.
  destruct (parseInt16_channel_text Hr) as (Pr & R1 & R2).
  destruct (parseInt16_channel_text Hg) as (Pg & G1 & G2).
  destruct (parseInt16_channel_text Hb) as (Pb & B1 & B2).
  unfold rgb_text, channels.
  rewrite (channel_text_byte Hr), (channel_text_byte Hg),
    (channel_text_byte Hb) in *.
  cbn [String.append is_hex_color substr String.substring].
  rewrite R1, R2, G1, G2, B1, B2, Pr, Pg, Pb. split; reflexivity.
Qed.

Lemma Qfloor_unique (q : Q) (z : Z) :
  inject_Z z <= q -> q < inject_Z (z + 1) -> Qfloor q = z.
Proof.
  intros Lo Hi.
  pose proof (Qfloor_le q) as L. pose proof (Qlt_floor q) as U.
  assert (A : inject_Z (Qfloor q) < inject_Z (z + 1)) by lra.
  assert (B : inject_Z z < inject_Z (Qfloor q + 1)) by lra.
  rewrite <- Zlt_Qlt in A, B. lia.
Qed.

Lemma round_clamp_range (q : Q) :
  (0 <= Qfloor (Qmax 0 (Qmin 255 q) + (1 # 2)) <= 255)%Z.
Proof.
  split.
  - apply Z.le_trans with (Qfloor 0); [exact (Z.le_refl 0) |].
    apply Qfloor_resp_le. minmax_cases; lra.
  - apply Z.le_trans with (Qfloor (255 + (1 # 2)));
      [| exact (Z.le_refl 255)].
    apply Qfloor_resp_le. minmax_cases; lra.
Qed.

Lemma round_clamp_le (q1 q2 : Q) :
  q1 <= q2 ->
  (Qfloor (Qmax 0 (Qmin 255 q1) + (1 # 2))
   <= Qfloor (Qmax 0 (Qmin 255 q2) + (1 # 2)))%Z.
Proof. intro L. apply Qfloor_resp_le. minmax_cases; lra. Qed.

Lemma round_clamp_id (r : Z) (q : Q) :
  (0 <= r <= 255)%Z -> q == inject_Z r ->
  Qfloor (Qmax 0 (Qmin 255 q) + (1 # 2)) = r.
Proof.
  intros [Lo Hi] E.
  rewrite Zle_Qle in Lo, Hi.
  change (inject_Z 0) with 0 in Lo. change (inject_Z 255) with 255 in Hi.
  apply Qfloor_unique.
  - minmax_cases; lra.
  - rewrite inject_Z_plus. change (inject_Z 1) with 1.
    minmax_cases; lra.
Qed.

Lemma scaled_channel_scaled (r : Z) (f : Q) :
  scaled_channel round_half_up (Some r) f = Some (scaled r f).
Proof. reflexivity. Qed.

Lemma scaled_range (r : Z) (f : Q) : (0 <= scaled r f <= 255)%Z.
Proof. apply round_clamp_range. Qed.

Lemma scaled_le (r : Z) (f1 f2 : Q) :
  (0 <= r)%Z -> f1 <= f2 -> (scaled r f1 <= scaled r f2)%Z.
Proof.
  intros R L. apply round_clamp_le.
  assert (Pos : 0 <= inject_Z r) by (rewrite <- (Zle_Qle 0); lia).
  nra.
Qed.

Lemma scaled_one (r : Z) (f : Q) :
  (0 <= r <= 255)%Z -> f == 1 -> scaled r f = r.
Proof.
  intros R E. apply round_clamp_id; [exact R |]. rewrite E. ring.
Qed.

Lemma scaled_nonpositive (r : Z) (f : Q) :
  (0 <= r)%Z -> f <= 0 -> scaled r f = 0%Z.
Proof.
  intros R L.
  assert (Pos : 0 <= inject_Z r) by (rewrite <- (Zle_Qle 0); lia).
  assert (Neg : inject_Z r * f <= 0) by nra.
  apply Qfloor_unique.
  - change (inject_Z 0) with 0. minmax_cases; lra.
  - change (inject_Z (0 + 1)) with 1. minmax_cases; lra.
Qed.

Lemma scaled_brighter (r : Z) (f : Q) :
  (0 <= r <= 255)%Z -> 1 <= f -> (r <= scaled r f)%Z.
Proof.
  intros R L. rewrite <- (@scaled_one r 1 R) at 1 by reflexivity.
  apply scaled_le; [lia | exact L].
Qed.

Lemma scaled_darker (r : Z) (f : Q) :
  (0 <= r <= 255)%Z -> f <= 1 -> (scaled r f <= r)%Z.
Proof.
  intros R L. rewrite <- (@scaled_one r 1 R) at 2 by reflexivity.
  apply scaled_le; [lia | exact L].
Qed.

(** A colour, read as three channels. *)
Lemma hex_color_read (c : string) :
  is_hex_color c = true ->
  exists r g b,
    channels c = (Some r, Some g, Some b)
    /\ (0 <= r <= 255)%Z /\ (0 <= g <= 255)%Z /\ (0 <= b <= 255)%Z.
Proof.
  intro W. destruct (hex_color_channels c W)
    as (r & g & b & Er & Eg & Eb & Hr & Hg & Hb).
  exists r, g, b. unfold channels. rewrite Er, Eg, Eb. auto.
Qed.

Lemma adjustBrightness_scaled (hex : string) (f : Q) (r g b : Z) :
  channels hex = (Some r, Some g, Some b) ->
  adjustBrightness round_half_up hex f
  = rgb_text (Some (scaled r f)) (Some (scaled g f)) (Some (scaled b f)).
Proof.
  unfold channels, adjustBrightness. intro E.
  injection E as -> -> ->. reflexivity.
Qed.

Lemma scaled_text (r g b : Z) (f : Q) :
  is_hex_color
    (rgb_text (Some (scaled r f)) (Some (scaled g f)) (Some (scaled b f)))
  = true
  /\ channels
       (rgb_text (Some (scaled r f)) (Some (scaled g f))
          (Some (scaled b f)))
     = (Some (scaled r f), Some (scaled g f), Some (scaled b f)).
Proof. apply rgb_text_channels; apply scaled_range. Qed.

(** X17: [adjustBrightness] on a [#rrggbb] colour gives a [#rrggbb] colour,
    for every factor.  Its channels are those of the input at factor 1, are
    not below them for a factor of at least 1 and not above them for a
    factor of at most 1, never decrease when the factor grows, and the
    result is black for a factor of 0 or less. *)
Theorem adjustBrightness_channels (hex : string) (f : Q) :
  is_hex_color hex = true ->
  let out := adjustBrightness round_half_up hex f in
  is_hex_color out = true
  /\ (f == 1 -> channels out = channels hex)
  /\ (1 <= f -> channels_le (channels hex) (channels out))
  /\ (f <= 1 -> channels_le (channels out) (channels hex))
  /\ (forall f2, f <= f2 ->
        channels_le (channels out)
          (channels (adjustBrightness round_half_up hex f2)))
  /\ (f <= 0 -> out = "#000000"%string).
Proof.
  intros W out. subst out.
  destruct (hex_color_read hex W) as (r & g & b & E & Hr & Hg & Hb).
  rewrite (adjustBrightness_scaled f E).
  destruct (scaled_text r g b f) as [Wo Eo]. rewrite Eo, E.
  split; [exact Wo |].
  split; [intro One; now rewrite !scaled_one |].
  split; [intro L; cbn; repeat split; now apply scaled_brighter |].
  split; [intro L; cbn; repeat split; now apply scaled_darker |].
  split.
  - intros f2 L. rewrite (adjustBrightness_scaled f2 E).
    destruct (scaled_text r g b f2) as [_ Eo2]. rewrite Eo2.
    cbn. repeat split; apply scaled_le; lia || exact L.
  - intro L. rewrite !scaled_nonpositive by (lia || exact L). reflexivity.
Qed.

Lemma adjustBrightness_channels_witness :
  channels (adjustBrightness round_half_up baseBackgroundColor 1)
  = channels baseBackgroundColor
  /\ adjustBrightness round_half_up baseBackgroundColor 0
     = "#000000"%string.
Proof.
  assert (W : is_hex_color baseBackgroundColor = true) by reflexivity.
  destruct (@adjustBrightness_channels baseBackgroundColor 1 W)
    as (_ & One & _).
  destruct (@adjustBrightness_channels baseBackgroundColor 0 W)
    as (_ & _ & _ & _ & _ & Black).
  split; [apply One; reflexivity | apply Black; discriminate].
Defined.
(* ================================================================= *)
(** * Contrast colours: luminance and target ratio *)

Lemma channels_le_refl (c : string) :
  is_hex_color c = true -> channels_le (channels c) (channels c).
Proof.
  intro W. destruct (hex_color_read c W) as (r & g & b & E & _).
  rewrite E. cbn. lia.
Qed.

Section ContrastColours.
(** [Math.pow], of which this is used: a power of a base that is not
    negative is not negative; for a positive exponent it is at most 1 when
    the base is, and at least 1 when the base is. *)
Variable Math_pow : Q -> Q -> Q.
Hypothesis Math_pow_nonneg : forall base e, 0 <= base -> 0 <= Math_pow base e.
Hypothesis Math_pow_le_1 :
  forall base e, 0 <= base <= 1 -> 0 < e -> Math_pow base e <= 1.
Hypothesis Math_pow_ge_1 :
  forall base e, 1 <= base -> 0 < e -> 1 <= Math_pow base e.

Lemma luminanceToColor_cases (target : Q) (base : string) (l : Q)
    (r g b : Z) :
  channels base = (Some r, Some g, Some b) ->
  calculateRelativeLuminance Math_pow base = Some l -> 0 < l ->
  let t := Qmax 0 (Qmin 1 target) in
  let out := luminanceToColor Math_pow round_half_up target base in
  (Qabs (t - l) < 0.001 /\ out = base)
  \/ (exists f,
        0.001 <= Qabs (t - l)
        /\ out = rgb_text (Some (scaled r f)) (Some (scaled g f))
                   (Some (scaled b f))
        /\ (l <= t -> 1 <= f) /\ (t <= l -> f <= 1)).
Proof.
  intros E L Pos t out. subst out.
  unfold luminanceToColor. rewrite L. exact_ops. fold t.
  assert (T0 : 0 <= t) by (subst t; minmax_cases; lra).
  destruct (Qltb_spec (Qabs (t - l)) 0.001) as [Close | Apart].
  { left. split; [exact Close | reflexivity]. }
  right. unfold channels in E. injection E as -> -> ->.
  rewrite !scaled_channel_scaled.
  assert (Hi : 0 < / l) by now apply Qinv_lt_0_compat.
  assert (El : l * / l == 1) by (apply Qmult_inv_r; lra).
  destruct (Qltb_spec l t) as [Above | Below].
  - exists (Math_pow (t / l) 0.4). split; [exact Apart |].
    split; [reflexivity |]. split.
    + intros _. apply Math_pow_ge_1; [| reflexivity].
      unfold Qdiv. generalize dependent (/ l). intros k Hk Ek. nra.
    + intro Le. lra.
  - exists (Math_pow (t / l) 0.6). split; [exact Apart |].
    split; [reflexivity |]. split.
    + intro Ge. assert (Eq : t == l) by lra.
      rewrite Eq in Apart. rewrite Qabs_self in Apart. lra.
    + intros _. apply Math_pow_le_1; [| reflexivity].
      unfold Qdiv. generalize dependent (/ l). intros k Hk Ek.
      split; nra.
Qed.

Lemma luminanceToColor_moves (target : Q) (base : string) (l : Q) :
  is_hex_color base = true ->
  calculateRelativeLuminance Math_pow base = Some l -> 0 < l ->
  let t := Qmax 0 (Qmin 1 target) in
  let out := luminanceToColor Math_pow round_half_up target base in
  is_hex_color out = true
  /\ (Qabs (t - l) < 0.001 -> out = base)
  /\ (l <= t -> channels_le (channels base) (channels out))
  /\ (t <= l -> channels_le (channels out) (channels base)).
Proof.
  intros W L Pos t out.
  destruct (hex_color_read base W) as (r & g & b & E & Hr & Hg & Hb).
  destruct (@luminanceToColor_cases target base l r g b E L Pos)
    as [[Close Same] | (f & Apart & Eo & Up & Down)];
    fold t in Close || fold t in Apart, Up, Down.
  - fold out in Same. rewrite Same.
    split; [exact W |]. split; [reflexivity |].
    split; intros _; now apply channels_le_refl.
  - fold out in Eo. rewrite Eo.
    destruct (scaled_text r g b f) as [Wo Co]. rewrite Co, E.
    split; [exact Wo |]. split; [intro; lra |].
    split; intro Le; cbn; repeat split;
      (apply scaled_brighter || apply scaled_darker); auto.
Qed.

(** X18: [luminanceToColor] on a [#rrggbb] colour of positive luminance
    gives a [#rrggbb] colour.  It is the input itself when the target,
    clamped to [0, 1], is within 0.001 of the input's luminance; for a
    target at or above that luminance no channel is lowered, and for a
    target at or below it no channel is raised. *)
Theorem luminanceToColor_direction (target : Q) (base : string) (l : Q) :
  is_hex_color base = true ->
  calculateRelativeLuminance Math_pow base = Some l -> 0 < l ->
  let t := Qmax 0 (Qmin 1 target) in
  let out := luminanceToColor Math_pow round_half_up target base in
  is_hex_color out = true
  /\ (Qabs (t - l) < 0.001 -> out = base)
  /\ (l <= t -> channels_le (channels base) (channels out))
  /\ (t <= l -> channels_le (channels out) (channels base)).
Proof. apply luminanceToColor_moves. Qed.

Lemma contrast_ratio_at_least_1 (c1 c2 : string) :
  is_hex_color c1 = true -> is_hex_color c2 = true ->
  exists ratio,
    calculateContrastRatio Math_pow c1 c2 = Some ratio /\ 1 <= ratio.
Proof.
  intros W1 W2.
  destruct (luminance_nonneg Math_pow Math_pow_nonneg c1 W1) as (l1 & E1 & P1).
  destruct (luminance_nonneg Math_pow Math_pow_nonneg c2 W2) as (l2 & E2 & P2).
  unfold calculateContrastRatio. rewrite E1, E2. exact_ops.
  eexists. split; [reflexivity |].
  assert (D : 0 < Qmin l1 l2 + 0.05) by (minmax_cases; lra).
  assert (Hi : 0 < / (Qmin l1 l2 + 0.05)) by now apply Qinv_lt_0_compat.
  assert (Ei : (Qmin l1 l2 + 0.05) * / (Qmin l1 l2 + 0.05) == 1)
    by (apply Qmult_inv_r; lra).
  assert (Le : Qmin l1 l2 <= Qmax l1 l2) by (minmax_cases; lra).
  unfold Qdiv.
  generalize dependent (/ (Qmin l1 l2 + 0.05)). intros k Hk Ek.
  generalize dependent (Qmin l1 l2). generalize dependent (Qmax l1 l2).
  intros. nra.
Qed.

Lemma adjusted_background (background : string) (t : Q) :
  is_hex_color background = true ->
  let out :=
    if negb (Qle_bool 6.0 t)
    then adjustBrightness round_half_up background (1 + (6.0 - t) * 0.03)
    else if negb (Qle_bool t 6.0)
    then adjustBrightness round_half_up background (1 - (t - 6.0) * 0.02)
    else background in
  is_hex_color out = true
  /\ (t == 6 -> out = background)
  /\ (t <= 6 -> channels_le (channels background) (channels out))
  /\ (6 <= t -> channels_le (channels out) (channels background)).
Proof.
  intros W out. subst out.
  destruct (hex_color_read background W) as (r & g & b & E & Hr & Hg & Hb).
  destruct (Qltb_spec t 6.0) as [Low | NotLow].
  - rewrite (adjustBrightness_scaled _ E).
    destruct (scaled_text r g b (1 + (6.0 - t) * 0.03)) as [Wo Co].
    rewrite Co, E. split; [exact Wo |]. split; [intro; lra |].
    split; intro; [| lra].
    cbn. repeat split; apply scaled_brighter; auto; lra.
  - destruct (Qltb_spec 6.0 t) as [High | NotHigh].
    + rewrite (adjustBrightness_scaled _ E).
      destruct (scaled_text r g b (1 - (t - 6.0) * 0.02)) as [Wo Co].
      rewrite Co, E. split; [exact Wo |]. split; [intro; lra |].
      split; intro; [lra |].
      cbn. repeat split; apply scaled_darker; auto; lra.
    + split; [exact W |]. split; [reflexivity |].
      split; intros _; now apply channels_le_refl.
Qed.

(** X19: [getContrastColorsForRatio] for [#rrggbb] base colours, a
    background of positive luminance and a positive target ratio.  Both
    colours it returns are [#rrggbb] colours; the ratio it reports is a
    number, at least 1, and the description is the band of that ratio (below
    4.5, below 7, or from 7 on).  The background is the base background at
    target 6, has no channel below it for a target under 6 and no channel
    above it for a target over 6.  When the base text is darker than the
    base background and the target is at least 1, the text has no channel
    above the base background's. *)
Theorem getContrastColorsForRatio_colours (background text : string)
    (t lb lt : Q) :
  is_hex_color background = true -> is_hex_color text = true ->
  calculateRelativeLuminance Math_pow background = Some lb ->
  calculateRelativeLuminance Math_pow text = Some lt ->
  0 < lb -> 0 < t ->
  let c :=
    getContrastColorsForRatio Math_pow round_half_up background text t in
  is_hex_color (cc_background c) = true
  /\ is_hex_color (cc_text c) = true
  /\ (exists ratio,
        cc_ratio c = Some ratio /\ 1 <= ratio
        /\ (ratio < 4.5 -> cc_description c = low_contrast)
        /\ (4.5 <= ratio -> ratio < 7 -> cc_description c = medium_contrast)
        /\ (7 <= ratio -> cc_description c = high_contrast))
  /\ (t == 6 -> cc_background c = background)
  /\ (t <= 6 ->
      channels_le (channels background) (channels (cc_background c)))
  /\ (6 <= t ->
      channels_le (channels (cc_background c)) (channels background))
  /\ (lt < lb -> 1 <= t ->
      channels_le (channels (cc_text c)) (channels background)).
Proof.
  intros Wb Wt Lb Lt Pb Pt c. subst c.
  unfold getContrastColorsForRatio.
  cbn [cc_background cc_text cc_ratio cc_description]. exact_ops.
  destruct (@adjusted_background background t Wb) as (Wo & A6 & Alow & Ahigh).
  cbv zeta in Wo, A6, Alow, Ahigh.
  set (adjustedBackground :=
         if negb (Qle_bool 6.0 t)
         then adjustBrightness round_half_up background (1 + (6.0 - t) * 0.03)
         else if negb (Qle_bool t 6.0)
         then adjustBrightness round_half_up background
                (1 - (t - 6.0) * 0.02)
         else background) in *.
  clearbody adjustedBackground.
  assert (Text :
    exists target,
      adjustColorForContrast Math_pow round_half_up text background t false
      = luminanceToColor Math_pow round_half_up target background
      /\ (lt < lb -> 1 <= t -> Qmax 0 (Qmin 1 target) <= lb)).
  { unfold adjustColorForContrast, gt_number. rewrite Lb, Lt. exact_ops.
    assert (Hi : 0 < / t) by now apply Qinv_lt_0_compat.
    assert (Ei : t * / t == 1) by (apply Qmult_inv_r; lra).
    destruct (Qltb_spec lt lb) as [Darker | Lighter].
    - eexists. split; [reflexivity |]. intros _ T1.
      unfold Qdiv. generalize dependent (/ t). intros k Hk Ek.
      assert (K1 : k <= 1) by nra.
      assert (Small : (lb + 0.05) * k - 0.05 <= lb) by nra.
      minmax_cases; lra.
    - eexists. split; [reflexivity |]. intros D. lra. }
  destruct Text as (target & Et & Below). rewrite Et.
  destruct (@luminanceToColor_moves target background lb Wb Lb Pb)
    as (Wtext & _ & _ & Down).
  cbv zeta in Wtext, Down.
  set (adjustedText :=
         luminanceToColor Math_pow round_half_up target background) in *.
  clearbody adjustedText.
  destruct (@contrast_ratio_at_least_1 _ _ Wtext Wo) as (ratio & Er & R1).
  rewrite Er.
  split; [exact Wo |]. split; [exact Wtext |].
  split.
  { exists ratio. split; [reflexivity |]. split; [exact R1 |].
    destruct (Qltb_spec ratio 4.5) as [Low | NotLow].
    - repeat split; intros; try reflexivity; lra.
    - destruct (Qltb_spec ratio 7.0) as [Mid | NotMid];
        repeat split; intros; try reflexivity; lra. }
  split; [exact A6 |]. split; [exact Alow |]. split; [exact Ahigh |].
  intros D T1. apply Down. now apply Below.
Qed.

End ContrastColours.

Lemma square_pow_nonneg (base e : Q) : 0 <= base -> 0 <= square_pow base e.
Proof. unfold square_pow. intro. nra. Qed.

Lemma square_pow_le_1 (base e : Q) :
  0 <= base <= 1 -> 0 < e -> square_pow base e <= 1.
Proof. unfold square_pow. intros [? ?] _. nra. Qed.

Lemma square_pow_ge_1 (base e : Q) :
  1 <= base -> 0 < e -> 1 <= square_pow base e.
Proof. unfold square_pow. intros ? _. nra. Qed.

Lemma luminanceToColor_direction_witness :
  channels_le
    (channels (luminanceToColor square_pow round_half_up 0.5
                 baseBackgroundColor))
    (channels baseBackgroundColor).
Proof.
  assert (W : is_hex_color baseBackgroundColor = true) by reflexivity.
  assert (L : calculateRelativeLuminance square_pow baseBackgroundColor
              = Some background_luminance) by (vm_compute; reflexivity).
  assert (Pos : 0 < background_luminance) by reflexivity.
  apply (@luminanceToColor_direction square_pow square_pow_le_1
           square_pow_ge_1 0.5 baseBackgroundColor background_luminance
           W L Pos).
  vm_compute. discriminate.
Defined.

Lemma getContrastColorsForRatio_colours_witness :
  is_hex_color
    (cc_text (getContrastColorsForRatio square_pow round_half_up
                baseBackgroundColor baseTextColor 7.5)) = true
  /\ channels_le
       (channels
          (cc_background (getContrastColorsForRatio square_pow round_half_up
                            baseBackgroundColor baseTextColor 7.5)))
       (channels baseBackgroundColor).
Proof.
  assert (Wb : is_hex_color baseBackgroundColor = true) by reflexivity.
  assert (Wt : is_hex_color baseTextColor = true) by reflexivity.
  assert (Lb : calculateRelativeLuminance square_pow baseBackgroundColor
               = Some background_luminance) by (vm_compute; reflexivity).
  assert (Lt : calculateRelativeLuminance square_pow baseTextColor
               = Some text_luminance) by (vm_compute; reflexivity).
  assert (Pb : 0 < background_luminance) by reflexivity.
  assert (Pt : 0 < 7.5) by reflexivity.
  destruct (@getContrastColorsForRatio_colours square_pow square_pow_nonneg
              square_pow_le_1 square_pow_ge_1 baseBackgroundColor
              baseTextColor 7.5 background_luminance text_luminance
              Wb Wt Lb Lt Pb Pt) as (_ & Wtext & _ & _ & _ & Darker & _).
  split; [exact Wtext |]. apply Darker. vm_compute. discriminate.
Defined.
(* ================================================================= *)
(** * Distance updates, from the detector to the reading view *)

Lemma check_trace {N} `{Number N} (frame : option (FaceMetrics N))
    (d : Detector N) :
  trace (snd (checkCalibrationFrameAlignment frame d)) = trace d
  \/ exists s,
       trace (snd (checkCalibrationFrameAlignment frame d))
       = onCalibrationFrameStatus s :: trace d.
Proof.
  unfold checkCalibrationFrameAlignment.
  destruct frame as [fm |]; [| left; reflexivity].
  destruct (negb _); [left; reflexivity |].
  destruct (_ <=? _)%nat; [right | left; reflexivity].
  eexists. reflexivity.
Qed.

Lemma check_updates {N} `{Number N} (frame : option (FaceMetrics N))
    (d : Detector N) :
  Forall update_ok (trace d) ->
  Forall update_ok (trace (snd (checkCalibrationFrameAlignment frame d))).
Proof.
  intro F. destruct (check_trace frame d) as [-> | (s & ->)];
    [exact F | constructor; [exact I | exact F]].
Qed.

Lemma calculateRelativeDistance_offset {N} `{Number N}
    (faceMetrics : option (FaceMetrics N)) (d : Detector N) :
  distance (calculateRelativeDistance faceMetrics d)
  = offset (calculateRelativeDistance faceMetrics d)
  /\ exists o, offset (calculateRelativeDistance faceMetrics d) = Some o.
Proof.
  unfold calculateRelativeDistance.
  destruct (isCalibrated (calibration d)), faceMetrics;
    (split; [reflexivity | eexists; reflexivity]).
Qed.

Lemma processFaceMeshResults_updates {N} `{Number N}
    (results : option (Results N)) (now : N) (d : Detector N) :
  (1 <= maxHistorySize d)%nat ->
  Forall update_ok (trace d) ->
  Forall update_ok (trace (processFaceMeshResults results now d)).
Proof.
  intros Hmax F. unfold processFaceMeshResults.
  destruct (negb (isRunning d)); [exact F |].
  assert (Lost : Forall update_ok (trace (handleNoFaceDetected now d))).
  { unfold handleNoFaceDetected. destruct (_ >? _)%js; [| exact F].
    constructor; [exact I |]. constructor; [| exact F].
    cbn. auto. }
  destruct results as [r |]; [| exact Lost].
  destruct (multiFaceLandmarks r) as [[| landmarks others] |];
    try exact Lost.
  destruct (calculateFaceMetrics landmarks (image_width r) (image_height r)
              now) as [fm |]; [| constructor; [exact I | exact F]].
  destruct (@smooth_defined N _ (faceHistory (addToFaceHistory fm d)))
    as [sm Hsm].
  { rewrite addToFaceHistory_lastn. now apply lastn_nonempty. }
  unfold getSmoothedFaceMetrics. rewrite Hsm.
  pose proof (checkCalibrationFrameAlignment_status sm
                (addToFaceHistory fm d)) as St.
  pose proof (@check_updates N _ (Some sm) (addToFaceHistory fm d) F) as Fc.
  destruct (checkCalibrationFrameAlignment (Some sm) (addToFaceHistory fm d))
    as [status d2].
  cbn [fst snd] in *. subst status.
  cbn [emit trace]. constructor; [| exact Fc].
  destruct (calculateRelativeDistance_offset (Some sm) d2) as [Eq Some_o].
  cbn [update_ok]. split; [exact Eq |]. split; [exact Some_o |].
  apply alignment_not_no_face.
Qed.

Lemma calibrate_updates {N} `{Number N} (fontSize : option N) (now : N)
    (d : Detector N) :
  Forall update_ok (trace d) ->
  Forall update_ok (trace (snd (calibrate fontSize now d))).
Proof.
  intro F.
  destruct (getSmoothedFaceMetrics d) as [metrics |] eqn:M.
  - destruct (calibrate_present fontSize now d M) as [Good Bad].
    pose proof (@check_updates N _ (Some metrics) d F) as Fc.
    destruct (AlignmentStatus_eq_dec
                (fst (checkCalibrationFrameAlignment (Some metrics) d)) good)
      as [G | NG].
    + rewrite (Good G). exact Fc.
    + rewrite (Bad NG). exact Fc.
  - unfold calibrate. rewrite M. exact F.
Qed.

Lemma loadCalibration_trace {N} `{Number N}
    (JSON_parse : string -> option (Parsed N)) (data : CalibrationInput N)
    (d : Detector N) :
  trace (snd (loadCalibration JSON_parse data d)) = trace d.
Proof.
  unfold loadCalibration.
  destruct (match data with
            | input_string s => JSON_parse s
            | input_value v => Some v
            end) as [[| | o] |]; try reflexivity.
  destruct (st_referenceFaceWidth o); [| reflexivity].
  destruct (negb _); reflexivity.
Qed.

(** X20: every distance update a detector has made, in any state reached
    from a fresh detector, is well formed: its distance and its offset are
    the same value; an update made for a face carries an offset and a status
    other than no-face; an update made without a face carries no offset and
    the status no-face. *)
Theorem distance_updates_well_formed
    (JSON_parse : string -> option (Parsed Q))
    (allowed : CalibrationInput Q -> Prop) (d : Detector Q) :
  reachable JSON_parse allowed d -> Forall update_ok (trace d).
Proof.
  induction 1 as [w s | d d' R IH St].
  - constructor.
  - destruct (reachable_buffer_inv R) as (_ & _ & Hmax & _).
    destruct St as [d | d results now Hw | d fontSize now | d data Hok
                    | d | d].
    + exact IH.
    + now apply processFaceMeshResults_updates.
    + now apply calibrate_updates.
    + rewrite loadCalibration_trace. exact IH.
    + exact IH.
    + exact IH.
Qed.

Lemma distance_updates_well_formed_witness :
  Forall update_ok (trace session_calibrated).
Proof.
  apply (@distance_updates_well_formed no_parse (positive_width no_parse)
           session_calibrated session_calibrated_reachable).
Defined.



(* ================================================================= *)
(** * The stored calibration, from the dialog to the reading view *)

(** X22: in any state reached from a fresh detector by frames of positive
    width and the other operations, a record that [completeCalibration]
    keeps at a truthy time is usable once stored: when the stored string
    parses to it, [CalibrationManager.getCalibration] returns it,
    [CalibrationManager.isCalibrated] is true, and [loadCalibration] of the
    string on any detector succeeds and leaves that detector calibrated with
    a positive reference width. *)
Theorem stored_calibration_usable
    (JSON_parse : string -> option (Parsed Q))
    (allowed : CalibrationInput Q -> Prop) (d d2 : Detector Q)
    (fontSize now : Q) (o : StoredCalibration Q) (s : string) :
  reachable JSON_parse allowed d ->
  fst (completeCalibration fontSize now d) = Some o ->
  ~ now == 0 ->
  s <> ""%string -> JSON_parse s = Some (parsed_object o) ->
  CalibrationManager_getCalibration JSON_parse (Some s) = parsed_object o
  /\ CalibrationManager_isCalibrated JSON_parse (Some s) = true
  /\ fst (loadCalibration JSON_parse (input_string s) d2) = true
  /\ isCalibrated
       (calibration (snd (loadCalibration JSON_parse (input_string s) d2)))
     = true
  /\ exists r,
       referenceFaceWidth
         (calibration (snd (loadCalibration JSON_parse (input_string s) d2)))
       = Some r
       /\ 0 < r.
Proof.
  intros R Ho Tnow Hs P.
  destruct (reachable_buffer_inv R) as (Ht & Hok & _).
  assert (Rec : exists w, 0 < w
                  /\ st_referenceFaceWidth o = Some w
                  /\ st_timestamp o = Some now).
  { unfold completeCalibration in Ho.
    destruct (getSmoothedFaceMetrics d) as [metrics |] eqn:M.
    - destruct (calibrate_present (Some fontSize) now d M) as [Good Bad].
      destruct (AlignmentStatus_eq_dec
                  (fst (checkCalibrationFrameAlignment (Some metrics) d))
                  good) as [G | NG].
      + rewrite (Good G) in Ho. cbn [fst] in Ho.
        apply Some_inj in Ho. subst o.
        exists (faceWidth metrics). split; [| split; reflexivity].
        rewrite checkCalibrationFrameAlignment_status in G.
        apply (@good_width_positive (calibrationFrame d) (faceHistory d)
                 metrics); assumption.
      + rewrite (Bad NG) in Ho. discriminate Ho.
    - unfold calibrate in Ho. rewrite M in Ho. discriminate Ho. }
  destruct Rec as (w & Pos & Ew & Ets).
  assert (Tw : truthy w = true).
  { exact_ops. destruct (Qeq_bool w 0) eqn:Z; [| reflexivity].
    apply Qeq_bool_iff in Z. lra. }
  assert (Tt : truthy now = true).
  { exact_ops. destruct (Qeq_bool now 0) eqn:Z; [| reflexivity].
    apply Qeq_bool_iff in Z. contradiction. }
  assert (Get : CalibrationManager_getCalibration JSON_parse (Some s)
                = parsed_object o).
  { unfold CalibrationManager_getCalibration.
    destruct (String.eqb_spec s ""); [contradiction |]. rewrite P.
    reflexivity. }
  split; [exact Get |].
  split.
  { unfold CalibrationManager_isCalibrated. rewrite Get, Ew. exact Tw. }
  unfold loadCalibration. rewrite P, Ew, Ets. cbn [is_truthy].
  rewrite Tt. cbn [negb fst snd set_calibration calibration isCalibrated
                   referenceFaceWidth].
  split; [reflexivity |]. split; [reflexivity |].
  exists w. split; [reflexivity | exact Pos].
Qed.

Lemma session_frame_reachable (JSON_parse : string -> option (Parsed Q)) :
  reachable JSON_parse any_input session_frame.
Proof.
  apply reachable_step with (d := session_started).
  - apply reachable_step with (d := detector0);
      [apply reachable_new | apply step_start].
  - apply step_frame. intros r E. apply Some_inj in E. subst r.
    reflexivity.
Qed.

Lemma stored_calibration_usable_witness :
  CalibrationManager_isCalibrated parse_session (Some "session"%string)
  = true
  /\ fst (loadCalibration parse_session (input_string "session") detector0)
     = true.
Proof.
  assert (Ho : fst (completeCalibration 18 2000 session_frame)
               = Some session_record) by reflexivity.
  assert (Tnow : ~ 2000 == 0) by discriminate.
  assert (Hs : "session"%string <> ""%string) by discriminate.
  assert (P : parse_session "session" = Some (parsed_object session_record))
    by reflexivity.
  destruct (@stored_calibration_usable parse_session any_input session_frame
              detector0 18 2000 session_record "session"
              (session_frame_reachable parse_session) Ho Tnow Hs P)
    as (_ & Cal & Acc & _).
  split; [exact Cal | exact Acc].
Defined.
(* ================================================================= *)
(** * Reading time *)

Lemma decimal_digit_char (v : Z) :
  (0 <= v <= 9)%Z -> decimal_digit (hex_char v) = Some v.
Proof.
  intro R.
  destruct v as [| p | p]; [reflexivity | | lia].
  do 4 (destruct p as [p | p |]; try lia; try reflexivity).
Qed.

Lemma two_digits_read (v : Z) :
  (0 <= v < 100)%Z ->
  exists c1 c2,
    padStart2 (toString 10 v) = String c1 (String c2 EmptyString)
    /\ two_digits c1 c2 = Some v.
Proof.
  intro R. exists (hex_char (v / 10)), (hex_char (v mod 10)).
  split; [apply padStart2_toString; lia |].
  assert (Hq : (0 <= v / 10 <= 9)%Z).
  { split; [apply Z.div_pos; lia |].
    assert (v / 10 < 10)%Z by (apply Z.div_lt_upper_bound; lia). lia. }
  assert (Hm : (0 <= v mod 10 <= 9)%Z)
    by (pose proof (Z.mod_pos_bound v 10); lia).
  unfold two_digits.
  rewrite (decimal_digit_char Hq), (decimal_digit_char Hm).
  f_equal. pose proof (Z.div_mod v 10). lia.
Qed.

Lemma Qfloor_div_60 (t : Z) : Qfloor (inject_Z t / 60) = (t / 60)%Z.
Proof.
  unfold Qdiv, Qmult, Qinv, inject_Z, Qfloor. cbn [Qnum Qden].
  rewrite Z.mul_1_r. reflexivity.
Qed.

(** X23: the reading timer.  For an elapsed time of at least 0 and less than
    100 minutes, [formatTime] gives a text of the form [mm:ss]: two decimal
    digits, a colon, two decimal digits.  Read back, the seconds are below
    60 and [60 * mm + ss] is the number of whole seconds elapsed. *)
Theorem formatTime_clock (milliseconds : Q) :
  0 <= milliseconds -> milliseconds < 6000000 ->
  exists m s,
    read_clock (formatTime milliseconds) = Some (m, s)
    /\ (0 <= m < 100)%Z /\ (0 <= s < 60)%Z
    /\ inject_Z (60 * m + s) * 1000 <= milliseconds
    /\ milliseconds < inject_Z (60 * m + s + 1) * 1000.
Proof.
  intros Lo Hi. unfold formatTime.
  set (t := Qfloor (milliseconds / 1000)).
  assert (Fl : inject_Z t <= milliseconds / 1000) by apply Qfloor_le.
  assert (Fu : milliseconds / 1000 < inject_Z (t + 1)) by apply Qlt_floor.
  assert (Ht : (0 <= t < 6000)%Z).
  { split.
    - apply Z.le_trans with (Qfloor 0); [exact (Z.le_refl 0) |].
      apply Qfloor_resp_le. const_inv. lra.
    - assert (A : inject_Z t < inject_Z 6000).
      { change (inject_Z 6000) with 6000. const_inv. lra. }
      now rewrite <- Zlt_Qlt in A. }
  clearbody t. rewrite Qfloor_div_60.
  rewrite Z.rem_mod_nonneg by lia.
  assert (Hm : (0 <= t / 60 < 100)%Z).
  { split; [apply Z.div_pos; lia | apply Z.div_lt_upper_bound; lia]. }
  assert (Hs : (0 <= t mod 60 < 60)%Z) by (apply Z.mod_pos_bound; lia).
  destruct (two_digits_read Hm) as (m1 & m2 & Em & Rm).
  destruct (@two_digits_read (t mod 60)) as (s1 & s2 & Es & Rs); [lia |].
  exists (t / 60)%Z, (t mod 60)%Z.
  rewrite Em, Es. cbn [String.append read_clock Ascii.eqb Bool.eqb].
  rewrite Rm, Rs.
  split; [reflexivity |]. split; [exact Hm |]. split; [exact Hs |].
  assert (Et : (60 * (t / 60) + t mod 60 = t)%Z)
    by (pose proof (Z.div_mod t 60); lia).
  rewrite Et. rewrite inject_Z_plus in Fu. change (inject_Z 1) with 1 in Fu.
  rewrite inject_Z_plus. change (inject_Z 1) with 1.
  const_inv. split; lra.
Qed.

Lemma formatTime_clock_witness :
  exists m s,
    read_clock (formatTime 754321) = Some (m, s)
    /\ (0 <= m < 100)%Z /\ (0 <= s < 60)%Z
    /\ inject_Z (60 * m + s) * 1000 <= 754321
    /\ 754321 < inject_Z (60 * m + s + 1) * 1000.
Proof.
  apply (@formatTime_clock 754321); [discriminate | reflexivity].
Defined.

(** X24: the estimated reading time is the least whole number of minutes
    that covers the words at 225 words per minute: the text is "under a
    minute" exactly when there are no words (or fewer), "one minute" for 1
    to 225 words, and otherwise names the number of minutes [m], at least 2,
    with [225 * (m - 1) < words <= 225 * m]. *)
Theorem calculateReadingTime_estimate (wordCount : Q) :
  (calculateReadingTime wordCount = less_than_a_minute <-> wordCount <= 0)
  /\ (calculateReadingTime wordCount = one_minute
      <-> 0 < wordCount /\ wordCount <= 225)
  /\ (forall m,
        calculateReadingTime wordCount = minutes_text m
        <-> (2 <= m)%Z
            /\ 225 * inject_Z (m - 1) < wordCount
            /\ wordCount <= 225 * inject_Z m).
Proof.
  unfold calculateReadingTime.
  set (c := Qceiling (wordCount / 225)).
  assert (Cu : wordCount / 225 <= inject_Z c) by apply Qle_ceiling.
  assert (Cl : inject_Z (c - 1) < wordCount / 225) by apply Qceiling_lt.
  assert (Uniq : forall m,
            225 * inject_Z (m - 1) < wordCount ->
            wordCount <= 225 * inject_Z m -> c = m).
  { intros m A B.
    assert (L1 : inject_Z (c - 1) < inject_Z m) by (const_inv; lra).
    assert (L2 : inject_Z (m - 1) < inject_Z c) by (const_inv; lra).
    rewrite <- Zlt_Qlt in L1, L2. lia. }
  clearbody c.
  assert (Cu' : wordCount <= 225 * inject_Z c) by (const_inv; lra).
  assert (Cl' : 225 * inject_Z (c - 1) < wordCount) by (const_inv; lra).
  assert (Bounds : forall k : Z,
            ((c <= k)%Z -> wordCount <= 225 * inject_Z k)
            /\ ((k < c)%Z -> 225 * inject_Z k < wordCount)).
  { intro k. split; intro L.
    - rewrite Zle_Qle in L. lra.
    - assert (L' : (k <= c - 1)%Z) by lia. rewrite Zle_Qle in L'. lra. }
  destruct (Bounds 0%Z) as [B0a B0b]. destruct (Bounds 1%Z) as [B1a B1b].
  change (inject_Z 0) with 0 in *. change (inject_Z 1) with 1 in *.
  destruct (Z.ltb_spec c 1) as [Low | NotLow].
  - split; [split; [intros _; apply B0a; lia | reflexivity] |].
    split; [split; [discriminate | intros [P _]] |].
    + assert (T : wordCount <= 0) by (apply B0a; lia). lra.
    + intro m. split; [discriminate | intros (M & A & B)].
      rewrite (Uniq m A B) in Low. lia.
  - destruct (Z.eqb_spec c 1) as [One | NotOne].
    + subst c.
      split; [split; [discriminate | intro Z0] |].
      { assert (T : 0 < wordCount) by (apply B0b; lia). lra. }
      split; [split; [intros _; split; [apply B0b; lia |]
                     | reflexivity] |].
      { assert (T : wordCount <= 225 * 1) by (apply B1a; lia). lra. }
      intro m. split; [discriminate | intros (M & A & B)].
      pose proof (Uniq m A B). lia.
    + split; [split; [discriminate | intro Z0] |].
      { assert (T : 0 < wordCount) by (apply B0b; lia). lra. }
      split; [split; [discriminate | intros [_ P]] |].
      { assert (T : 225 * 1 < wordCount) by (apply B1b; lia). lra. }
      intro m. split.
      * intro E. injection E as <-. split; [lia |]. split; assumption.
      * intros (M & A & B). rewrite (Uniq m A B). reflexivity.
Qed.
